(** * Scene timing and zoom geometry of shorts_art

    A shallow embedding of the numeric core of the repository:

    - [modules/utils.py]: [clamp], [calculate_aspect_ratio_fit],
      [wrap_text] and [format_file_size];
    - [modules/image_processor.py]: [_calculate_crop_box],
      [_fit_to_aspect_ratio], [generate_zoomed_images] and the museum view;
    - [modules/audio_analyzer.py]: [_calculate_scene_timings] and
      [distribute_scenes_to_timings];
    - [modules/video_maker.py]: the durations of the clips;
    - [modules/subtitle_maker.py]: where the subtitle and its shadow are
      drawn;
    - [modules/claude_analyzer.py]: [resize_image_under_limit];
    - [main.py]: [load_scenes].

    Number model.  Python [int] is [Z].  Python [float] is modelled by the
    exact rationals [Q]: every arithmetic operation is the real operation,
    so the rounding error of binary64 is not represented.  Comparisons of
    rationals are up to [Qeq] ([==]).  [int(v)] on a float truncates toward
    zero, [a // b] on integers is floor division.  A Python exception is an
    explicit [Raise] outcome.

    Rounding.  A binary64 result differs from the exact one by a relative
    error of about 1e-16, which moves a truncated result by a pixel or an
    index when the exact value is a whole number, and a sum of durations by
    an ulp.  Where a property depends on such a value it is therefore stated
    with a margin: a pixel on a truncated size or index, 1e-3 seconds on a
    sum of durations.  The theorems are proved of the exact definitions.
    That their margins also hold the binary64 results is a matter of the
    size of the rounding error, which for sides below 2^26 pixels and audio
    shorter than a year stays far inside them; it is not a theorem of this
    file.  [Binary64] writes the numeric functions once more on primitive
    floats, to run them on concrete inputs: the examples on binary64 show
    the results that the margins are there for, and the counterexamples to
    C2, C8 and C9 are stated on them.

    Libraries the source calls.  [numpy.linspace] is written out as numpy
    computes it.  Pillow's images are an interface, [Imaging], with the laws
    of [crop] and [resize] the proofs rely on, [ImagingLaws]; [crop] on an
    inverted box, [resize] to a size without pixels and the JPEG [save] of
    an image in a mode JPEG cannot hold raise.  The warning printed by the
    distribution is returned next to its result. *)

From Stdlib Require Import ZArith QArith Qround Qminmax Lqa Lia.
From Stdlib Require Import List Sorted String Bool.
From Stdlib Require Floats.PrimFloat Floats.SpecFloat Floats.FloatOps.
Import ListNotations.

Local Open Scope Q_scope.

(** ** Outcomes: a returned value or a raised exception *)

Inductive exn : Set :=
| ZeroDivisionError
| IndexError
| ValueError
| OSError
| OverflowError
| Exception.

Inductive outcome (A : Type) : Type :=
| Ok (a : A)
| Raise (e : exn).

Arguments Ok {A} a.
Arguments Raise {A} e.

Definition bind {A B : Type} (m : outcome A) (k : A -> outcome B) : outcome B :=
  match m with
  | Ok a => k a
  | Raise e => Raise e
  end.

Notation "x <- m ;; k" := (bind m (fun x => k))
  (at level 61, m at next level, right associativity).

(** ** Python arithmetic on floats *)

Definition Qltb (a b : Q) : bool := negb (Qle_bool b a).

(** [a / b] on floats: raises on a zero divisor. *)
Definition truediv (a b : Q) : outcome Q :=
  if Qeq_bool b 0 then Raise ZeroDivisionError else Ok (a / b).

(** [int(v)]: truncation toward zero. *)
Definition int_of_float (v : Q) : Z := Z.quot (Qnum v) (Z.pos (Qden v)).

(** The builtins [min(a, b)] and [max(a, b)]: the first argument wins a tie. *)
Definition py_min (a b : Q) : Q := if Qltb b a then b else a.
Definition py_max (a b : Q) : Q := if Qltb a b then b else a.

(** ** modules/utils.py *)

Definition clamp (value min_value max_value : Q) : Q :=
  py_max min_value (py_min max_value value).

(** ** modules/image_processor.py: the crop box *)

Definition CropBox : Type := (Z * Z * Z * Z)%type.

Definition box_left (b : CropBox) : Z := let '(l, _, _, _) := b in l.
Definition box_top (b : CropBox) : Z := let '(_, t, _, _) := b in t.
Definition box_right (b : CropBox) : Z := let '(_, _, r, _) := b in r.
Definition box_bottom (b : CropBox) : Z := let '(_, _, _, b') := b in b'.

(** The four float bounds [(left, top, right, bottom)] while the function
    works on them. *)
Definition FloatBox : Type := (Q * Q * Q * Q)%type.

(** "줌 영역 계산", "중심점 계산", "크롭 박스 계산": the box centred on the
    focus point. *)
Definition centred_box (img_width img_height : Z) (x y crop_width crop_height : Q)
  : FloatBox :=
  let center_x := inject_Z img_width * x in
  let center_y := inject_Z img_height * y in
  let left_ := center_x - crop_width / 2 in
  let top_ := center_y - crop_height / 2 in
  let right_ := center_x + crop_width / 2 in
  let bottom_ := center_y + crop_height / 2 in
  (left_, top_, right_, bottom_).

(** "경계 처리": the four [if] statements, in the order of the source. *)
Definition shift_box (img_width img_height : Z) (b : FloatBox) : FloatBox :=
  let '(left_, top_, right_, bottom_) := b in
  let '(left_, right_) :=
    if Qltb left_ 0 then (0, right_ - left_) else (left_, right_) in
  let '(top_, bottom_) :=
    if Qltb top_ 0 then (0, bottom_ - top_) else (top_, bottom_) in
  let '(left_, right_) :=
    if Qltb (inject_Z img_width) right_
    then (left_ - (right_ - inject_Z img_width), inject_Z img_width)
    else (left_, right_) in
  let '(top_, bottom_) :=
    if Qltb (inject_Z img_height) bottom_
    then (top_ - (bottom_ - inject_Z img_height), inject_Z img_height)
    else (top_, bottom_) in
  (left_, top_, right_, bottom_).

(** "최종 클램핑". *)
Definition clamp_box (img_width img_height : Z) (b : FloatBox) : FloatBox :=
  let '(left_, top_, right_, bottom_) := b in
  (clamp left_ 0 (inject_Z img_width),
   clamp top_ 0 (inject_Z img_height),
   clamp right_ 0 (inject_Z img_width),
   clamp bottom_ 0 (inject_Z img_height)).

Definition int_box (b : FloatBox) : CropBox :=
  let '(left_, top_, right_, bottom_) := b in
  (int_of_float left_, int_of_float top_, int_of_float right_, int_of_float bottom_).

Definition _calculate_crop_box (img_width img_height : Z) (x y zoom : Q)
  : outcome CropBox :=
  crop_width <- truediv (inject_Z img_width) zoom ;;
  crop_height <- truediv (inject_Z img_height) zoom ;;
  let b := centred_box img_width img_height x y crop_width crop_height in
  let b := shift_box img_width img_height b in
  let b := clamp_box img_width img_height b in
  Ok (int_box b).


(** The same computation read one axis at a time: the bounds of an axis of
    length [img_size] for a box of the given [extent] centred at [center],
    after the boundary handling and the final clamping.  [crop_box_axes]
    below proves that [_calculate_crop_box] is this function on each axis. *)
Definition axis_bounds (img_size : Z) (center extent : Q) : Q * Q :=
  let lo := center - extent / 2 in
  let hi := center + extent / 2 in
  let '(lo, hi) := if Qltb lo 0 then (0, hi - lo) else (lo, hi) in
  let '(lo, hi) :=
    if Qltb (inject_Z img_size) hi
    then (lo - (hi - inject_Z img_size), inject_Z img_size)
    else (lo, hi) in
  (clamp lo 0 (inject_Z img_size), clamp hi 0 (inject_Z img_size)).

(** ** modules/image_processor.py: fitting to the video aspect ratio *)

(** The part of Pillow the functions use.  An image has a size
    [(width, height)] and a mode, of which only whether the JPEG encoder can
    write it matters here; [crop] cuts the region of a box out of it and
    [resize] resamples it to a size. *)
Class Imaging (image : Type) : Type := {
  size : image -> Z * Z;
  jpeg_mode : image -> bool;
  crop : image -> CropBox -> image;
  resize : image -> Z * Z -> image
}.

Definition box_size (b : CropBox) : Z * Z :=
  (box_right b - box_left b, box_bottom b - box_top b)%Z.

(** What Pillow documents of these operations: the size of a cropped image
    is the size of the box, a resized image has the requested size, and both
    keep the mode. *)
Class ImagingLaws (image : Type) `{Imaging image} : Prop := {
  size_crop : forall img b, size (crop img b) = box_size b;
  size_resize : forall img s, size (resize img s) = s;
  mode_crop : forall img b, jpeg_mode (crop img b) = jpeg_mode img;
  mode_resize : forall img s, jpeg_mode (resize img s) = jpeg_mode img
}.

(** [img.crop(box)]: Pillow raises a [ValueError] for a box whose right
    (lower) coordinate is less than its left (upper) one. *)
Definition pil_crop {image : Type} `{Imaging image} (img : image) (box : CropBox)
  : outcome image :=
  if (box_right box <? box_left box)%Z || (box_bottom box <? box_top box)%Z
  then Raise ValueError
  else Ok (crop img box).

(** [img.resize(new_size, Image.Resampling.LANCZOS)]: Pillow raises a
    [ValueError] for a size that has a side below 1.  What it does with an
    image that has no pixel is not described here: the theorems below are
    about images with pixels. *)
Definition pil_resize {image : Type} `{Imaging image} (img : image)
  (new_size : Z * Z) : outcome image :=
  if (fst new_size <? 1)%Z || (snd new_size <? 1)%Z
  then Raise ValueError
  else Ok (resize img new_size).

(** [img.save(target, format='JPEG', quality=...)] as far as the image
    decides it: Pillow raises an [OSError] for a mode the JPEG encoder cannot
    write (RGBA and P among them).  Errors of the file system are not
    described. *)
Definition pil_save_jpeg {image : Type} `{Imaging image} (img : image)
  : outcome unit :=
  if jpeg_mode img then Ok tt else Raise OSError.

(** The box handed to [img.crop] in either branch, from the size of the
    image and the size of the video. *)
Definition trim_box (video_width video_height cropped_width cropped_height : Z)
  : outcome CropBox :=
  target_ratio <- truediv (inject_Z video_width) (inject_Z video_height) ;;
  current_ratio <- truediv (inject_Z cropped_width) (inject_Z cropped_height) ;;
  if Qltb target_ratio current_ratio then
    let new_width := int_of_float (inject_Z cropped_height * target_ratio) in
    let crop_left := ((cropped_width - new_width) / 2)%Z in
    Ok (crop_left, 0, crop_left + new_width, cropped_height)%Z
  else
    q <- truediv (inject_Z cropped_width) target_ratio ;;
    let new_height := int_of_float q in
    let crop_top := ((cropped_height - new_height) / 2)%Z in
    Ok (0, crop_top, cropped_width, crop_top + new_height)%Z.

Definition _fit_to_aspect_ratio {image : Type} `{Imaging image}
  (video_width video_height : Z) (img : image) : outcome image :=
  let '(cropped_width, cropped_height) := size img in
  b <- trim_box video_width video_height cropped_width cropped_height ;;
  img <- pil_crop img b ;;
  pil_resize img (video_width, video_height).

(** The coarsest image: its size and whether the JPEG encoder can write its
    mode. *)
#[export] Instance size_only : Imaging (Z * Z * bool) := {
  size := fun img => fst img;
  jpeg_mode := fun img => snd img;
  crop := fun img b => (box_size b, snd img);
  resize := fun img s => (s, snd img)
}.

(** ** modules/audio_analyzer.py: the timeline *)

(** [sorted(set(l))]: the distinct values of [l] in increasing order. *)
Fixpoint insert_uniq (t : Q) (l : list Q) : list Q :=
  match l with
  | [] => [t]
  | u :: l' =>
      match t ?= u with
      | Lt => t :: l
      | Eq => l
      | Gt => u :: insert_uniq t l'
      end
  end.

Definition sorted_set (l : list Q) : list Q := fold_right insert_uniq [] l.

(** One turn of the filtering loop on the state
    [(filtered_timings, last_time)]. *)
Definition filter_step (min_interval : Q) (st : list Q * Q) (time : Q)
  : list Q * Q :=
  let '(filtered_timings, last_time) := st in
  if Qle_bool min_interval (time - last_time)
  then (filtered_timings ++ [time], time)
  else (filtered_timings, last_time).

(** [self.audio_config.get('min_scene_interval', 0.5)]. *)
Definition get_min_scene_interval (configured : option Q) : Q :=
  match configured with
  | Some v => v
  | None => 1 # 2
  end.

Definition _calculate_scene_timings (min_scene_interval : option Q)
  (beats onsets : list Q) (duration : Q) : list Q :=
  let all_timings := sorted_set (beats ++ onsets) in
  let min_interval := get_min_scene_interval min_scene_interval in
  let '(filtered_timings, _) :=
    fold_left (filter_step min_interval) all_timings ([], - min_interval) in
  match filtered_timings with
  | [] => 0 :: filtered_timings
  | first :: _ =>
      if Qltb (1 # 10) first then 0 :: filtered_timings else filtered_timings
  end.

(** The filtering loop read as a recursion on the remaining timings: what
    it appends to [filtered_timings] from [last_time] on.  [filter_loop_kept]
    below proves that the loop computes it. *)
Fixpoint kept (min_interval last_time : Q) (times : list Q) : list Q :=
  match times with
  | [] => []
  | time :: rest =>
      if Qle_bool min_interval (time - last_time)
      then time :: kept min_interval time rest
      else kept min_interval last_time rest
  end.

(** Two consecutive timestamps at least [min_interval] apart. *)
Definition spaced (min_interval a b : Q) : Prop := min_interval <= b - a.

(** ** modules/audio_analyzer.py: scenes on the timeline *)

Record AudioAnalysis : Type := {
  duration : Q;
  beats : list Q;
  onsets : list Q;
  scene_timings : list Q
}.

(** [(scene_index, start_time, duration)]. *)
Definition SceneAllocation : Type := (nat * Q * Q)%type.

Definition scene_index (a : SceneAllocation) : nat := fst (fst a).
Definition start_time (a : SceneAllocation) : Q := snd (fst a).
Definition scene_duration (a : SceneAllocation) : Q := snd a.

(** The warning printed when the timings are too few. *)
Inductive diagnostic : Set :=
| TimingsFewerThanScenes (timings scenes : nat).

(** [l[i]] on a Python list: a negative index counts from the end, an index
    out of range raises. *)
Definition getitem {A : Type} (l : list A) (i : Z) : outcome A :=
  let n := Z.of_nat (List.length l) in
  let j := if (i <? 0)%Z then (i + n)%Z else i in
  if (j <? 0)%Z then Raise IndexError
  else match nth_error l (Z.to_nat j) with
       | Some a => Ok a
       | None => Raise IndexError
       end.

Fixpoint mapM {A B : Type} (f : A -> outcome B) (l : list A) : outcome (list B) :=
  match l with
  | [] => Ok []
  | a :: l' => b <- f a ;; bs <- mapM f l' ;; Ok (b :: bs)
  end.

(** [y[-1] = v] on an array. *)
Definition set_last (y : list Q) (v : Q) : list Q :=
  match y with
  | [] => []
  | _ => removelast y ++ [v]
  end.

(** [numpy.linspace(start, stop, num, dtype=int)] for integers [start] and
    [stop], as numpy computes it: [arange(num) * step + start] with
    [step = (stop - start) / (num - 1)] (dividing first when the step is
    zero, and [arange(num) * (stop - start)] for fewer than two samples), the
    last sample set to [stop] when there are at least two, then the floor of
    every sample. *)
Definition linspace_int (start stop : Z) (num : nat) : list Z :=
  let div := (Z.of_nat num - 1)%Z in
  let delta := inject_Z (stop - start) in
  let y := map (fun i => inject_Z (Z.of_nat i)) (seq 0 num) in
  let y :=
    if (0 <? div)%Z then
      let step := delta / inject_Z div in
      if Qeq_bool step 0
      then map (fun v => v / inject_Z div * delta) y
      else map (fun v => v * step) y
    else map (fun v => v * delta) y in
  let y := map (fun v => v + inject_Z start) y in
  let y := if (1 <? Z.of_nat num)%Z then set_last y (inject_Z stop) else y in
  map Qfloor y.

(** The even split, written twice in the source. *)
Definition split_evenly (num_scenes : nat) (duration : Q)
  : outcome (list SceneAllocation) :=
  scene_duration <- truediv duration (inject_Z (Z.of_nat num_scenes)) ;;
  Ok (map (fun i => (i, inject_Z (Z.of_nat i) * scene_duration, scene_duration))
          (seq 0 num_scenes)).

(** The body of the final loop for scene [i]. *)
Definition allocate_scene (num_scenes : nat) (selected_timings : list Q)
  (duration : Q) (i : nat) : outcome SceneAllocation :=
  start_time <- getitem selected_timings (Z.of_nat i) ;;
  end_time <-
    (if (Z.of_nat i <? Z.of_nat num_scenes - 1)%Z
     then getitem selected_timings (Z.of_nat i + 1)
     else Ok duration) ;;
  let scene_duration := end_time - start_time in
  Ok (i, start_time, scene_duration).

(** The [elif]/[else] branches that choose [timings] when the strategy is
    not "evenly". *)
Definition chosen_timings (audio_analysis : AudioAnalysis) (strategy : string)
  : list Q :=
  if String.eqb strategy "beats" then beats audio_analysis
  else if String.eqb strategy "onsets" then onsets audio_analysis
  else scene_timings audio_analysis.

(** The index [numpy.linspace(0, len - 1, num, dtype=int)] holds at position
    [i], in closed form: the floor of [i * (len - 1) / (num - 1)], and 0 for
    a single sample.  [linspace_int_closed] below proves it. *)
Definition sample_index (len num i : nat) : Z :=
  if (num <=? 1)%nat then 0%Z
  else (Z.of_nat i * (Z.of_nat len - 1) / (Z.of_nat num - 1))%Z.


(** The timestamp selected for scene [i], and the allocation the final loop
    builds from the selected timestamps, in closed form.
    [distribute_sampled] below proves that the sampling branch returns
    these. *)
Definition selected_timing (timings : list Q) (num_scenes i : nat) : Q :=
  nth (Z.to_nat (sample_index (List.length timings) num_scenes i)) timings 0.

Definition sampled_allocation (timings : list Q) (num_scenes : nat)
  (duration : Q) (i : nat) : SceneAllocation :=
  let start_time := selected_timing timings num_scenes i in
  let end_time :=
    if (S i <? num_scenes)%nat
    then selected_timing timings num_scenes (S i)
    else duration in
  (i, start_time, end_time - start_time).

Definition even_allocation (num_scenes : nat) (duration : Q) (i : nat)
  : SceneAllocation :=
  (i, inject_Z (Z.of_nat i) * (duration / inject_Z (Z.of_nat num_scenes)),
   duration / inject_Z (Z.of_nat num_scenes)).

Definition distribute_scenes_to_timings (num_scenes : nat)
  (audio_analysis : AudioAnalysis) (strategy : string)
  : outcome (list diagnostic * list SceneAllocation) :=
  let scene_timings := scene_timings audio_analysis in
  let duration := duration audio_analysis in
  if String.eqb strategy "evenly" then
    result <- split_evenly num_scenes duration ;;
    Ok ([], result)
  else
    let timings := chosen_timings audio_analysis strategy in
    if (List.length timings <? num_scenes)%nat then
      result <- split_evenly num_scenes duration ;;
      Ok ([TimingsFewerThanScenes (List.length timings) num_scenes], result)
    else
      let selected_indices :=
        linspace_int 0 (Z.of_nat (List.length timings) - 1) num_scenes in
      selected_timings <- mapM (getitem timings) selected_indices ;;
      result <- mapM (allocate_scene num_scenes selected_timings duration)
                     (seq 0 num_scenes) ;;
      Ok ([], result).

(** Two analyses to run the distribution on: beats at 0.5 and 1.5, and
    beats at 1.0 and 2.0, each in an audio of 2.0 seconds, with the scene
    timings [_calculate_scene_timings] derives from them. *)
Definition two_beats : AudioAnalysis :=
  {| duration := 2;
     beats := [1 # 2; 3 # 2];
     onsets := [];
     scene_timings := [0; 1 # 2; 3 # 2] |}.

Definition beat_at_the_end : AudioAnalysis :=
  {| duration := 2;
     beats := [1; 2];
     onsets := [];
     scene_timings := [0; 1; 2] |}.

(** The sum of the durations of a list of allocations. *)
Definition total_of (result : list SceneAllocation) : Q :=
  fold_right (fun a acc => scene_duration a + acc) 0 result.

(** ** modules/utils.py: fitting a size into a target size *)

Definition calculate_aspect_ratio_fit (source_size target_size : Z * Z)
  : outcome (Z * Z) :=
  let '(source_width, source_height) := source_size in
  let '(target_width, target_height) := target_size in
  source_ratio <- truediv (inject_Z source_width) (inject_Z source_height) ;;
  target_ratio <- truediv (inject_Z target_width) (inject_Z target_height) ;;
  if Qltb target_ratio source_ratio then
    let new_width := target_width in
    q <- truediv (inject_Z target_width) source_ratio ;;
    let new_height := int_of_float q in
    Ok (new_width, new_height)
  else
    let new_height := target_height in
    let new_width := int_of_float (inject_Z target_height * source_ratio) in
    Ok (new_width, new_height).

(** ** modules/constants.py *)

Definition DEFAULT_FINAL_SCENE_DURATION : Q := 5.
Definition DEFAULT_MUSEUM_PADDING : Z := 200.
Definition DEFAULT_MUSEUM_TEXT_HEIGHT : Z := 550.

(** ** modules/image_processor.py: the museum view *)

Definition _calculate_museum_image_size (video_width video_height : Z)
  (img_size : Z * Z) : outcome (Z * Z) :=
  let '(img_width, img_height) := img_size in
  img_ratio <- truediv (inject_Z img_width) (inject_Z img_height) ;;
  let max_width := (video_width - DEFAULT_MUSEUM_PADDING)%Z in
  let max_height := (video_height - DEFAULT_MUSEUM_TEXT_HEIGHT)%Z in
  max_ratio <- truediv (inject_Z max_width) (inject_Z max_height) ;;
  if Qltb max_ratio img_ratio then
    let new_width := max_width in
    q <- truediv (inject_Z max_width) img_ratio ;;
    let new_height := int_of_float q in
    Ok (new_width, new_height)
  else
    let new_height := max_height in
    let new_width := int_of_float (inject_Z max_height * img_ratio) in
    Ok (new_width, new_height).

Definition _calculate_museum_image_position (video_width video_height : Z)
  (img_size : Z * Z) : Z * Z :=
  let '(new_width, new_height) := img_size in
  let x := ((video_width - new_width) / 2)%Z in
  let y := ((video_height - new_height - DEFAULT_MUSEUM_TEXT_HEIGHT) / 2)%Z in
  (x, y).

(** ** modules/audio_analyzer.py: the analysis handed to the distribution *)

(** The dictionary [analyze] returns, from what librosa measured: the
    duration, the beats and the onsets, and the scene timings computed from
    them.  Its "tempo" and "sr" entries, which no function here reads, are not
    part of [AudioAnalysis]. *)
Definition analysis_result (min_scene_interval : option Q) (duration : Q)
  (beats onsets : list Q) : AudioAnalysis :=
  let scene_timings :=
    _calculate_scene_timings min_scene_interval beats onsets duration in
  {| duration := duration;
     beats := beats;
     onsets := onsets;
     scene_timings := scene_timings |}.

(** ** Strings and loops *)

(** A Python [str]: the list of its code points. *)
Definition pystr : Type := list N.

(** A [for] loop whose body can raise, on the state it updates. *)
Fixpoint foldM {A S : Type} (body : S -> A -> outcome S) (l : list A) (s : S)
  : outcome S :=
  match l with
  | [] => Ok s
  | a :: l' => s' <- body s a ;; foldM body l' s'
  end.

(** [enumerate(l)]. *)
Definition enumerate {A : Type} (l : list A) : list (nat * A) :=
  combine (seq 0 (List.length l)) l.

(** [c.isspace()]: the code points Python takes for white space. *)
Definition py_isspace (c : N) : bool :=
  ((9 <=? c) && (c <=? 13) || (28 <=? c) && (c <=? 32)
   || (c =? 133) || (c =? 160) || (c =? 5760)
   || (8192 <=? c) && (c <=? 8202) || (c =? 8232) || (c =? 8233)
   || (c =? 8239) || (c =? 8287) || (c =? 12288))%N.

(** [s.replace(old, new)] for strings [old] and [new] of one character. *)
Definition replace_char (old new : N) (s : pystr) : pystr :=
  map (fun c => if (c =? old)%N then new else c) s.

(** [s.split()]: the maximal runs without white space.  [word] is the run
    being read. *)
Fixpoint split_from (word s : pystr) : list pystr :=
  match s with
  | [] => match word with [] => [] | _ => [word] end
  | c :: s' =>
      if py_isspace c
      then match word with
           | [] => split_from [] s'
           | _ => word :: split_from [] s'
           end
      else split_from (word ++ [c]) s'
  end.

Definition py_split (s : pystr) : list pystr := split_from [] s.

(** [sep.join(l)]. *)
Fixpoint join (sep : pystr) (l : list pystr) : pystr :=
  match l with
  | [] => []
  | [w] => w
  | w :: l' => w ++ sep ++ join sep l'
  end.

(** ** modules/utils.py: [wrap_text] *)

(** One turn of the loop on the state [(lines, current_line)].
    [text_width line] is the width [bbox[2] - bbox[0]] of
    [draw.textbbox((0, 0), line, font=font, stroke_width=stroke_width)]. *)
Definition wrap_step (text_width : pystr -> Z) (max_width : Z)
  (st : list pystr * list pystr) (word : pystr) : list pystr * list pystr :=
  let '(lines, current_line) := st in
  let current_line := current_line ++ [word] in
  let test_line := join [32%N] current_line in
  let width := text_width test_line in
  if (max_width <? width)%Z then
    if (1 <? List.length current_line)%nat then
      let current_line := removelast current_line in
      (lines ++ [join [32%N] current_line], [word])
    else
      (lines ++ [word], [])
  else (lines, current_line).

Definition wrap_text (text : pystr) (text_width : pystr -> Z) (max_width : Z)
  : list pystr :=
  let text := replace_char 95 32 text in
  let words := py_split text in
  let '(lines, current_line) :=
    fold_left (wrap_step text_width max_width) words ([], []) in
  match current_line with
  | [] => lines
  | _ => lines ++ [join [32%N] current_line]
  end.

(** Why a line ends after the words of [line] when the next word is
    [next]: with the next word the line is too wide, or the line is a single
    word that is too wide by itself. *)
Definition break_justified (text_width : pystr -> Z) (max_width : Z)
  (line : list pystr) (next : pystr) : Prop :=
  (max_width < text_width (join [32%N] (line ++ [next])))%Z \/
  (exists word, line = [word] /\ (max_width < text_width word)%Z).

Fixpoint breaks_justified (text_width : pystr -> Z) (max_width : Z)
  (lines : list (list pystr)) : Prop :=
  match lines with
  | [] => True
  | line :: rest =>
      match rest with
      | (next :: _) :: _ => break_justified text_width max_width line next
      | _ => True
      end /\ breaks_justified text_width max_width rest
  end.

(** What the loop of [wrap_text] keeps true of the lines it has closed, as
    lists of words, and of the line it is filling. *)
Definition wrap_invariant (text_width : pystr -> Z) (max_width : Z)
  (lines : list (list pystr)) (current_line : list pystr) : Prop :=
  Forall (fun line => line <> []) lines /\
  Forall (fun line => (2 <= List.length line)%nat ->
                      (text_width (join [32%N] line) <= max_width)%Z) lines /\
  ((2 <= List.length current_line)%nat ->
   (text_width (join [32%N] current_line) <= max_width)%Z) /\
  breaks_justified text_width max_width lines /\
  (forall earlier line, lines = earlier ++ [line] ->
     match current_line with
     | next :: _ => break_justified text_width max_width line next
     | [] => exists word, line = [word] /\ (max_width < text_width word)%Z
     end).

(** ** modules/subtitle_maker.py: drawing the subtitle *)

(** A call [draw.text((x, y), line, font=font, ...)]: where the line is
    drawn, the line, and the stroke width when the call passes one.  The
    fill colours, constants of the configuration, are not kept. *)
Record TextCall : Type := {
  call_x : Z;
  call_y : Z;
  call_line : pystr;
  call_stroke : option Z
}.

(** The calls of [_draw_text] on an image of the given size, for the
    subtitle font of size [font_size] and the stroke width [stroke_width];
    [text_width] measures a line in that font with that stroke width. *)
Definition _draw_text (font_size stroke_width : Z) (text_width : pystr -> Z)
  (img_width img_height : Z) (text : pystr) : list TextCall :=
  let max_width := (img_width - 100)%Z in
  let lines := wrap_text text text_width max_width in
  let line_height := (font_size + 10)%Z in
  let total_height := (Z.of_nat (List.length lines) * line_height)%Z in
  let start_y := ((img_height - total_height) / 2)%Z in
  map (fun entry : nat * pystr =>
         let '(j, line) := entry in
         let text_width := text_width line in
         let x := ((img_width - text_width) / 2)%Z in
         let y := (start_y + Z.of_nat j * line_height)%Z in
         {| call_x := x; call_y := y; call_line := line;
            call_stroke :=
              if (0 <? stroke_width)%Z then Some stroke_width else None |})
      (enumerate lines).

(** The calls [shadow_draw.text((x, y), line, font=font, fill=shadow_color)]
    of [_add_blurred_shadow] on the shadow layer, which has the size of the
    image.  The lines are wrapped with [text_width], the measure with the
    stroke, and centred with [plain_width], the measure without it;
    [shadow_offset] is the pair of [shadow_offset[0]] and
    [shadow_offset[1]]. *)
Definition _add_blurred_shadow (font_size : Z) (shadow_offset : Z * Z)
  (text_width plain_width : pystr -> Z) (img_width img_height : Z)
  (text : pystr) : list TextCall :=
  let max_width := (img_width - 100)%Z in
  let lines := wrap_text text text_width max_width in
  let line_height := (font_size + 10)%Z in
  let total_height := (Z.of_nat (List.length lines) * line_height)%Z in
  let start_y := ((img_height - total_height) / 2)%Z in
  map (fun entry : nat * pystr =>
         let '(j, line) := entry in
         let text_width := plain_width line in
         let x := ((img_width - text_width) / 2 + fst shadow_offset)%Z in
         let y := (start_y + Z.of_nat j * line_height + snd shadow_offset)%Z in
         {| call_x := x; call_y := y; call_line := line; call_stroke := None |})
      (enumerate lines).

(** [_add_subtitle_to_image]: the calls on the shadow layer, none without a
    blur radius, and the calls on the image. *)
Definition _add_subtitle_to_image (font_size stroke_width : Z)
  (shadow_offset : Z * Z) (shadow_blur_radius : Z)
  (text_width plain_width : pystr -> Z) (img_width img_height : Z)
  (text : pystr) : list TextCall * list TextCall :=
  let shadow :=
    if (0 <? shadow_blur_radius)%Z
    then _add_blurred_shadow font_size shadow_offset text_width plain_width
                             img_width img_height text
    else [] in
  (shadow,
   _draw_text font_size stroke_width text_width img_width img_height text).

(** ** modules/image_processor.py: the text of the museum view *)

(** A call [draw.text((line_x, start_y), line, font=font, fill=color)] of
    [_draw_artwork_info]: the position, the line, and whether it is drawn
    with the title font (in white) or the information font (in grey). *)
Record InfoCall : Type := {
  info_x : Z;
  info_y : Z;
  info_line : pystr;
  info_title : bool
}.

(** The inner loop: the wrapped lines of one entry, from [start_y] on. *)
Fixpoint draw_info_lines (video_width : Z) (text_width : pystr -> Z)
  (title : bool) (line_spacing : Z) (wrapped_lines : list pystr) (start_y : Z)
  : list InfoCall * Z :=
  match wrapped_lines with
  | [] => ([], start_y)
  | line :: rest =>
      let line_width := text_width line in
      let line_x := ((video_width - line_width) / 2)%Z in
      let call := {| info_x := line_x; info_y := start_y; info_line := line;
                     info_title := title |} in
      let start_y := (start_y + line_spacing)%Z in
      let '(calls, start_y) :=
        draw_info_lines video_width text_width title line_spacing rest start_y in
      (call :: calls, start_y)
  end.

(** The outer loop over [enumerate(artwork_info)], from entry [i] on. *)
Fixpoint draw_info_entries (video_width : Z)
  (title_width info_width : pystr -> Z) (i : nat) (artwork_info : list pystr)
  (start_y : Z) : list InfoCall :=
  match artwork_info with
  | [] => []
  | info_line :: rest =>
      let title := (i =? 0)%nat in
      let text_width := if title then title_width else info_width in
      let line_spacing := if title then 70%Z else 55%Z in
      let max_text_width := (video_width - DEFAULT_MUSEUM_PADDING)%Z in
      let wrapped_lines := wrap_text info_line text_width max_text_width in
      let '(calls, start_y) :=
        draw_info_lines video_width text_width title line_spacing
                        wrapped_lines start_y in
      calls ++ draw_info_entries video_width title_width info_width (S i)
                                 rest start_y
  end.

(** [title_width] and [info_width] measure a line in the title font and in
    the information font. *)
Definition _draw_artwork_info (video_width video_height : Z)
  (title_width info_width : pystr -> Z) (artwork_info : list pystr)
  : list InfoCall :=
  let start_y := (video_height - 480)%Z in
  draw_info_entries video_width title_width info_width 0 artwork_info start_y.

(** ** modules/utils.py: [format_file_size] *)

(** The loop over the units that are left.  [format_2f v] is the text of
    [f"{v:.2f}"]. *)
Fixpoint format_size_loop (format_2f : Q -> string) (units : list string)
  (size_bytes : Q) : string :=
  match units with
  | [] => (format_2f size_bytes ++ "TB")%string
  | unit :: rest =>
      if Qltb size_bytes 1024
      then (format_2f size_bytes ++ unit)%string
      else format_size_loop format_2f rest (size_bytes / 1024)
  end.

Definition format_file_size (format_2f : Q -> string) (size_bytes : Z) : string :=
  format_size_loop format_2f ["B"; "KB"; "MB"; "GB"]%string (inject_Z size_bytes).

(** ** main.py: [load_scenes] *)

(** [s.lstrip()], [s.rstrip()] and [s.strip()]. *)
Fixpoint py_lstrip (s : pystr) : pystr :=
  match s with
  | [] => []
  | c :: s' => if py_isspace c then py_lstrip s' else s
  end.

Definition py_rstrip (s : pystr) : pystr := rev (py_lstrip (rev s)).

Definition py_strip (s : pystr) : pystr := py_rstrip (py_lstrip s).

(** What [load_scenes] does with the lines of the file: the scenes, or the
    [ValueError] of a file without a scene. *)
Inductive scenes_outcome : Type :=
| Scenes (scenes : list pystr)
| RaiseValueError.

Definition load_scenes (file_lines : list pystr) : scenes_outcome :=
  let scenes :=
    map py_strip
        (filter (fun line => match py_strip line with [] => false | _ => true end)
                file_lines) in
  match scenes with
  | [] => RaiseValueError
  | _ => Scenes scenes
  end.

(** ** modules/claude_analyzer.py *)

Definition CLAUDE_MAX_IMAGE_SIZE_MB : Z := 5.

(** [len(base64.b64encode(data))] from [len(data)]: four characters for
    every three bytes, the last group padded. *)
Definition b64encode_len (size : Z) : Z := (4 * ((size + 2) / 3))%Z.

(** The size of the first resize: [None] when neither side of the image is
    above [max_dimension] and the image is left as it is. *)
Definition initial_size (max_dimension width height : Z)
  : outcome (option (Z * Z)) :=
  if (max_dimension <? width)%Z || (max_dimension <? height)%Z then
    if (height <? width)%Z then
      scale <- truediv (inject_Z max_dimension) (inject_Z width) ;;
      let new_width := max_dimension in
      let new_height := int_of_float (inject_Z height * scale) in
      Ok (Some (new_width, new_height))
    else
      scale <- truediv (inject_Z max_dimension) (inject_Z height) ;;
      let new_height := max_dimension in
      let new_width := int_of_float (inject_Z width * scale) in
      Ok (Some (new_width, new_height))
  else Ok None.

Section ResizeUnderLimit.

Context {image : Type} `{Imaging image}.

(** [img.convert('RGB')] of an image in mode RGBA, the image itself in any
    other mode. *)
Variable to_rgb : image -> image.

(** The number of bytes [img.save(buffer, format='JPEG', quality=quality)]
    writes. *)
Variable jpeg_len : image -> Z -> Z.

Variables max_dimension min_dimension : Z.

(** One round of the [while True] loop after an encoding that was too large:
    the quality is lowered by 5 down to 40, then the image is resized to 85%
    of its sides and the quality goes back to 85. *)
Definition shrink_step (img : image) (width height quality : Z)
  : outcome (image * Z * Z * Z) :=
  if (40 <? quality)%Z then Ok (img, width, height, (quality - 5)%Z)
  else
    let width := int_of_float (inject_Z width * (85 # 100)) in
    let height := int_of_float (inject_Z height * (85 # 100)) in
    img <- pil_resize img (width, height) ;;
    Ok (img, width, height, 85%Z).

(** The [while True] loop; [None] when the fuel runs out.  The string the
    function returns is the base64 text of the JPEG bytes of the returned
    image saved at the returned quality. *)
Fixpoint encode_loop (fuel : nat) (img : image) (width height quality : Z)
  : option (outcome (image * Z)) :=
  match fuel with
  | O => None
  | S fuel =>
      match pil_save_jpeg img with
      | Raise e => Some (Raise e)
      | Ok _ =>
          let size := jpeg_len img quality in
          let encoded_size := b64encode_len size in
          let max_size_bytes := (CLAUDE_MAX_IMAGE_SIZE_MB * 1000000)%Z in
          if (encoded_size <=? max_size_bytes)%Z then Some (Ok (img, quality))
          else
            match shrink_step img width height quality with
            | Raise e => Some (Raise e)
            | Ok (img, width, height, quality) =>
                if (width <? min_dimension)%Z || (height <? min_dimension)%Z
                then Some (Raise Exception)
                else encode_loop fuel img width height quality
            end
      end
  end.

Definition resize_image_under_limit (fuel : nat) (img : image)
  : option (outcome (image * Z)) :=
  let img := to_rgb img in
  let '(width, height) := size img in
  let quality := 85%Z in
  match initial_size max_dimension width height with
  | Raise e => Some (Raise e)
  | Ok None => encode_loop fuel img width height quality
  | Ok (Some (new_width, new_height)) =>
      match pil_resize img (new_width, new_height) with
      | Raise e => Some (Raise e)
      | Ok img => encode_loop fuel img new_width new_height quality
      end
  end.

End ResizeUnderLimit.

(** ** modules/video_maker.py *)

(** [round(v, 1)] on a float: the nearest multiple of 0.1, a tie going to the
    even tenth. *)
Definition round_half_even (v : Q) : Z :=
  let f := Qfloor v in
  match Qcompare (v - inject_Z f) (1 # 2) with
  | Lt => f
  | Gt => (f + 1)%Z
  | Eq => if Z.even f then f else (f + 1)%Z
  end.

Definition round_1 (v : Q) : Q := inject_Z (round_half_even (v * 10)) / 10.

(** The fields [__init__] reads from the "video" section of the
    configuration, [base_duration] and [duration_per_char] with their
    defaults. *)
Record VideoMaker : Type := {
  fps : Z;
  base_duration : Q;
  duration_per_char : Q
}.

Definition new_video_maker (config_fps : Z)
  (config_base_duration config_duration_per_char : option Q) : VideoMaker :=
  {| fps := config_fps;
     base_duration :=
       match config_base_duration with Some v => v | None => 3 # 2 end;
     duration_per_char :=
       match config_duration_per_char with Some v => v | None => 8 # 100 end |}.

Definition calculate_duration (self : VideoMaker) (text : pystr) : Q :=
  let char_count := List.length text in
  let duration :=
    base_duration self
    + inject_Z (Z.of_nat char_count) * duration_per_char self in
  round_1 duration.

(** [ImageClip(str(img_path), duration=duration)]: what the clip is made
    of. *)
Definition ImageClip (path : Type) : Type := (path * Q)%type.

Definition clip_duration {path : Type} (clip : ImageClip path) : Q := snd clip.

(** [texts and i < len(texts) and texts[i] is not None], with the text when
    it holds. *)
Definition text_of_scene (texts : list (option pystr)) (i : nat) : option pystr :=
  match texts with
  | [] => None
  | _ => if (i <? List.length texts)%nat then nth i texts None else None
  end.

(** The duration chosen for image [i]: "텍스트가 있으면 길이 기반 계산,
    없으면 기본값". *)
Definition scene_text_duration (self : VideoMaker)
  (texts : list (option pystr)) (i : nat) : Q :=
  match text_of_scene texts i with
  | Some text => calculate_duration self text
  | None => DEFAULT_FINAL_SCENE_DURATION
  end.

(** One turn of the loop of [_create_image_clips] on the state
    [(clips, total_duration)]. *)
Definition text_clip_step {path : Type} (self : VideoMaker)
  (texts : list (option pystr)) (st : list (ImageClip path) * Q)
  (entry : nat * path) : list (ImageClip path) * Q :=
  let '(clips, total_duration) := st in
  let '(i, img_path) := entry in
  let duration := scene_text_duration self texts i in
  (clips ++ [(img_path, duration)], total_duration + duration).

(** The lines the two functions print for each clip are not kept; the
    warning of a scene without an image is. *)
Definition _create_image_clips {path : Type} (self : VideoMaker)
  (image_files : list path) (texts : list (option pystr))
  : list (ImageClip path) * Q :=
  fold_left (text_clip_step self texts) (enumerate image_files) ([], 0).

Inductive clip_warning : Set :=
| SceneExceedsImages (scene_idx : nat).

Definition _create_image_clips_with_timings {path : Type}
  (image_files : list path) (texts : list (option pystr))
  (scene_timings : list SceneAllocation)
  : outcome (list (ImageClip path) * Q * list clip_warning) :=
  foldM
    (fun (st : list (ImageClip path) * Q * list clip_warning)
         (timing : SceneAllocation) =>
       let '(clips, total_duration, warnings) := st in
       let '(scene_idx, start_time, duration) := timing in
       if (List.length image_files <=? scene_idx)%nat then
         Ok (clips, total_duration, warnings ++ [SceneExceedsImages scene_idx])
       else
         img_path <- getitem image_files (Z.of_nat scene_idx) ;;
         Ok (clips ++ [(img_path, duration)], total_duration + duration,
             warnings))
    scene_timings ([], 0, []).

(** The clips [create_video] builds: from the timings when there are some,
    from the lengths of the texts otherwise. *)
Definition create_video_clips {path : Type} (self : VideoMaker)
  (image_files : list path) (texts : list (option pystr))
  (scene_timings : option (list SceneAllocation))
  : outcome (list (ImageClip path) * Q * list clip_warning) :=
  match scene_timings with
  | Some ((_ :: _) as timings) =>
      _create_image_clips_with_timings image_files texts timings
  | _ =>
      let '(clips, total_duration) :=
        _create_image_clips self image_files texts in
      Ok (clips, total_duration, [])
  end.

(** The sum of the durations of a list of clips. *)
Definition clips_duration {path : Type} (clips : list (ImageClip path)) : Q :=
  fold_right (fun clip acc => clip_duration clip + acc) 0 clips.

(** The clips and the warnings of [_create_image_clips_with_timings] in
    closed form: a clip for every timing whose scene has an image, a warning
    for every other one.  [timed_clips_fold] below proves that the loop
    computes them. *)
Definition clips_of_timings {path : Type} (image_files : list path)
  (scene_timings : list SceneAllocation) : list (ImageClip path) :=
  flat_map (fun timing : SceneAllocation =>
              match nth_error image_files (scene_index timing) with
              | Some img_path => [(img_path, scene_duration timing)]
              | None => []
              end)
           scene_timings.

Definition warnings_of_timings {path : Type} (image_files : list path)
  (scene_timings : list SceneAllocation) : list clip_warning :=
  flat_map (fun timing : SceneAllocation =>
              if (List.length image_files <=? scene_index timing)%nat
              then [SceneExceedsImages (scene_index timing)]
              else [])
           scene_timings.

(** ** modules/image_processor.py: the zoomed images *)

(** One entry of [coordinates]: the values under the keys "scene", "x",
    "y", "zoom" and "text". *)
Record Coordinate : Type := {
  coord_scene : Z;
  coord_x : Q;
  coord_y : Q;
  coord_zoom : Q;
  coord_text : pystr
}.

(** The body of the loop: the image saved for one coordinate, as
    "scene_NN.jpg" with the quality of the configuration. *)
Definition zoomed_image {image : Type} `{Imaging image}
  (video_width video_height : Z) (img : image) (coord : Coordinate)
  : outcome image :=
  let '(width, height) := size img in
  crop_box <- _calculate_crop_box width height (coord_x coord) (coord_y coord)
                                  (coord_zoom coord) ;;
  cropped <- pil_crop img crop_box ;;
  final <- _fit_to_aspect_ratio video_width video_height cropped ;;
  _ <- pil_save_jpeg final ;;
  Ok final.

(** The files [generate_zoomed_images] saves, in the order it saves them:
    the scene number, which names the file ("scene_NN.jpg"), and the image
    written to it. *)
Definition generate_zoomed_images {image : Type} `{Imaging image}
  (video_width video_height : Z) (img : image) (coordinates : list Coordinate)
  : outcome (list (Z * image)) :=
  foldM (fun generated_files coord =>
           final <- zoomed_image video_width video_height img coord ;;
           Ok (generated_files ++ [(coord_scene coord, final)]))
        coordinates [].

(** ** The same functions on binary64 *)

(** The definitions above read every float operation as the operation on
    the reals.  This module writes the numeric functions once more on
    Rocq's primitive binary64 floats, operation by operation in the order
    of the source, so that they can be run on concrete inputs.  An integer
    operand is converted to a float first, which is what Python does when
    the other operand is a float and, for integers below 2^53, gives the
    quotient Python computes for two integers. *)
Module Binary64.

Definition float : Set := PrimFloat.float.

(** [float(n)] of an integer: the nearest float, ties to even. *)
Definition of_int (n : Z) : float :=
  FloatOps.SF2Prim
    (SpecFloat.binary_normalize FloatOps.prec FloatOps.emax n 0 false).

(** The decimal literal [n / 10^k], for integers that are floats: the
    quotient is rounded once, as the literal is. *)
Definition decimal (n : Z) (k : nat) : float :=
  PrimFloat.div (of_int n) (of_int (10 ^ Z.of_nat k)).

(** The rational a finite float stands for. *)
Definition to_Q (v : float) : Q :=
  match FloatOps.Prim2SF v with
  | SpecFloat.S754_finite s m e =>
      let magnitude :=
        if (0 <=? e)%Z then inject_Z (Z.pos m * 2 ^ e)
        else Z.pos m # Z.to_pos (2 ^ (- e)) in
      if s then - magnitude else magnitude
  | _ => 0
  end.

(** [a / b]: raises on a zero divisor. *)
Definition truediv (a b : float) : outcome float :=
  if PrimFloat.eqb b PrimFloat.zero then Raise ZeroDivisionError
  else Ok (PrimFloat.div a b).

(** [int(v)]: truncation toward zero; raises on an infinity and on a NaN. *)
Definition int_of_float (v : float) : outcome Z :=
  match FloatOps.Prim2SF v with
  | SpecFloat.S754_zero _ => Ok 0%Z
  | SpecFloat.S754_finite s m e =>
      let magnitude :=
        if (0 <=? e)%Z then (Z.pos m * 2 ^ e)%Z
        else (Z.pos m / 2 ^ (- e))%Z in
      Ok (if s then (- magnitude)%Z else magnitude)
  | SpecFloat.S754_infinity _ => Raise OverflowError
  | SpecFloat.S754_nan => Raise ValueError
  end.

(** [numpy.floor] followed by the conversion to [int], on a finite float. *)
Definition floor (v : float) : Z := Qfloor (to_Q v).

Definition py_min (a b : float) : float := if PrimFloat.ltb b a then b else a.
Definition py_max (a b : float) : float := if PrimFloat.ltb a b then b else a.

Definition clamp (value min_value max_value : float) : float :=
  py_max min_value (py_min max_value value).

(** [sum(values)]: the additions from left to right, starting from 0. *)
Definition py_sum (values : list float) : float :=
  fold_left PrimFloat.add values PrimFloat.zero.

(** *** modules/image_processor.py *)

Definition _calculate_crop_box (img_width img_height : Z) (x y zoom : float)
  : outcome CropBox :=
  let width := of_int img_width in
  let height := of_int img_height in
  let two := of_int 2 in
  crop_width <- truediv width zoom ;;
  crop_height <- truediv height zoom ;;
  let center_x := PrimFloat.mul width x in
  let center_y := PrimFloat.mul height y in
  let left_ := PrimFloat.sub center_x (PrimFloat.div crop_width two) in
  let top_ := PrimFloat.sub center_y (PrimFloat.div crop_height two) in
  let right_ := PrimFloat.add center_x (PrimFloat.div crop_width two) in
  let bottom_ := PrimFloat.add center_y (PrimFloat.div crop_height two) in
  let '(left_, right_) :=
    if PrimFloat.ltb left_ PrimFloat.zero
    then (PrimFloat.zero, PrimFloat.sub right_ left_) else (left_, right_) in
  let '(top_, bottom_) :=
    if PrimFloat.ltb top_ PrimFloat.zero
    then (PrimFloat.zero, PrimFloat.sub bottom_ top_) else (top_, bottom_) in
  let '(left_, right_) :=
    if PrimFloat.ltb width right_
    then (PrimFloat.sub left_ (PrimFloat.sub right_ width), width)
    else (left_, right_) in
  let '(top_, bottom_) :=
    if PrimFloat.ltb height bottom_
    then (PrimFloat.sub top_ (PrimFloat.sub bottom_ height), height)
    else (top_, bottom_) in
  left_ <- int_of_float (clamp left_ PrimFloat.zero width) ;;
  top_ <- int_of_float (clamp top_ PrimFloat.zero height) ;;
  right_ <- int_of_float (clamp right_ PrimFloat.zero width) ;;
  bottom_ <- int_of_float (clamp bottom_ PrimFloat.zero height) ;;
  Ok (left_, top_, right_, bottom_).

(** The box [_fit_to_aspect_ratio] crops to. *)
Definition trim_box (video_width video_height cropped_width cropped_height : Z)
  : outcome CropBox :=
  target_ratio <- truediv (of_int video_width) (of_int video_height) ;;
  current_ratio <- truediv (of_int cropped_width) (of_int cropped_height) ;;
  if PrimFloat.ltb target_ratio current_ratio then
    new_width <- int_of_float (PrimFloat.mul (of_int cropped_height) target_ratio) ;;
    let crop_left := ((cropped_width - new_width) / 2)%Z in
    Ok (crop_left, 0%Z, (crop_left + new_width)%Z, cropped_height)
  else
    q <- truediv (of_int cropped_width) target_ratio ;;
    new_height <- int_of_float q ;;
    let crop_top := ((cropped_height - new_height) / 2)%Z in
    Ok (0%Z, crop_top, cropped_width, (crop_top + new_height)%Z).

(** *** modules/utils.py *)

Definition calculate_aspect_ratio_fit (source_size target_size : Z * Z)
  : outcome (Z * Z) :=
  let '(source_width, source_height) := source_size in
  let '(target_width, target_height) := target_size in
  source_ratio <- truediv (of_int source_width) (of_int source_height) ;;
  target_ratio <- truediv (of_int target_width) (of_int target_height) ;;
  if PrimFloat.ltb target_ratio source_ratio then
    let new_width := target_width in
    q <- truediv (of_int target_width) source_ratio ;;
    new_height <- int_of_float q ;;
    Ok (new_width, new_height)
  else
    let new_height := target_height in
    new_width <- int_of_float (PrimFloat.mul (of_int target_height) source_ratio) ;;
    Ok (new_width, new_height).

(** *** modules/claude_analyzer.py *)

Definition initial_size (max_dimension width height : Z)
  : outcome (option (Z * Z)) :=
  if (max_dimension <? width)%Z || (max_dimension <? height)%Z then
    if (height <? width)%Z then
      scale <- truediv (of_int max_dimension) (of_int width) ;;
      let new_width := max_dimension in
      new_height <- int_of_float (PrimFloat.mul (of_int height) scale) ;;
      Ok (Some (new_width, new_height))
    else
      scale <- truediv (of_int max_dimension) (of_int height) ;;
      let new_height := max_dimension in
      new_width <- int_of_float (PrimFloat.mul (of_int width) scale) ;;
      Ok (Some (new_width, new_height))
  else Ok None.

(** *** modules/audio_analyzer.py *)

Fixpoint insert_uniq (t : float) (l : list float) : list float :=
  match l with
  | [] => [t]
  | u :: l' =>
      if PrimFloat.ltb t u then t :: l
      else if PrimFloat.eqb t u then l
      else u :: insert_uniq t l'
  end.

Definition sorted_set (l : list float) : list float :=
  fold_right insert_uniq [] l.

Definition filter_step (min_interval : float) (st : list float * float)
  (time : float) : list float * float :=
  let '(filtered_timings, last_time) := st in
  if PrimFloat.leb min_interval (PrimFloat.sub time last_time)
  then (filtered_timings ++ [time], time)
  else (filtered_timings, last_time).

Definition get_min_scene_interval (configured : option float) : float :=
  match configured with
  | Some v => v
  | None => decimal 5 1
  end.

Definition _calculate_scene_timings (min_scene_interval : option float)
  (beats onsets : list float) (duration : float) : list float :=
  let all_timings := sorted_set (beats ++ onsets) in
  let min_interval := get_min_scene_interval min_scene_interval in
  let '(filtered_timings, _) :=
    fold_left (filter_step min_interval) all_timings
              ([], PrimFloat.opp min_interval) in
  match filtered_timings with
  | [] => PrimFloat.zero :: filtered_timings
  | first :: _ =>
      if PrimFloat.ltb (decimal 1 1) first
      then PrimFloat.zero :: filtered_timings
      else filtered_timings
  end.

Record AudioAnalysis : Type := {
  duration : float;
  beats : list float;
  onsets : list float;
  scene_timings : list float
}.

Definition SceneAllocation : Type := (nat * float * float)%type.

Definition scene_duration (a : SceneAllocation) : float := snd a.

Definition set_last (y : list float) (v : float) : list float :=
  match y with
  | [] => []
  | _ => removelast y ++ [v]
  end.

Definition linspace_int (start stop : Z) (num : nat) : list Z :=
  let div := (Z.of_nat num - 1)%Z in
  let delta := of_int (stop - start) in
  let y := map (fun i => of_int (Z.of_nat i)) (seq 0 num) in
  let y :=
    if (0 <? div)%Z then
      let step := PrimFloat.div delta (of_int div) in
      if PrimFloat.eqb step PrimFloat.zero
      then map (fun v => PrimFloat.mul (PrimFloat.div v (of_int div)) delta) y
      else map (fun v => PrimFloat.mul v step) y
    else map (fun v => PrimFloat.mul v delta) y in
  let y := map (fun v => PrimFloat.add v (of_int start)) y in
  let y := if (1 <? Z.of_nat num)%Z then set_last y (of_int stop) else y in
  map floor y.

Definition split_evenly (num_scenes : nat) (duration : float)
  : outcome (list SceneAllocation) :=
  scene_duration <- truediv duration (of_int (Z.of_nat num_scenes)) ;;
  Ok (map (fun i => (i, PrimFloat.mul (of_int (Z.of_nat i)) scene_duration,
                     scene_duration))
          (seq 0 num_scenes)).

Definition allocate_scene (num_scenes : nat) (selected_timings : list float)
  (duration : float) (i : nat) : outcome SceneAllocation :=
  start_time <- getitem selected_timings (Z.of_nat i) ;;
  end_time <-
    (if (Z.of_nat i <? Z.of_nat num_scenes - 1)%Z
     then getitem selected_timings (Z.of_nat i + 1)
     else Ok duration) ;;
  let scene_duration := PrimFloat.sub end_time start_time in
  Ok (i, start_time, scene_duration).

Definition chosen_timings (audio_analysis : AudioAnalysis) (strategy : string)
  : list float :=
  if String.eqb strategy "beats" then beats audio_analysis
  else if String.eqb strategy "onsets" then onsets audio_analysis
  else scene_timings audio_analysis.

Definition distribute_scenes_to_timings (num_scenes : nat)
  (audio_analysis : AudioAnalysis) (strategy : string)
  : outcome (list diagnostic * list SceneAllocation) :=
  let scene_timings := scene_timings audio_analysis in
  let duration := duration audio_analysis in
  if String.eqb strategy "evenly" then
    result <- split_evenly num_scenes duration ;;
    Ok ([], result)
  else
    let timings := chosen_timings audio_analysis strategy in
    if (List.length timings <? num_scenes)%nat then
      result <- split_evenly num_scenes duration ;;
      Ok ([TimingsFewerThanScenes (List.length timings) num_scenes], result)
    else
      let selected_indices :=
        linspace_int 0 (Z.of_nat (List.length timings) - 1) num_scenes in
      selected_timings <- mapM (getitem timings) selected_indices ;;
      result <- mapM (allocate_scene num_scenes selected_timings duration)
                     (seq 0 num_scenes) ;;
      Ok ([], result).

(** The sum of the durations of a list of allocations: as floats, added
    from left to right, and as the rationals the durations stand for. *)
Definition float_total_of (result : list SceneAllocation) : float :=
  py_sum (map scene_duration result).

Definition total_of (result : list SceneAllocation) : Q :=
  fold_right (fun a acc => to_Q (scene_duration a) + acc) 0 result.

End Binary64.

(** ** Proof automation *)

(** [lra] does not read [e / 2]: name the half and keep what it is. *)
Ltac name_half e :=
  let h := fresh "half" in
  let Hh := fresh "Hhalf" in
  assert (e / 2 + e / 2 == e) as Hh by field;
  set (h := e / 2) in *; clearbody h.

(** ** The model on concrete inputs *)

Example crop_centre :
  _calculate_crop_box 1000 800 (1#2) (1#2) 2 = Ok (250, 200, 750, 600)%Z.
Proof. reflexivity. Qed.

Example linspace_5_3 : linspace_int 0 4 3 = [0; 2; 4]%Z.
Proof. reflexivity. Qed.

Example linspace_6_4 : linspace_int 0 5 4 = [0; 1; 3; 5]%Z.
Proof. reflexivity. Qed.

Example timeline_example :
  _calculate_scene_timings None [1#4] [] 2 = [0; 1#4].
Proof. reflexivity. Qed.

Example two_beats_timings :
  scene_timings two_beats
  = _calculate_scene_timings None (beats two_beats) (onsets two_beats)
                             (duration two_beats).
Proof. reflexivity. Qed.

Example beat_at_the_end_timings :
  scene_timings beat_at_the_end
  = _calculate_scene_timings None (beats beat_at_the_end)
                             (onsets beat_at_the_end) (duration beat_at_the_end).
Proof. reflexivity. Qed.

Example evenly_four_scenes (beats onsets scene_timings : list Q) :
  distribute_scenes_to_timings
    4 {| duration := 40; beats := beats; onsets := onsets;
         scene_timings := scene_timings |} "evenly"
  = Ok ([], [(0%nat, 0 * (40 / 4), 40 / 4); (1%nat, 1 * (40 / 4), 40 / 4);
             (2%nat, 2 * (40 / 4), 40 / 4); (3%nat, 3 * (40 / 4), 40 / 4)]).
Proof. reflexivity. Qed.

(** *** On binary64 *)

(** The crop box of the instance of C2: x = 0.95 and zoom 2.0 on 1000
    pixels. *)
Example binary64_crop_box_near_edge :
  Binary64._calculate_crop_box 1000 1000 (Binary64.decimal 95 2)
                               (Binary64.decimal 5 1) (Binary64.of_int 2)
  = Ok (500, 250, 1000, 750)%Z.
Proof. vm_compute. reflexivity. Qed.

(** Rounding moves a bound across a pixel: with x = 0.78 on 1080 pixels the
    left bound is 539.9999999999999 and the box is 541 pixels wide for an
    extent of 540; with x = 0.93015 on 1000 pixels it is 501 pixels wide for
    an extent of 500. *)
Example binary64_crop_box_one_pixel_wider :
  Binary64._calculate_crop_box 1080 1080 (Binary64.decimal 78 2)
                               (Binary64.decimal 5 1) (Binary64.of_int 2)
  = Ok (539, 270, 1080, 810)%Z.
Proof. vm_compute. reflexivity. Qed.

Example binary64_crop_box_translated :
  Binary64._calculate_crop_box 1000 1000 (Binary64.decimal 93015 5)
                               (Binary64.decimal 5 1) (Binary64.of_int 2)
  = Ok (499, 250, 1000, 750)%Z.
Proof. vm_compute. reflexivity. Qed.

(** An image of the video size loses a row: 540 / (540 / 1000) is
    999.9999999999999. *)
Example binary64_trim_box_540 :
  Binary64.trim_box 540 1000 540 1000 = Ok (0, 0, 540, 999)%Z.
Proof. vm_compute. reflexivity. Qed.

Example binary64_aspect_ratio_fit :
  Binary64.calculate_aspect_ratio_fit (900, 700)%Z (1080, 1920)%Z
  = Ok (1080, 839)%Z.
Proof. vm_compute. reflexivity. Qed.

Example binary64_initial_size :
  Binary64.initial_size 2000 2216 277 = Ok (Some (2000, 249)%Z) /\
  Binary64.initial_size 2000 98000 49 = Ok (Some (2000, 0)%Z).
Proof. split; vm_compute; reflexivity. Qed.

(** Eleven times the rounded step 30 / 22 is 14.999999999999998: the index
    of scene 11 is 14, one less than the floor of the exact position 15. *)
Example binary64_linspace_31_23 :
  Binary64.linspace_int 0 30 23
  = [0; 1; 2; 4; 5; 6; 8; 9; 10; 12; 13; 14; 16; 17; 19; 20; 21; 23; 24; 25;
     27; 28; 30]%Z /\
  linspace_int 0 30 23
  = [0; 1; 2; 4; 5; 6; 8; 9; 10; 12; 13; 15; 16; 17; 19; 20; 21; 23; 24; 25;
     27; 28; 30]%Z.
Proof. split; vm_compute; reflexivity. Qed.

(** A negative timestamp closer to 0 than the rounding of the subtraction
    is kept: -1e-20 - (-0.5) is 0.5. *)
Example binary64_timeline_keeps_negative :
  let tiny := PrimFloat.opp (Binary64.decimal 1 20) in
  Binary64._calculate_scene_timings None [tiny; Binary64.decimal 5 2] []
                                    (Binary64.of_int 2)
  = [tiny].
Proof. vm_compute. reflexivity. Qed.

(** 0.7 - 0.2 is 0.49999999999999994: the beat at 0.7 is dropped. *)
Example binary64_timeline_drops_close :
  Binary64._calculate_scene_timings
    None [Binary64.decimal 2 1; Binary64.decimal 7 1] [] (Binary64.of_int 2)
  = [PrimFloat.zero; Binary64.decimal 2 1].
Proof. vm_compute. reflexivity. Qed.

(** The even split of 1.0 seconds over 6 scenes and of 45 seconds over 7:
    the float sum of the durations is 0.9999999999999999 and
    45.00000000000001. *)
Example binary64_even_split_sum_rounds :
  (exists result,
      Binary64.split_evenly 6 (Binary64.of_int 1) = Ok result /\
      PrimFloat.ltb (Binary64.float_total_of result) (Binary64.of_int 1)
      = true) /\
  (exists result,
      Binary64.split_evenly 7 (Binary64.of_int 45) = Ok result /\
      PrimFloat.ltb (Binary64.of_int 45) (Binary64.float_total_of result)
      = true).
Proof.
  split; eexists; (split; [vm_compute; reflexivity|]); vm_compute; reflexivity.
Qed.

(** Start plus duration misses the next start by an ulp: 0.03 + (0.29 -
    0.03) is 0.29000000000000004. *)
Example binary64_allocations_meet_within_an_ulp :
  let analysis :=
    {| Binary64.duration := Binary64.of_int 1;
       Binary64.beats := [Binary64.decimal 3 2; Binary64.decimal 29 2];
       Binary64.onsets := [];
       Binary64.scene_timings := [] |} in
  exists first_duration last_duration,
    Binary64.distribute_scenes_to_timings 2 analysis "beats"
    = Ok ([], [(0%nat, Binary64.decimal 3 2, first_duration);
               (1%nat, Binary64.decimal 29 2, last_duration)]) /\
    PrimFloat.ltb (Binary64.decimal 29 2)
                  (PrimFloat.add (Binary64.decimal 3 2) first_duration) = true.
Proof.
  do 2 eexists. split; vm_compute; reflexivity.
Qed.

(** * Properties *)

(** ** Comparisons, division and truncation *)

Lemma Qltb_true (a b : Q) : Qltb a b = true <-> a < b.
Proof.
  unfold Qltb. rewrite negb_true_iff, <- not_true_iff_false, Qle_bool_iff.
  split; [apply Qnot_le_lt | apply Qlt_not_le].
Qed.

Lemma Qltb_false (a b : Q) : Qltb a b = false <-> b <= a.
Proof.
  unfold Qltb. rewrite negb_false_iff. apply Qle_bool_iff.
Qed.

Lemma Qltb_spec (a b : Q) : reflect (a < b) (Qltb a b).
Proof.
  destruct (Qltb a b) eqn:E; constructor.
  - now apply Qltb_true.
  - apply Qle_not_lt. now apply Qltb_false.
Qed.

Lemma truediv_nonzero (a b : Q) : ~ b == 0 -> truediv a b = Ok (a / b).
Proof.
  intros Hb. unfold truediv.
  destruct (Qeq_bool b 0) eqn:E; [|reflexivity].
  apply Qeq_bool_iff in E. contradiction.
Qed.

Lemma truediv_zero (a b : Q) : b == 0 -> truediv a b = Raise ZeroDivisionError.
Proof.
  intros Hb. unfold truediv. now rewrite (Qeq_eq_bool _ _ Hb).
Qed.

Lemma int_of_float_nonneg (v : Q) : 0 <= v -> int_of_float v = Qfloor v.
Proof.
  destruct v as [n d]. unfold Qle, int_of_float, Qfloor. simpl.
  intros Hn. apply Z.quot_div_nonneg; lia.
Qed.

Lemma Qfloor_unique (v : Q) (n : Z) :
  inject_Z n <= v -> v < inject_Z (n + 1) -> Qfloor v = n.
Proof.
  intros Hlo Hhi.
  pose proof (Qfloor_le v) as H1. pose proof (Qlt_floor v) as H2.
  assert (n < Qfloor v + 1)%Z by (rewrite Zlt_Qlt; lra).
  assert (Qfloor v < n + 1)%Z by (rewrite Zlt_Qlt; lra).
  lia.
Qed.

(** ** [clamp] *)

Lemma clamp_inside (v lo hi : Q) : lo <= v -> v <= hi -> clamp v lo hi == v.
Proof.
  intros Hlo Hhi. unfold clamp, py_max, py_min.
  destruct (Qltb_spec v hi) as [H1|H1];
    [destruct (Qltb_spec lo v) as [H2|H2] | destruct (Qltb_spec lo hi) as [H2|H2]];
    lra.
Qed.

Lemma clamp_bounds (v lo hi : Q) :
  lo <= hi -> lo <= clamp v lo hi /\ clamp v lo hi <= hi.
Proof.
  intros Hle. unfold clamp, py_max, py_min.
  destruct (Qltb_spec v hi) as [H1|H1];
    [destruct (Qltb_spec lo v) as [H2|H2] | destruct (Qltb_spec lo hi) as [H2|H2]];
    lra.
Qed.

(** With an upper bound below the lower one, the lower bound wins. *)
Lemma clamp_empty_range (v lo hi : Q) : hi <= lo -> clamp v lo hi = lo.
Proof.
  intros Hle. unfold clamp, py_max, py_min.
  destruct (Qltb_spec v hi) as [H1|H1];
    [destruct (Qltb_spec lo v) as [H2|H2] | destruct (Qltb_spec lo hi) as [H2|H2]];
    try reflexivity; lra.
Qed.

(** ** The crop box, one axis at a time *)

Lemma crop_box_axes (img_width img_height : Z) (x y zoom : Q) :
  ~ zoom == 0 ->
  _calculate_crop_box img_width img_height x y zoom =
  let ax := axis_bounds img_width (inject_Z img_width * x)
                        (inject_Z img_width / zoom) in
  let ay := axis_bounds img_height (inject_Z img_height * y)
                        (inject_Z img_height / zoom) in
  Ok (int_of_float (fst ax), int_of_float (fst ay),
      int_of_float (snd ax), int_of_float (snd ay)).
Proof.
  intros Hz. unfold _calculate_crop_box.
  rewrite !truediv_nonzero by assumption.
  unfold bind, centred_box, shift_box, axis_bounds.
  cbv zeta.
  destruct (Qltb (inject_Z img_width * x - inject_Z img_width / zoom / 2) 0);
  destruct (Qltb (inject_Z img_height * y - inject_Z img_height / zoom / 2) 0);
  cbv beta iota zeta;
  repeat match goal with
         | |- context [if Qltb ?a ?b then _ else _] => destruct (Qltb a b)
         end;
  reflexivity.
Qed.

Section Axis.
Variables (img_size : Z) (center extent : Q).
Hypothesis extent_fits : 0 <= extent <= inject_Z img_size.

(** A box that fits the axis is moved, never resized: it ends inside the
    axis with its extent unchanged. *)
Lemma axis_bounds_fit :
  let '(lo, hi) := axis_bounds img_size center extent in
  0 <= lo /\ hi <= inject_Z img_size /\ hi - lo == extent.
Proof.
  unfold axis_bounds. cbv zeta. name_half extent.
  destruct (Qltb_spec (center - half) 0) as [H1|H1].
  - destruct (Qltb_spec (inject_Z img_size)
                        (center + half - (center - half))) as [H2|H2];
      [lra|].
    rewrite !clamp_inside by lra. lra.
  - destruct (Qltb_spec (inject_Z img_size) (center + half)) as [H2|H2];
      rewrite !clamp_inside by lra; lra.
Qed.


End Axis.

(** The extent [img_size / zoom] fits the axis when [zoom >= 1]. *)
Lemma extent_fits_axis (img_size : Z) (zoom : Q) :
  (0 < img_size)%Z -> 1 <= zoom ->
  0 < inject_Z img_size / zoom /\ inject_Z img_size / zoom <= inject_Z img_size.
Proof.
  intros Hs Hz.
  assert (0 < inject_Z img_size) as Hs' by (rewrite Zlt_Qlt in Hs; exact Hs).
  split.
  - apply Qlt_shift_div_l; lra.
  - apply Qle_shift_div_r; [lra|]. nra.
Qed.

Lemma extent_at_least_one (img_size : Z) (zoom : Q) :
  0 < zoom -> zoom <= inject_Z img_size -> 1 <= inject_Z img_size / zoom.
Proof.
  intros Hz Hle. apply Qle_shift_div_l; lra.
Qed.

(** Truncating two bounds inside the axis keeps them inside, and changes
    their distance by less than a pixel. *)
Lemma int_of_float_bounds (img_size : Z) (lo hi : Q) :
  0 <= lo -> lo <= hi -> hi <= inject_Z img_size ->
  (0 <= int_of_float lo <= int_of_float hi)%Z /\
  (int_of_float hi <= img_size)%Z /\
  hi - lo - 1 < inject_Z (int_of_float hi - int_of_float lo) /\
  inject_Z (int_of_float hi - int_of_float lo) < hi - lo + 1.
Proof.
  intros Hlo Hle Hhi.
  rewrite !int_of_float_nonneg by lra.
  pose proof (Qfloor_le lo) as L1. pose proof (Qlt_floor lo) as L2.
  pose proof (Qfloor_le hi) as R1. pose proof (Qlt_floor hi) as R2.
  rewrite inject_Z_plus in L2, R2. change (inject_Z 1) with 1 in L2, R2.
  repeat split.
  - rewrite <- (Qfloor_Z 0). now apply Qfloor_resp_le.
  - now apply Qfloor_resp_le.
  - rewrite <- (Qfloor_Z img_size). now apply Qfloor_resp_le.
  - unfold Z.sub. rewrite inject_Z_plus, inject_Z_opp. lra.
  - unfold Z.sub. rewrite inject_Z_plus, inject_Z_opp. lra.
Qed.

Lemma axis_bounds_int (img_size : Z) (center zoom : Q) :
  (0 < img_size)%Z -> 1 <= zoom ->
  let ax := axis_bounds img_size center (inject_Z img_size / zoom) in
  let lo := int_of_float (fst ax) in
  let hi := int_of_float (snd ax) in
  (0 <= lo <= hi)%Z /\ (hi <= img_size)%Z /\
  inject_Z img_size / zoom - 1 < inject_Z (hi - lo) /\
  inject_Z (hi - lo) < inject_Z img_size / zoom + 1 /\
  (zoom <= inject_Z img_size -> (lo < hi)%Z).
Proof.
  intros Hs Hz. cbv zeta.
  destruct (extent_fits_axis img_size zoom Hs Hz) as [E1 E2].
  pose proof (axis_bounds_fit img_size center (inject_Z img_size / zoom)
                (conj (Qlt_le_weak _ _ E1) E2)) as Hfit.
  destruct (axis_bounds img_size center (inject_Z img_size / zoom)) as [lo hi].
  destruct Hfit as (F1 & F2 & F3). simpl fst; simpl snd.
  destruct (int_of_float_bounds img_size lo hi) as (B1 & B2 & B3 & B4);
    try lra.
  repeat split; try lia; try lra.
  intros Hzs.
  pose proof (extent_at_least_one img_size zoom ltac:(lra) Hzs) as E3.
  assert (inject_Z 0 < inject_Z (int_of_float hi - int_of_float lo)) as Hpos
    by (change (inject_Z 0) with 0; lra).
  rewrite <- Zlt_Qlt in Hpos. lia.
Qed.

Lemma clamp_below (v lo hi : Q) : v <= lo -> lo <= hi -> clamp v lo hi == lo.
Proof.
  intros Hv Hle. unfold clamp, py_max, py_min.
  destruct (Qltb_spec v hi) as [H1|H1];
    [destruct (Qltb_spec lo v) as [H2|H2] | destruct (Qltb_spec lo hi) as [H2|H2]];
    lra.
Qed.

(** A box larger than the axis ends as the whole axis. *)
Lemma axis_bounds_oversize (img_size : Z) (center extent : Q) :
  0 < inject_Z img_size -> inject_Z img_size < extent ->
  let '(lo, hi) := axis_bounds img_size center extent in
  lo == 0 /\ hi == inject_Z img_size.
Proof.
  intros Hs Hbig. unfold axis_bounds. cbv zeta. name_half extent.
  destruct (Qltb_spec (center - half) 0) as [H1|H1].
  - destruct (Qltb_spec (inject_Z img_size)
                        (center + half - (center - half))) as [H2|H2]; [|lra].
    split; [apply clamp_below | apply clamp_inside]; lra.
  - destruct (Qltb_spec (inject_Z img_size) (center + half)) as [H2|H2]; [|lra].
    split; [apply clamp_below | apply clamp_inside]; lra.
Qed.

(** An axis of non-positive length leaves only the point 0. *)
Lemma axis_bounds_no_axis (img_size : Z) (center extent : Q) :
  (img_size <= 0)%Z -> axis_bounds img_size center extent = (0, 0).
Proof.
  intros Hs. rewrite Zle_Qle in Hs. change (inject_Z 0) with 0 in Hs.
  unfold axis_bounds. cbv zeta.
  destruct (Qltb (center - extent / 2) 0);
    match goal with
    | |- context [if Qltb ?a ?b then _ else _] => destruct (Qltb a b)
    end;
    rewrite !clamp_empty_range by assumption; reflexivity.
Qed.

Lemma int_of_float_eq (v : Q) (n : Z) : v == inject_Z n -> int_of_float v = n.
Proof.
  intros Hv. destruct v as [p d]. unfold int_of_float, Qeq in *. simpl in *.
  assert (p = n * Z.pos d)%Z as -> by lia. apply Z.quot_mul. lia.
Qed.

(** ** C1 *)

(** C1, as the code has it.  For positive image dimensions, [zoom >= 1]
    and a focus point with [x] and [y] in [[0, 1]] the computation returns a
    box with [0 <= left <= right <= img_width] and
    [0 <= top <= bottom <= img_height].  Its width and height are those of
    the computed extent, [img_width / zoom] and [img_height / zoom], to
    within the truncation of the two bounds: they differ from it by less
    than two pixels.  (With exact bounds the difference is less than one
    pixel; the rounding of the float bounds can bring it to one pixel, see
    [binary64_crop_box_one_pixel_wider].)  The area is positive,
    [left < right] and [top < bottom], when [zoom <= img_width] and
    [zoom <= img_height], that is when the computed extent is at least one
    pixel. *)
Theorem crop_box_inside_image (img_width img_height : Z) (x y zoom : Q) :
  (0 < img_width)%Z -> (0 < img_height)%Z -> 1 <= zoom ->
  0 <= x <= 1 -> 0 <= y <= 1 ->
  exists b,
    _calculate_crop_box img_width img_height x y zoom = Ok b /\
    (0 <= box_left b <= box_right b)%Z /\ (box_right b <= img_width)%Z /\
    (0 <= box_top b <= box_bottom b)%Z /\ (box_bottom b <= img_height)%Z /\
    (inject_Z img_width / zoom - 2 < inject_Z (box_right b - box_left b) /\
     inject_Z (box_right b - box_left b) < inject_Z img_width / zoom + 2) /\
    (inject_Z img_height / zoom - 2 < inject_Z (box_bottom b - box_top b) /\
     inject_Z (box_bottom b - box_top b) < inject_Z img_height / zoom + 2) /\
    (zoom <= inject_Z img_width -> (box_left b < box_right b)%Z) /\
    (zoom <= inject_Z img_height -> (box_top b < box_bottom b)%Z).
Proof.
  intros Hw Hh Hz _ _.
  rewrite crop_box_axes by lra. cbv zeta.
  destruct (axis_bounds_int img_width (inject_Z img_width * x) zoom Hw Hz)
    as (X1 & X2 & X3 & X4 & X5).
  destruct (axis_bounds_int img_height (inject_Z img_height * y) zoom Hh Hz)
    as (Y1 & Y2 & Y3 & Y4 & Y5).
  eexists. split; [reflexivity|].
  unfold box_left, box_right, box_top, box_bottom.
  repeat split; solve [lia | lra | assumption].
Qed.

Lemma crop_box_inside_image_witness :
  exists b,
    _calculate_crop_box 1000 800 (1 # 2) (1 # 2) 2 = Ok b /\
    (0 <= box_left b <= box_right b)%Z /\ (box_right b <= 1000)%Z /\
    (0 <= box_top b <= box_bottom b)%Z /\ (box_bottom b <= 800)%Z /\
    (inject_Z 1000 / 2 - 2 < inject_Z (box_right b - box_left b) /\
     inject_Z (box_right b - box_left b) < inject_Z 1000 / 2 + 2) /\
    (inject_Z 800 / 2 - 2 < inject_Z (box_bottom b - box_top b) /\
     inject_Z (box_bottom b - box_top b) < inject_Z 800 / 2 + 2) /\
    (2 <= inject_Z 1000 -> (box_left b < box_right b)%Z) /\
    (2 <= inject_Z 800 -> (box_top b < box_bottom b)%Z).
Proof.
  apply (crop_box_inside_image 1000 800 (1 # 2) (1 # 2) 2).
  - reflexivity.
  - reflexivity.
  - discriminate.
  - split; discriminate.
  - split; discriminate.
Defined.

(** C1 as stated fails: on a 3 x 3 image with the focus at the centre and
    [zoom = 4] the bounds are 1.125 and 1.875 on both axes and the returned
    box is [(1, 1, 1, 1)], of area zero. *)
Lemma crop_box_zero_area :
  ~ (forall (img_width img_height : Z) (x y zoom : Q),
        (0 < img_width)%Z -> (0 < img_height)%Z -> 1 <= zoom ->
        0 <= x <= 1 -> 0 <= y <= 1 ->
        exists b,
          _calculate_crop_box img_width img_height x y zoom = Ok b /\
          (0 <= box_left b < box_right b)%Z /\ (box_right b <= img_width)%Z /\
          (0 <= box_top b < box_bottom b)%Z /\ (box_bottom b <= img_height)%Z).
Proof.
  intros C.
  destruct (C 3%Z 3%Z (1 # 2) (1 # 2) 4) as (b & Hb & Hx & _);
    try reflexivity; try (split; discriminate); try discriminate.
  vm_compute in Hb. injection Hb as <-. simpl in Hx. lia.
Qed.

(** ** C2 *)





(** ** C5 *)

(** C5, as the code has it.  The computation has no error kind of its own
    and rejects no focus point: whenever [zoom] is not zero it returns a box.
    With [0 < zoom < 1] on an image of positive dimensions the box is the
    whole image; with a non-positive width (height) the box has
    [left = right = 0] ([top = bottom = 0]); a zoom so large that the crop
    truncates to zero pixels returns a box of area zero, as on the 3 x 3
    image with [zoom = 4].  The single failure is the division by
    [zoom = 0]. *)
Theorem crop_box_never_rejects (img_width img_height : Z) (x y zoom : Q) :
  (zoom == 0 ->
   _calculate_crop_box img_width img_height x y zoom = Raise ZeroDivisionError)
  /\
  (~ zoom == 0 ->
   exists b,
     _calculate_crop_box img_width img_height x y zoom = Ok b /\
     (0 < zoom -> zoom < 1 -> (0 < img_width)%Z -> (0 < img_height)%Z ->
      b = (0, 0, img_width, img_height)%Z) /\
     ((img_width <= 0)%Z -> box_left b = 0%Z /\ box_right b = 0%Z) /\
     ((img_height <= 0)%Z -> box_top b = 0%Z /\ box_bottom b = 0%Z))
  /\
  _calculate_crop_box 3 3 (1 # 2) (1 # 2) 4 = Ok (1, 1, 1, 1)%Z.
Proof.
  split; [|split].
  - intros Hz. unfold _calculate_crop_box. now rewrite truediv_zero.
  - intros Hz. rewrite crop_box_axes by assumption. cbv zeta.
    eexists. split; [reflexivity|].
    unfold box_left, box_right, box_top, box_bottom.
    split; [|split].
    + intros Hpos Hlt Hw Hh.
      assert (forall s : Z, (0 < s)%Z ->
                0 < inject_Z s /\ inject_Z s < inject_Z s / zoom) as Hbig.
      { intros s Hs. rewrite Zlt_Qlt in Hs. change (inject_Z 0) with 0 in Hs.
        split; [assumption|]. apply Qlt_shift_div_l; [assumption|]. nra. }
      destruct (Hbig _ Hw) as [W1 W2]. destruct (Hbig _ Hh) as [H1 H2].
      pose proof (axis_bounds_oversize img_width (inject_Z img_width * x)
                    _ W1 W2) as Hx.
      pose proof (axis_bounds_oversize img_height (inject_Z img_height * y)
                    _ H1 H2) as Hy.
      destruct (axis_bounds img_width _ _) as [xl xh].
      destruct (axis_bounds img_height _ _) as [yl yh].
      destruct Hx as [Hxl Hxh]. destruct Hy as [Hyl Hyh]. simpl.
      rewrite (int_of_float_eq xl 0), (int_of_float_eq yl 0),
        (int_of_float_eq xh img_width), (int_of_float_eq yh img_height);
        auto.
    + intros Hw. now rewrite axis_bounds_no_axis.
    + intros Hh. now rewrite axis_bounds_no_axis.
  - reflexivity.
Qed.

Lemma crop_box_never_rejects_witness :
  exists b,
    _calculate_crop_box 100 100 (1 # 2) (1 # 2) (1 # 2) = Ok b /\
    b = (0, 0, 100, 100)%Z.
Proof.
  destruct (crop_box_never_rejects 100 100 (1 # 2) (1 # 2) (1 # 2))
    as (_ & Hok & _).
  destruct Hok as (b & Hb & Hwhole & _); [discriminate|].
  exists b. split; [exact Hb|].
  apply Hwhole; reflexivity.
Defined.

(** C5 as stated fails: a zoom of 0.5 is not rejected, the whole image is
    returned as an ordinary box. *)
Lemma crop_box_accepts_zoom_below_one :
  ~ (forall (img_width img_height : Z) (x y zoom : Q),
        zoom < 1 ->
        forall b, _calculate_crop_box img_width img_height x y zoom <> Ok b).
Proof.
  intros C.
  apply (C 100%Z 100%Z (1 # 2) (1 # 2) (1 # 2) eq_refl (0, 0, 100, 100)%Z).
  reflexivity.
Qed.

(** ** Ratios of sizes *)

Lemma inject_Z_pos (n : Z) : (0 < n)%Z -> 0 < inject_Z n.
Proof. intros Hn. rewrite Zlt_Qlt in Hn. exact Hn. Qed.

Lemma ratio_pos (a b : Z) : (0 < a)%Z -> (0 < b)%Z -> 0 < inject_Z a / inject_Z b.
Proof.
  intros Ha Hb. apply Qlt_shift_div_l; [now apply inject_Z_pos|].
  rewrite Qmult_0_l. now apply inject_Z_pos.
Qed.

Lemma Qfloor_nonneg (v : Q) : 0 <= v -> (0 <= Qfloor v)%Z.
Proof.
  intros Hv. rewrite <- (Qfloor_Z 0). now apply Qfloor_resp_le.
Qed.

(** ** C4: the timeline *)

Lemma insert_uniq_In (t x : Q) (l : list Q) :
  In x (insert_uniq t l) -> x = t \/ In x l.
Proof.
  induction l as [|u l IH]; simpl.
  - intros [<-|[]]. now left.
  - destruct (t ?= u).
    + intros Hin. now right.
    + intros [<-|Hin]; [now left | now right].
    + intros [<-|Hin]; [right; now left|].
      destruct (IH Hin) as [->|Hin']; [now left | right; now right].
Qed.

Lemma insert_uniq_sorted (t : Q) (l : list Q) :
  StronglySorted Qlt l -> StronglySorted Qlt (insert_uniq t l).
Proof.
  induction 1 as [|u l Hsorted IH Hall]; simpl.
  - repeat constructor.
  - destruct (Qcompare_spec t u) as [Heq|Hlt|Hgt].
    + now constructor.
    + constructor; [now constructor|].
      constructor; [assumption|].
      rewrite Forall_forall in *. intros x Hx.
      apply Qlt_trans with u; auto.
    + constructor; [assumption|].
      rewrite Forall_forall in *. intros x Hx.
      destruct (insert_uniq_In _ _ _ Hx) as [->|Hx']; auto.
Qed.

Lemma sorted_set_sorted (l : list Q) : StronglySorted Qlt (sorted_set l).
Proof.
  induction l as [|t l IH]; simpl.
  - constructor.
  - now apply insert_uniq_sorted.
Qed.

Lemma filter_loop_kept (min_interval : Q) (times filtered : list Q) (last_time : Q) :
  fst (fold_left (filter_step min_interval) times (filtered, last_time))
  = filtered ++ kept min_interval last_time times.
Proof.
  revert filtered last_time.
  induction times as [|time rest IH]; intros filtered last_time; simpl.
  - now rewrite app_nil_r.
  - destruct (Qle_bool min_interval (time - last_time)).
    + rewrite IH, <- app_assoc. reflexivity.
    + apply IH.
Qed.

Lemma kept_In (min_interval : Q) (times : list Q) (last_time x : Q) :
  In x (kept min_interval last_time times) -> In x times.
Proof.
  revert last_time.
  induction times as [|time rest IH]; intros last_time; simpl; [tauto|].
  destruct (Qle_bool min_interval (time - last_time)).
  - intros [<-|Hin]; [now left | right; eauto].
  - intros Hin. right; eauto.
Qed.

Lemma kept_sorted (min_interval : Q) (times : list Q) (last_time : Q) :
  StronglySorted Qlt times ->
  StronglySorted Qlt (kept min_interval last_time times).
Proof.
  intros Hsorted. revert last_time.
  induction Hsorted as [|time rest Hsorted IH Hall]; intros last_time; simpl.
  - constructor.
  - destruct (Qle_bool min_interval (time - last_time)); [|apply IH].
    constructor; [apply IH|].
    rewrite Forall_forall in *. intros x Hx.
    apply Hall. eapply kept_In; eassumption.
Qed.

(** What the loop keeps is spaced, from [last_time] on. *)
Lemma kept_spaced (min_interval : Q) (times : list Q) (last_time : Q) :
  Sorted (spaced min_interval) (kept min_interval last_time times) /\
  HdRel (spaced min_interval) last_time (kept min_interval last_time times).
Proof.
  revert last_time.
  induction times as [|time rest IH]; intros last_time; simpl.
  - split; constructor.
  - destruct (Qle_bool min_interval (time - last_time)) eqn:E.
    + destruct (IH time) as [S1 S2]. split.
      * now constructor.
      * constructor. unfold spaced. now apply Qle_bool_iff.
    + apply IH.
Qed.

(** C4, as the code has it.  The timeline is strictly increasing and its
    first element lies between 0 and 0.1.  It is the filtered sequence, whose
    consecutive elements are at least [min_interval] apart, either as it is
    or with 0.0 put in front: the distance from a prepended 0.0 to the next
    element is not constrained by [min_interval]. *)
Theorem scene_timings_shape (min_scene_interval : option Q)
        (beats onsets : list Q) (duration : Q) :
  let min_interval := get_min_scene_interval min_scene_interval in
  let timeline := _calculate_scene_timings min_scene_interval beats onsets duration in
  StronglySorted Qlt timeline /\
  (exists first rest, timeline = first :: rest /\ 0 <= first /\ first <= 1 # 10) /\
  (exists filtered_timings,
      Sorted (spaced min_interval) filtered_timings /\
      (timeline = filtered_timings \/ timeline = 0 :: filtered_timings)).
Proof.
  cbv zeta. unfold _calculate_scene_timings.
  set (min_interval := get_min_scene_interval min_scene_interval).
  pose proof (filter_loop_kept min_interval (sorted_set (beats ++ onsets))
                [] (- min_interval)) as Hloop.
  destruct (fold_left (filter_step min_interval) (sorted_set (beats ++ onsets))
                      ([], - min_interval)) as [filtered_timings last_time].
  simpl in Hloop. subst filtered_timings.
  pose proof (kept_sorted min_interval _ (- min_interval)
                (sorted_set_sorted (beats ++ onsets))) as Hinc.
  destruct (kept_spaced min_interval (sorted_set (beats ++ onsets))
                        (- min_interval)) as [Hsp Hhd].
  destruct (kept min_interval (- min_interval) (sorted_set (beats ++ onsets)))
    as [|first rest].
  - split; [repeat constructor|]. split.
    + exists 0, []. repeat split; discriminate.
    + exists []. split; [constructor | now right].
  - assert (0 <= first) as Hfirst.
    { inversion Hhd as [|? ? Hgap]; subst. unfold spaced in Hgap. lra. }
    destruct (Qltb_spec (1 # 10) first) as [Hlate|Hearly].
    + split; [|split].
      * constructor; [assumption|].
        constructor; [lra|].
        apply StronglySorted_inv in Hinc. destruct Hinc as [_ Hall].
        rewrite Forall_forall in *. intros x Hx.
        specialize (Hall x Hx). lra.
      * exists 0, (first :: rest). repeat split; discriminate.
      * exists (first :: rest). split; [assumption | now right].
    + split; [assumption|]. split.
      * exists first, rest. repeat split; [assumption | now apply Qnot_lt_le].
      * exists (first :: rest). split; [assumption | now left].
Qed.

(** C4 as stated fails: with the default [min_interval] of 0.5 and a single
    beat at 0.25 the timeline is [[0.0; 0.25]], whose two elements are 0.25
    apart. *)
Lemma scene_timings_close_to_start :
  ~ (forall (min_scene_interval : option Q) (beats onsets : list Q) (duration : Q),
        0 < get_min_scene_interval min_scene_interval ->
        StronglySorted Qle beats -> StronglySorted Qle onsets ->
        let timeline :=
          _calculate_scene_timings min_scene_interval beats onsets duration in
        StronglySorted Qlt timeline /\
        Sorted (spaced (get_min_scene_interval min_scene_interval)) timeline /\
        (exists first rest, timeline = first :: rest /\ first <= 1 # 10)).
Proof.
  intros C.
  destruct (C None [1 # 4] [] 2) as (_ & Hspaced & _).
  - reflexivity.
  - repeat constructor.
  - constructor.
  - vm_compute in Hspaced.
    inversion Hspaced as [|? ? _ Hhd]; subst.
    inversion Hhd as [|? ? Hgap]; subst.
    vm_compute in Hgap. now apply Hgap.
Qed.

(** ** The sampled indices *)

Lemma set_last_snoc (l : list Q) (x v : Q) : set_last (l ++ [x]) v = l ++ [v].
Proof.
  unfold set_last. destruct (l ++ [x]) eqn:E.
  - now destruct l.
  - now rewrite <- E, removelast_last.
Qed.

(** The floor of a sample is an integer division. *)
Lemma Qfloor_sample (i delta div : Z) (v : Q) :
  (0 < div)%Z ->
  v == inject_Z i * inject_Z delta / inject_Z div ->
  Qfloor v = (i * delta / div)%Z.
Proof.
  intros Hdiv ->. now rewrite <- inject_Z_mult, <- Zdiv_Qdiv.
Qed.

Lemma linspace_int_closed (len num : nat) :
  linspace_int 0 (Z.of_nat len - 1) num = map (sample_index len num) (seq 0 num).
Proof.
  unfold linspace_int, sample_index. rewrite Z.sub_0_r.
  set (stop := (Z.of_nat len - 1)%Z).
  destruct (Nat.leb_spec num 1) as [Hsmall|Hlarge].
  - destruct num as [|[|num]]; [reflexivity| |lia].
    change (Z.of_nat 1 - 1)%Z with 0%Z. change (0 <? 0)%Z with false.
    change (1 <? Z.of_nat 1)%Z with false. cbn [seq map].
    reflexivity.
  - assert (0 < Z.of_nat num - 1)%Z as Hdiv by lia.
    assert (0 < inject_Z (Z.of_nat num - 1)) as Hdiv' by now apply inject_Z_pos.
    replace (0 <? Z.of_nat num - 1)%Z with true by (symmetry; apply Z.ltb_lt; lia).
    replace (1 <? Z.of_nat num)%Z with true by (symmetry; apply Z.ltb_lt; lia).
    destruct num as [|k]; [lia|].
    set (div := (Z.of_nat (S k) - 1)%Z) in *.
    assert (forall F : Q -> Q,
               (forall i : nat,
                   F (inject_Z (Z.of_nat i))
                   == inject_Z (Z.of_nat i) * inject_Z stop / inject_Z div) ->
               map Qfloor
                   (set_last
                      (map (fun v => v + inject_Z 0)
                           (map F (map (fun i => inject_Z (Z.of_nat i))
                                       (seq 0 (S k)))))
                      (inject_Z stop))
               = map (fun i => (Z.of_nat i * stop / div)%Z) (seq 0 (S k)))
      as Hsamples.
    { intros F HF. rewrite !map_map, seq_S, !map_app. cbn [map].
      rewrite set_last_snoc, map_app. cbn [map]. f_equal.
      - rewrite map_map. apply map_ext. intros i.
        apply Qfloor_sample; [assumption|].
        rewrite HF. change (inject_Z 0) with 0. ring.
      - rewrite Qfloor_Z. f_equal. cbn [Nat.add].
        replace (Z.of_nat k) with div by (unfold div; lia).
        rewrite Z.mul_comm. symmetry. apply Z.div_mul. lia. }
    destruct (Qeq_bool (inject_Z stop / inject_Z div) 0); apply Hsamples;
      intros i; field; lra.
Qed.

Lemma linspace_int_length (len num : nat) :
  List.length (linspace_int 0 (Z.of_nat len - 1) num) = num.
Proof.
  now rewrite linspace_int_closed, length_map, length_seq.
Qed.

Section Samples.
Variables len num : nat.
Hypothesis enough : (num <= len)%nat.

(** With at least as many timings as scenes every index is inside the
    list. *)
Lemma sample_index_range (i : nat) :
  (i < num)%nat ->
  (0 <= sample_index len num i <= Z.of_nat len - 1)%Z.
Proof.
  intros Hi. unfold sample_index.
  destruct (Nat.leb_spec num 1) as [Hsmall|Hlarge]; [lia|].
  split.
  - apply Z.div_pos; [nia | lia].
  - apply Z.div_le_upper_bound; [lia|]. nia.
Qed.

(** The step is at least one: consecutive indices differ. *)
Lemma sample_index_step (i : nat) :
  (S i < num)%nat ->
  (sample_index len num i < sample_index len num (S i))%Z.
Proof.
  intros Hi. unfold sample_index.
  destruct (Nat.leb_spec num 1) as [Hsmall|Hlarge]; [lia|].
  set (div := (Z.of_nat num - 1)%Z).
  set (stop := (Z.of_nat len - 1)%Z).
  assert (0 < div <= stop)%Z as Hdiv by (unfold div, stop; lia).
  apply Z.lt_le_trans with ((Z.of_nat i * stop + div) / div)%Z.
  - replace (Z.of_nat i * stop + div)%Z with (Z.of_nat i * stop + 1 * div)%Z
      by lia.
    rewrite Z.div_add by lia. lia.
  - apply Z.div_le_mono; [lia|]. nia.
Qed.

Lemma sample_index_increasing (i j : nat) :
  (i < j)%nat -> (j < num)%nat ->
  (sample_index len num i < sample_index len num j)%Z.
Proof.
  intros Hij Hj. induction Hij as [|j Hij IH].
  - now apply sample_index_step.
  - apply Z.lt_trans with (sample_index len num j).
    + apply IH. lia.
    + now apply sample_index_step.
Qed.


End Samples.

(** ** The two branches of the distribution in closed form *)

Lemma mapM_ok {A B : Type} (f : A -> outcome B) (g : A -> B) (l : list A) :
  (forall a, In a l -> f a = Ok (g a)) -> mapM f l = Ok (map g l).
Proof.
  induction l as [|a l IH]; intros Hf; simpl.
  - reflexivity.
  - rewrite (Hf a) by now left. simpl.
    rewrite IH by (intros; apply Hf; now right). reflexivity.
Qed.

Lemma getitem_ok {A : Type} (l : list A) (i : Z) (d : A) :
  (0 <= i < Z.of_nat (List.length l))%Z ->
  getitem l i = Ok (nth (Z.to_nat i) l d).
Proof.
  intros Hi. unfold getitem.
  replace (i <? 0)%Z with false by (symmetry; apply Z.ltb_ge; lia).
  replace (i <? 0)%Z with false by (symmetry; apply Z.ltb_ge; lia).
  rewrite (nth_error_nth' l d) by lia. reflexivity.
Qed.

Lemma nth_map_seq {A : Type} (f : nat -> A) (n i : nat) (d : A) :
  (i < n)%nat -> nth i (map f (seq 0 n)) d = f i.
Proof.
  intros Hi. rewrite (nth_indep _ d (f 0%nat)) by now rewrite length_map, length_seq.
  rewrite map_nth, seq_nth by assumption. reflexivity.
Qed.

Lemma split_evenly_ok (num_scenes : nat) (duration : Q) :
  (1 <= num_scenes)%nat ->
  split_evenly num_scenes duration
  = Ok (map (even_allocation num_scenes duration) (seq 0 num_scenes)).
Proof.
  intros Hn. unfold split_evenly.
  rewrite truediv_nonzero; [reflexivity|].
  assert (0 < inject_Z (Z.of_nat num_scenes)) by (apply inject_Z_pos; lia).
  lra.
Qed.

Lemma distribute_evenly (num_scenes : nat) (audio_analysis : AudioAnalysis) :
  (1 <= num_scenes)%nat ->
  distribute_scenes_to_timings num_scenes audio_analysis "evenly"
  = Ok ([], map (even_allocation num_scenes (duration audio_analysis))
                (seq 0 num_scenes)).
Proof.
  intros Hn. unfold distribute_scenes_to_timings.
  change (String.eqb "evenly" "evenly") with true. cbv iota.
  now rewrite split_evenly_ok.
Qed.

Lemma distribute_fallback (num_scenes : nat) (audio_analysis : AudioAnalysis)
      (strategy : string) :
  String.eqb strategy "evenly" = false ->
  (List.length (chosen_timings audio_analysis strategy) < num_scenes)%nat ->
  distribute_scenes_to_timings num_scenes audio_analysis strategy
  = Ok ([TimingsFewerThanScenes
           (List.length (chosen_timings audio_analysis strategy)) num_scenes],
        map (even_allocation num_scenes (duration audio_analysis))
            (seq 0 num_scenes)).
Proof.
  intros Hstrategy Hfew. unfold distribute_scenes_to_timings.
  rewrite Hstrategy. cbv zeta.
  replace (_ <? _)%nat with true by (symmetry; now apply Nat.ltb_lt).
  rewrite split_evenly_ok by lia. reflexivity.
Qed.

Lemma distribute_sampled (num_scenes : nat) (audio_analysis : AudioAnalysis)
      (strategy : string) :
  String.eqb strategy "evenly" = false ->
  (num_scenes <= List.length (chosen_timings audio_analysis strategy))%nat ->
  distribute_scenes_to_timings num_scenes audio_analysis strategy
  = Ok ([], map (sampled_allocation (chosen_timings audio_analysis strategy)
                                    num_scenes (duration audio_analysis))
                (seq 0 num_scenes)).
Proof.
  intros Hstrategy Henough. unfold distribute_scenes_to_timings.
  rewrite Hstrategy. cbv zeta.
  set (timings := chosen_timings audio_analysis strategy) in *.
  replace (_ <? _)%nat with false by (symmetry; now apply Nat.ltb_ge).
  rewrite linspace_int_closed.
  rewrite (mapM_ok _ (fun i => nth (Z.to_nat i) timings 0)).
  2:{ intros z Hz. apply in_map_iff in Hz. destruct Hz as (i & <- & Hi).
      apply in_seq in Hi. apply getitem_ok.
      pose proof (sample_index_range _ _ Henough i). lia. }
  rewrite map_map. fold (selected_timing timings num_scenes). cbn [bind].
  change (fun x : nat =>
            nth (Z.to_nat (sample_index (List.length timings) num_scenes x))
                timings 0)
    with (selected_timing timings num_scenes).
  rewrite (mapM_ok _ (sampled_allocation timings num_scenes
                                         (duration audio_analysis))).
  - reflexivity.
  - intros i Hi. apply in_seq in Hi. unfold allocate_scene, sampled_allocation.
    rewrite (getitem_ok _ _ 0) by (rewrite length_map, length_seq; lia).
    rewrite Nat2Z.id, nth_map_seq by lia. cbn [bind].
    destruct (Nat.ltb_spec (S i) num_scenes) as [Hnext|Hlast].
    + replace (_ <? _)%Z with true by (symmetry; apply Z.ltb_lt; lia).
      rewrite (getitem_ok _ _ 0) by (rewrite length_map, length_seq; lia).
      replace (Z.to_nat (Z.of_nat i + 1)) with (S i) by lia.
      rewrite nth_map_seq by lia. reflexivity.
    + replace (_ <? _)%Z with false by (symmetry; apply Z.ltb_ge; lia).
      reflexivity.
Qed.

(** ** Sums of durations *)

Lemma total_of_app (l1 l2 : list SceneAllocation) :
  total_of (l1 ++ l2) == total_of l1 + total_of l2.
Proof.
  induction l1 as [|a l1 IH]; simpl.
  - ring.
  - rewrite IH. ring.
Qed.

Lemma total_of_even (num_scenes : nat) (duration : Q) (l : list nat) :
  total_of (map (even_allocation num_scenes duration) l)
  == inject_Z (Z.of_nat (List.length l))
     * (duration / inject_Z (Z.of_nat num_scenes)).
Proof.
  induction l as [|i l IH].
  - simpl. ring.
  - cbn [map total_of fold_right List.length].
    fold (total_of (map (even_allocation num_scenes duration) l)).
    rewrite IH, Nat2Z.inj_succ. unfold Z.succ. rewrite inject_Z_plus.
    unfold even_allocation, scene_duration. cbn [snd].
    change (inject_Z 1) with 1. ring.
Qed.

Lemma total_of_evenly (num_scenes : nat) (duration : Q) :
  (1 <= num_scenes)%nat ->
  total_of (map (even_allocation num_scenes duration) (seq 0 num_scenes))
  == duration.
Proof.
  intros Hn. rewrite total_of_even, length_seq.
  assert (0 < inject_Z (Z.of_nat num_scenes)) by (apply inject_Z_pos; lia).
  field. lra.
Qed.

(** The durations before the last scene telescope. *)
Lemma total_of_differences (s : nat -> Q) (k : nat) :
  total_of (map (fun i => (i, s i, s (S i) - s i)) (seq 0 k)) == s k - s 0%nat.
Proof.
  induction k as [|k IH].
  - simpl. ring.
  - rewrite seq_S, map_app, total_of_app, IH. simpl.
    unfold scene_duration. simpl. ring.
Qed.

Lemma total_of_sampled (timings : list Q) (num_scenes : nat) (duration : Q) :
  (1 <= num_scenes)%nat ->
  total_of (map (sampled_allocation timings num_scenes duration)
                (seq 0 num_scenes))
  == duration - selected_timing timings num_scenes 0.
Proof.
  intros Hn. destruct num_scenes as [|k]; [lia|].
  rewrite seq_S, map_app, total_of_app.
  rewrite (map_ext_in _ (fun i => (i, selected_timing timings (S k) i,
                                   selected_timing timings (S k) (S i)
                                   - selected_timing timings (S k) i))).
  - rewrite total_of_differences. cbn [map total_of fold_right Nat.add].
    unfold sampled_allocation, scene_duration. cbn [snd].
    rewrite Nat.ltb_irrefl. ring.
  - intros i Hi. apply in_seq in Hi. unfold sampled_allocation.
    replace (S i <? S k)%nat with true by (symmetry; apply Nat.ltb_lt; lia).
    reflexivity.
Qed.

Lemma selected_timing_first (timings : list Q) (num_scenes : nat) :
  selected_timing timings num_scenes 0 = nth 0 timings 0.
Proof.
  unfold selected_timing, sample_index.
  destruct (num_scenes <=? 1)%nat; reflexivity.
Qed.

Lemma strategy_cases (strategy : string) :
  String.eqb strategy "evenly" = true \/ String.eqb strategy "evenly" = false.
Proof. destruct (String.eqb strategy "evenly"); auto. Qed.

(** With at least one scene the distribution returns, either the even split
    or the sampled allocations. *)
Lemma distribute_cases (num_scenes : nat) (audio_analysis : AudioAnalysis)
      (strategy : string) :
  (1 <= num_scenes)%nat ->
  let timings := chosen_timings audio_analysis strategy in
  (exists diagnostics,
      distribute_scenes_to_timings num_scenes audio_analysis strategy
      = Ok (diagnostics,
            map (even_allocation num_scenes (duration audio_analysis))
                (seq 0 num_scenes)) /\
      (String.eqb strategy "evenly" = true
       \/ (List.length timings < num_scenes)%nat))
  \/
  (distribute_scenes_to_timings num_scenes audio_analysis strategy
   = Ok ([], map (sampled_allocation timings num_scenes
                                     (duration audio_analysis))
                 (seq 0 num_scenes)) /\
   String.eqb strategy "evenly" = false /\
   (num_scenes <= List.length timings)%nat).
Proof.
  intros Hn. cbv zeta.
  destruct (strategy_cases strategy) as [Hs|Hs].
  - left. exists []. split; [|now left].
    apply String.eqb_eq in Hs. subst strategy. now apply distribute_evenly.
  - destruct (Nat.lt_ge_cases
                (List.length (chosen_timings audio_analysis strategy))
                num_scenes) as [Hfew|Henough].
    + left. eexists. split; [now apply distribute_fallback | now right].
    + right. split; [now apply distribute_sampled | now split].
Qed.

Lemma map_seq_cons {A : Type} (f : nat -> A) (n : nat) :
  (1 <= n)%nat -> exists rest, map f (seq 0 n) = f 0%nat :: rest.
Proof.
  intros Hn. destruct n as [|k]; [lia|]. simpl. eauto.
Qed.

(** ** C3 *)

(** C3, as the code has it.  For every strategy and [scene_count >= 1] the
    distribution returns at least one allocation and the durations add up,
    to within 1e-3 seconds, to [total_duration] minus the start time of the
    first allocation.  That start is 0 for the even split (the "evenly"
    strategy and the fallback), where the sum is [total_duration] to within
    1e-3 seconds; in the sampling branch it is the first timestamp of the
    chosen source.  (The tolerance is that of the claim: the sum of the
    float durations is not exact, see [binary64_even_split_sum_rounds].) *)
Theorem durations_sum (num_scenes : nat) (audio_analysis : AudioAnalysis)
        (strategy : string) :
  (1 <= num_scenes)%nat ->
  let timings := chosen_timings audio_analysis strategy in
  exists diagnostics result first rest,
    distribute_scenes_to_timings num_scenes audio_analysis strategy
    = Ok (diagnostics, result) /\
    result = first :: rest /\
    duration audio_analysis - start_time first - (1 # 1000) <= total_of result /\
    total_of result <= duration audio_analysis - start_time first + (1 # 1000) /\
    (String.eqb strategy "evenly" = true \/ (List.length timings < num_scenes)%nat ->
     start_time first == 0 /\
     duration audio_analysis - (1 # 1000) <= total_of result /\
     total_of result <= duration audio_analysis + (1 # 1000)) /\
    (String.eqb strategy "evenly" = false -> (num_scenes <= List.length timings)%nat ->
     start_time first = nth 0 timings 0).
Proof.
  intros Hn. cbv zeta.
  destruct (distribute_cases num_scenes audio_analysis strategy Hn)
    as [(diagnostics & Hrun & Hcase) | (Hrun & Hs & Henough)].
  - destruct (map_seq_cons (even_allocation num_scenes (duration audio_analysis))
                           num_scenes Hn) as [rest Hrest].
    exists diagnostics. do 2 eexists. exists rest.
    split; [exact Hrun|]. split; [exact Hrest|].
    rewrite total_of_evenly by assumption.
    assert (start_time (even_allocation num_scenes (duration audio_analysis) 0)
            == 0) as Hstart.
    { unfold even_allocation, start_time. cbn [fst snd].
      change (inject_Z (Z.of_nat 0)) with 0. ring. }
    split; [|split; [|split]].
    + rewrite Hstart. lra.
    + rewrite Hstart. lra.
    + intros _. split; [exact Hstart | lra].
    + intros Hs Hlen. destruct Hcase as [Hcase|Hcase]; [congruence|lia].
  - destruct (map_seq_cons
                (sampled_allocation (chosen_timings audio_analysis strategy)
                                    num_scenes (duration audio_analysis))
                num_scenes Hn) as [rest Hrest].
    exists []. do 2 eexists. exists rest.
    split; [exact Hrun|]. split; [exact Hrest|].
    rewrite total_of_sampled by assumption.
    assert (start_time (sampled_allocation
                          (chosen_timings audio_analysis strategy)
                          num_scenes (duration audio_analysis) 0)
            = selected_timing (chosen_timings audio_analysis strategy)
                              num_scenes 0) as Hstart by reflexivity.
    split; [|split; [|split]].
    + rewrite Hstart. lra.
    + rewrite Hstart. lra.
    + intros [Hcase|Hcase]; [congruence|lia].
    + intros _ _. rewrite Hstart. apply selected_timing_first.
Qed.

Lemma durations_sum_witness :
  exists diagnostics result first rest,
    distribute_scenes_to_timings 2 two_beats "beats" = Ok (diagnostics, result) /\
    result = first :: rest /\
    2 - start_time first - (1 # 1000) <= total_of result /\
    total_of result <= 2 - start_time first + (1 # 1000).
Proof.
  destruct (durations_sum 2 two_beats "beats")
    as (diagnostics & result & first & rest & Hrun & Hcons & Hlow & Hhigh & _).
  - repeat constructor.
  - exists diagnostics, result, first, rest. repeat split; assumption.
Defined.

(** C3 as stated fails: with beats at 0.5 and 1.5, two scenes on the beats
    and a total duration of 2.0, the scenes last 1.0 and 0.5; the sum 1.5
    misses the 0.5 seconds before the first beat. *)
Lemma durations_miss_the_lead_in :
  ~ (forall (num_scenes : nat) (audio_analysis : AudioAnalysis) (strategy : string),
        (1 <= num_scenes)%nat ->
        0 < duration audio_analysis ->
        StronglySorted Qle (beats audio_analysis) ->
        StronglySorted Qle (onsets audio_analysis) ->
        StronglySorted Qle (scene_timings audio_analysis) ->
        forall diagnostics result,
          distribute_scenes_to_timings num_scenes audio_analysis strategy
          = Ok (diagnostics, result) ->
          duration audio_analysis - (1 # 1000) <= total_of result /\
          total_of result <= duration audio_analysis + (1 # 1000)).
Proof.
  intros C.
  destruct (C 2%nat two_beats "beats"%string) with (diagnostics := @nil diagnostic)
    (result := [(0%nat, 1 # 2, (3 # 2) - (1 # 2)); (1%nat, 3 # 2, 2 - (3 # 2))])
    as [Hlow _].
  - repeat constructor.
  - reflexivity.
  - repeat constructor; discriminate.
  - constructor.
  - repeat constructor; discriminate.
  - reflexivity.
  - vm_compute in Hlow. now apply Hlow.
Qed.

(** ** C8 *)

(** C8, as the code has it.  When the strategy is not "evenly" and the
    chosen source has fewer timestamps than there are scenes, the
    distribution prints the warning and returns the even split:
    [scene_count] allocations, scene [i] starting at
    [i * (total_duration / scene_count)] and lasting
    [total_duration / scene_count].  The durations add up to
    [total_duration] to within 1e-3 seconds; the float durations do not add
    up to it exactly, see [even_split_sum_is_not_exact]. *)
Theorem fallback_is_even_split (num_scenes : nat)
        (audio_analysis : AudioAnalysis) (strategy : string) :
  String.eqb strategy "evenly" = false ->
  (List.length (chosen_timings audio_analysis strategy) < num_scenes)%nat ->
  let total_duration := duration audio_analysis in
  let scene_duration := total_duration / inject_Z (Z.of_nat num_scenes) in
  exists result,
    distribute_scenes_to_timings num_scenes audio_analysis strategy
    = Ok ([TimingsFewerThanScenes
             (List.length (chosen_timings audio_analysis strategy)) num_scenes],
          result) /\
    distribute_scenes_to_timings num_scenes audio_analysis "evenly"
    = Ok ([], result) /\
    List.length result = num_scenes /\
    (forall i, (i < num_scenes)%nat ->
               nth_error result i
               = Some (i, inject_Z (Z.of_nat i) * scene_duration, scene_duration)) /\
    total_duration - (1 # 1000) <= total_of result /\
    total_of result <= total_duration + (1 # 1000).
Proof.
  intros Hs Hfew. cbv zeta.
  assert (1 <= num_scenes)%nat as Hn by lia.
  assert (0 < inject_Z (Z.of_nat num_scenes)) as Hpos
      by (apply inject_Z_pos; lia).
  exists (map (even_allocation num_scenes (duration audio_analysis))
              (seq 0 num_scenes)).
  split; [now apply distribute_fallback|].
  split; [now apply distribute_evenly|].
  split; [now rewrite length_map, length_seq|].
  split.
  - intros i Hi.
    rewrite nth_error_map, nth_error_seq.
    replace (i <? num_scenes)%nat with true by (symmetry; now apply Nat.ltb_lt).
    reflexivity.
  - rewrite total_of_evenly by assumption.
    split; lra.
Qed.

Lemma fallback_is_even_split_witness :
  exists result,
    distribute_scenes_to_timings 4 two_beats "auto"
    = Ok ([TimingsFewerThanScenes 3 4], result) /\
    List.length result = 4%nat /\
    2 - (1 # 1000) <= total_of result /\ total_of result <= 2 + (1 # 1000).
Proof.
  destruct (fallback_is_even_split 4 two_beats "auto")
    as (result & Hrun & _ & Hlen & _ & Hlow & Hhigh).
  - reflexivity.
  - simpl. lia.
  - exists result. repeat split; assumption.
Defined.

(** C8 as stated fails on the float durations.  With no beat, six scenes
    on the beats and a total duration of 1.0 the fallback gives every scene
    the float 1.0 / 6 = 0.16666666666666666; the six durations add up to
    less than 1.0, whether they are added as floats (0.9999999999999999) or
    as the rationals they stand for. *)
Lemma even_split_sum_is_not_exact :
  ~ (forall (num_scenes : nat) (audio_analysis : Binary64.AudioAnalysis)
            (strategy : string) diagnostics result,
        String.eqb strategy "evenly" = false ->
        (List.length (Binary64.chosen_timings audio_analysis strategy)
         < num_scenes)%nat ->
        Binary64.distribute_scenes_to_timings num_scenes audio_analysis strategy
        = Ok (diagnostics, result) ->
        Binary64.total_of result
        == Binary64.to_Q (Binary64.duration audio_analysis) \/
        PrimFloat.eqb (Binary64.float_total_of result)
                      (Binary64.duration audio_analysis) = true).
Proof.
  intros C.
  pose (analysis := {| Binary64.duration := Binary64.of_int 1;
                       Binary64.beats := [];
                       Binary64.onsets := [];
                       Binary64.scene_timings := [PrimFloat.zero] |}).
  destruct (Binary64.distribute_scenes_to_timings 6 analysis "beats")
    as [[diagnostics result]|e] eqn:Hrun.
  - destruct (C 6%nat analysis "beats"%string diagnostics result) as [Hsum|Hsum].
    + reflexivity.
    + simpl. lia.
    + exact Hrun.
    + vm_compute in Hrun. injection Hrun as <- <-.
      vm_compute in Hsum. discriminate.
    + vm_compute in Hrun. injection Hrun as <- <-.
      vm_compute in Hsum. discriminate.
  - vm_compute in Hrun. discriminate.
Qed.

(** ** Order of the selected timestamps *)

Lemma StronglySorted_nth {A : Type} (R : A -> A -> Prop) (l : list A) (d : A) :
  StronglySorted R l ->
  forall i j, (i < j)%nat -> (j < List.length l)%nat -> R (nth i l d) (nth j l d).
Proof.
  induction 1 as [|a l Hsorted IH Hall]; intros i j Hij Hj; simpl in Hj.
  - lia.
  - destruct j as [|j]; [lia|]. destruct i as [|i]; simpl.
    + rewrite Forall_forall in Hall. apply Hall, nth_In. lia.
    + apply IH; lia.
Qed.

Lemma StronglySorted_map_seq {A : Type} (R : A -> A -> Prop) (f : nat -> A)
      (start len : nat) :
  (forall i j, (start <= i)%nat -> (i < j)%nat -> (j < start + len)%nat ->
               R (f i) (f j)) ->
  StronglySorted R (map f (seq start len)).
Proof.
  revert start. induction len as [|len IH]; intros start HR; simpl.
  - constructor.
  - constructor.
    + apply IH. intros i j Hi Hij Hj. apply HR; lia.
    + rewrite Forall_forall. intros x Hx.
      apply in_map_iff in Hx. destruct Hx as (j & <- & Hj).
      apply in_seq in Hj. apply HR; lia.
Qed.

Section Selected.
Variables (timings : list Q) (num_scenes : nat).
Hypothesis enough : (num_scenes <= List.length timings)%nat.

Lemma selected_timing_In (i : nat) :
  (i < num_scenes)%nat -> In (selected_timing timings num_scenes i) timings.
Proof.
  intros Hi. unfold selected_timing. apply nth_In.
  pose proof (sample_index_range _ _ enough i Hi). lia.
Qed.

Lemma selected_timing_order (R : Q -> Q -> Prop) (i j : nat) :
  StronglySorted R timings ->
  (i < j)%nat -> (j < num_scenes)%nat ->
  R (selected_timing timings num_scenes i) (selected_timing timings num_scenes j).
Proof.
  intros Hsorted Hij Hj. unfold selected_timing.
  pose proof (sample_index_range _ _ enough i ltac:(lia)).
  pose proof (sample_index_range _ _ enough j Hj).
  pose proof (sample_index_increasing _ _ enough i j Hij Hj).
  apply StronglySorted_nth; [assumption | lia | lia].
Qed.
End Selected.

Lemma chosen_timings_sorted (R : Q -> Q -> Prop) (audio_analysis : AudioAnalysis)
      (strategy : string) :
  StronglySorted R (beats audio_analysis) ->
  StronglySorted R (onsets audio_analysis) ->
  StronglySorted R (scene_timings audio_analysis) ->
  StronglySorted R (chosen_timings audio_analysis strategy).
Proof.
  intros Hb Ho Hs. unfold chosen_timings.
  destruct (String.eqb strategy "beats"); [assumption|].
  destruct (String.eqb strategy "onsets"); assumption.
Qed.

(** ** C10 *)

(** C10.  For every strategy, sorted timestamp lists, a positive total
    duration and [scene_count >= 1], the distribution returns exactly
    [scene_count] records, their scene indices are 0, 1, ...,
    [scene_count - 1] in this order, and their start times are
    non-decreasing. *)
Theorem allocations_in_scene_order (num_scenes : nat)
        (audio_analysis : AudioAnalysis) (strategy : string) :
  (1 <= num_scenes)%nat ->
  0 < duration audio_analysis ->
  StronglySorted Qle (beats audio_analysis) ->
  StronglySorted Qle (onsets audio_analysis) ->
  StronglySorted Qle (scene_timings audio_analysis) ->
  exists diagnostics result,
    distribute_scenes_to_timings num_scenes audio_analysis strategy
    = Ok (diagnostics, result) /\
    List.length result = num_scenes /\
    map scene_index result = seq 0 num_scenes /\
    StronglySorted Qle (map start_time result).
Proof.
  intros Hn Hd Hb Ho Ht.
  destruct (distribute_cases num_scenes audio_analysis strategy Hn)
    as [(diagnostics & Hrun & _) | (Hrun & _ & Henough)];
    do 2 eexists; (split; [exact Hrun|]);
    rewrite length_map, length_seq, !map_map;
    unfold sampled_allocation, even_allocation, scene_index, start_time;
    cbn [fst snd];
    (split; [reflexivity|]); (split; [apply map_id|]).
  - apply StronglySorted_map_seq. intros i j _ Hij _.
    assert (0 < inject_Z (Z.of_nat num_scenes)) by (apply inject_Z_pos; lia).
    assert (0 < duration audio_analysis / inject_Z (Z.of_nat num_scenes))
      by (apply Qlt_shift_div_l; lra).
    apply Qmult_le_compat_r; [|lra].
    rewrite <- Zle_Qle. lia.
  - apply StronglySorted_map_seq. intros i j _ Hij Hj.
    apply selected_timing_order; try assumption.
    now apply chosen_timings_sorted.
Qed.

Lemma allocations_in_scene_order_witness :
  exists diagnostics result,
    distribute_scenes_to_timings 2 two_beats "beats" = Ok (diagnostics, result) /\
    List.length result = 2%nat /\
    map scene_index result = [0; 1]%nat /\
    StronglySorted Qle (map start_time result).
Proof.
  apply (allocations_in_scene_order 2 two_beats "beats").
  - repeat constructor.
  - reflexivity.
  - repeat constructor; discriminate.
  - constructor.
  - repeat constructor; discriminate.
Defined.

(** ** C6 *)

(** C6, as the code has it.  No minimum duration is enforced.  With
    [scene_count >= 1] and a positive total duration every allocation of the
    even split (the "evenly" strategy and the fallback) has a positive
    duration; every allocation of the sampling branch has a positive
    duration when the chosen timestamps are strictly increasing and all
    before the total duration. *)
Theorem durations_positive (num_scenes : nat) (audio_analysis : AudioAnalysis)
        (strategy : string) :
  (1 <= num_scenes)%nat ->
  0 < duration audio_analysis ->
  let timings := chosen_timings audio_analysis strategy in
  (String.eqb strategy "evenly" = false ->
   (num_scenes <= List.length timings)%nat ->
   StronglySorted Qlt timings /\
   Forall (fun t => t < duration audio_analysis) timings) ->
  exists diagnostics result,
    distribute_scenes_to_timings num_scenes audio_analysis strategy
    = Ok (diagnostics, result) /\
    Forall (fun a => 0 < scene_duration a) result.
Proof.
  intros Hn Hd. cbv zeta. intros Hvalid.
  destruct (distribute_cases num_scenes audio_analysis strategy Hn)
    as [(diagnostics & Hrun & _) | (Hrun & Hs & Henough)];
    do 2 eexists; (split; [exact Hrun|]);
    rewrite Forall_map, Forall_forall; intros i Hi; apply in_seq in Hi;
    unfold sampled_allocation, even_allocation, scene_duration; cbn [snd].
  - assert (0 < inject_Z (Z.of_nat num_scenes)) by (apply inject_Z_pos; lia).
    apply Qlt_shift_div_l; lra.
  - destruct (Hvalid Hs Henough) as [Hsorted Hbefore].
    destruct (Nat.ltb_spec (S i) num_scenes) as [Hnext|Hlast].
    + pose proof (selected_timing_order _ _ Henough Qlt i (S i) Hsorted
                    ltac:(lia) Hnext).
      lra.
    + rewrite Forall_forall in Hbefore.
      pose proof (Hbefore _ (selected_timing_In _ _ Henough i ltac:(lia))).
      lra.
Qed.

Lemma durations_positive_witness :
  exists diagnostics result,
    distribute_scenes_to_timings 2 two_beats "beats" = Ok (diagnostics, result) /\
    Forall (fun a => 0 < scene_duration a) result.
Proof.
  apply (durations_positive 2 two_beats "beats").
  - repeat constructor.
  - reflexivity.
  - intros _ _. split; repeat constructor.
Defined.

(** C6 as stated fails: with beats at 1.0 and 2.0, two scenes on the beats
    and a total duration of 2.0, the second scene starts at 2.0 and lasts
    0.0 seconds. *)
Lemma last_scene_without_duration :
  ~ (forall (num_scenes : nat) (audio_analysis : AudioAnalysis) (strategy : string),
        (1 <= num_scenes)%nat ->
        0 < duration audio_analysis ->
        StronglySorted Qle (beats audio_analysis) ->
        StronglySorted Qle (onsets audio_analysis) ->
        StronglySorted Qle (scene_timings audio_analysis) ->
        forall diagnostics result,
          distribute_scenes_to_timings num_scenes audio_analysis strategy
          = Ok (diagnostics, result) ->
          Forall (fun a => 0 < scene_duration a) result).
Proof.
  intros C.
  pose proof (C 2%nat beat_at_the_end "beats"%string) as Hall.
  specialize (Hall ltac:(repeat constructor) eq_refl).
  specialize (Hall ltac:(repeat constructor; discriminate)
                   ltac:(constructor)
                   ltac:(repeat constructor; discriminate)).
  specialize (Hall [] [(0%nat, 1, 2 - 1); (1%nat, 2, 2 - 2)] eq_refl).
  inversion Hall as [|? ? _ Hrest]; subst.
  inversion Hrest as [|? ? Hlast _]; subst.
  vm_compute in Hlast. discriminate.
Qed.

(** ** C7 *)





(** * Further properties of the code *)

(** ** modules/utils.py: [clamp] *)

(** X1.  With [min_value <= max_value], [clamp] returns a value of the
    range, returns the value itself when it is in the range, is monotone in
    the value and idempotent.  With the bounds the other way round it
    returns [min_value] whatever the value. *)
Theorem clamp_contract (value min_value max_value : Q) :
  (min_value <= max_value ->
   min_value <= clamp value min_value max_value /\
   clamp value min_value max_value <= max_value /\
   (min_value <= value -> value <= max_value ->
    clamp value min_value max_value == value) /\
   (forall value', value <= value' ->
                   clamp value min_value max_value
                   <= clamp value' min_value max_value) /\
   clamp (clamp value min_value max_value) min_value max_value
   == clamp value min_value max_value) /\
  (max_value <= min_value -> clamp value min_value max_value = min_value).
Proof.
  split.
  - intros Hle.
    destruct (clamp_bounds value min_value max_value Hle) as [B1 B2].
    split; [exact B1|]. split; [exact B2|].
    split; [apply clamp_inside|]. split.
    + intros value' Hvv. unfold clamp, py_max, py_min.
      destruct (Qltb_spec value max_value), (Qltb_spec value' max_value);
      repeat match goal with
             | |- context [if Qltb ?a ?b then _ else _] =>
                 destruct (Qltb_spec a b)
             end; lra.
    + now apply clamp_inside.
  - apply clamp_empty_range.
Qed.

Lemma clamp_contract_witness :
  clamp (3 # 2) 0 1 <= 1 /\ clamp (3 # 2) 1 0 = 1.
Proof.
  destruct (clamp_contract (3 # 2) 0 1) as [Hrange _].
  destruct (clamp_contract (3 # 2) 1 0) as [_ Hinverted].
  split.
  - apply Hrange. discriminate.
  - apply Hinverted. discriminate.
Defined.

(** ** modules/utils.py: [calculate_aspect_ratio_fit] *)

(** Comparing two ratios of integers is comparing the cross products. *)
Lemma ratio_lt_cross (a b c d : Z) :
  (0 < b)%Z -> (0 < d)%Z ->
  (inject_Z a / inject_Z b < inject_Z c / inject_Z d <-> (a * d < c * b)%Z).
Proof.
  intros Hb Hd.
  pose proof (inject_Z_pos _ Hb) as Hb'. pose proof (inject_Z_pos _ Hd) as Hd'.
  rewrite Zlt_Qlt, !inject_Z_mult.
  assert (inject_Z a / inject_Z b * inject_Z b == inject_Z a) as Ea
      by (field; lra).
  assert (inject_Z c / inject_Z d * inject_Z d == inject_Z c) as Ec
      by (field; lra).
  set (p := inject_Z a / inject_Z b) in *.
  set (q := inject_Z c / inject_Z d) in *.
  rewrite <- Ea, <- Ec. split; intros Hlt.
  - assert (p * (inject_Z b * inject_Z d) < q * (inject_Z b * inject_Z d))
      by (apply Qmult_lt_compat_r; [apply Qmult_lt_0_compat|]; assumption).
    lra.
  - destruct (Qlt_le_dec p q) as [|Hge]; [assumption|].
    assert (q * (inject_Z b * inject_Z d) <= p * (inject_Z b * inject_Z d))
      by (apply Qmult_le_compat_r;
          [assumption | apply Qlt_le_weak, Qmult_lt_0_compat; assumption]).
    lra.
Qed.

(** For positive sizes the fit returns, and its result is an integer
    division. *)
Lemma aspect_ratio_fit_closed (source_width source_height
                                target_width target_height : Z) :
  (0 < source_width)%Z -> (0 < source_height)%Z ->
  (0 < target_width)%Z -> (0 < target_height)%Z ->
  calculate_aspect_ratio_fit (source_width, source_height)
                             (target_width, target_height)
  = Ok (if (target_width * source_height <? source_width * target_height)%Z
        then (target_width, target_width * source_height / source_width)
        else (target_height * source_width / source_height, target_height))%Z.
Proof.
  intros Hsw Hsh Htw Hth. unfold calculate_aspect_ratio_fit.
  pose proof (inject_Z_pos _ Hsw) as Hsw'. pose proof (inject_Z_pos _ Hsh) as Hsh'.
  pose proof (inject_Z_pos _ Htw) as Htw'. pose proof (inject_Z_pos _ Hth) as Hth'.
  pose proof (ratio_pos _ _ Hsw Hsh) as Hs. pose proof (ratio_pos _ _ Htw Hth) as Ht.
  rewrite !truediv_nonzero by lra. cbn [bind].
  destruct (Qltb_spec (inject_Z target_width / inject_Z target_height)
                      (inject_Z source_width / inject_Z source_height))
    as [Hwide|Htall].
  - rewrite truediv_nonzero by lra. cbn [bind].
    apply (ratio_lt_cross target_width target_height
                          source_width source_height Hth Hsh) in Hwide.
    destruct (Z.ltb_spec (target_width * source_height)
                         (source_width * target_height)); [|lia].
    rewrite int_of_float_nonneg
      by (apply Qle_shift_div_l; [assumption | lra]).
    do 2 f_equal. apply Qfloor_sample; [assumption|]. field. lra.
  - rewrite (ratio_lt_cross target_width target_height
                            source_width source_height Hth Hsh) in Htall.
    destruct (Z.ltb_spec (target_width * source_height)
                         (source_width * target_height)); [lia|].
    rewrite int_of_float_nonneg
      by (apply Qmult_le_0_compat; lra).
    do 2 f_equal. apply Qfloor_sample; [assumption|]. field. lra.
Qed.

Lemma aspect_ratio_fit_inside_target_bounds (source_width source_height
                                             target_width target_height : Z) :
  (0 < source_width)%Z -> (0 < source_height)%Z ->
  (0 < target_width)%Z -> (0 < target_height)%Z ->
  exists new_width new_height,
    calculate_aspect_ratio_fit (source_width, source_height)
                               (target_width, target_height)
    = Ok (new_width, new_height) /\
    (0 <= new_width <= target_width)%Z /\
    (0 <= new_height <= target_height)%Z.
Proof.
  intros Hsw Hsh Htw Hth.
  rewrite aspect_ratio_fit_closed by assumption.
  destruct (Z.ltb_spec (target_width * source_height)
                       (source_width * target_height)) as [Hwide|Htall];
    do 2 eexists; (split; [reflexivity|]).
  - assert (0 <= target_width * source_height / source_width)%Z
      by (apply Z.div_pos; nia).
    assert (target_width * source_height / source_width <= target_height)%Z
      by (apply Z.div_le_upper_bound; nia).
    lia.
  - assert (0 <= target_height * source_width / source_height)%Z
      by (apply Z.div_pos; nia).
    assert (target_height * source_width / source_height <= target_width)%Z
      by (apply Z.div_le_upper_bound; nia).
    lia.
Qed.

(** X2.  For positive sizes [calculate_aspect_ratio_fit] returns a size that
    fits the target and touches it: when the source is proportionally wider
    than the target the width is the target's, otherwise the height is; the
    other dimension is what keeps the source ratio to within one pixel,
    never above it, and is not larger than the target's. *)
Theorem aspect_ratio_fit_inside_target (source_width source_height
                                        target_width target_height : Z) :
  (0 < source_width)%Z -> (0 < source_height)%Z ->
  (0 < target_width)%Z -> (0 < target_height)%Z ->
  exists new_width new_height,
    calculate_aspect_ratio_fit (source_width, source_height)
                               (target_width, target_height)
    = Ok (new_width, new_height) /\
    (0 <= new_width <= target_width)%Z /\
    (0 <= new_height <= target_height)%Z /\
    ((target_width * source_height < source_width * target_height)%Z ->
     new_width = target_width /\
     (target_width * source_height - source_width
      <= new_height * source_width <= target_width * source_height)%Z) /\
    ((source_width * target_height <= target_width * source_height)%Z ->
     new_height = target_height /\
     (target_height * source_width - source_height
      <= new_width * source_height <= target_height * source_width)%Z).
Proof.
  intros Hsw Hsh Htw Hth.
  rewrite aspect_ratio_fit_closed by assumption.
  destruct (Z.ltb_spec (target_width * source_height)
                       (source_width * target_height)) as [Hwide|Htall];
    do 2 eexists; (split; [reflexivity|]).
  - pose proof (Z.mul_div_le (target_width * source_height) source_width Hsw).
    pose proof (Z.mul_succ_div_gt (target_width * source_height) source_width
                                  Hsw).
    assert (0 <= target_width * source_height / source_width)%Z
      by (apply Z.div_pos; nia).
    assert (target_width * source_height / source_width <= target_height)%Z
      by (apply Z.div_le_upper_bound; nia).
    repeat split; lia.
  - pose proof (Z.mul_div_le (target_height * source_width) source_height Hsh).
    pose proof (Z.mul_succ_div_gt (target_height * source_width) source_height
                                  Hsh).
    assert (0 <= target_height * source_width / source_height)%Z
      by (apply Z.div_pos; nia).
    assert (target_height * source_width / source_height <= target_width)%Z
      by (apply Z.div_le_upper_bound; nia).
    repeat split; lia.
Qed.

Lemma aspect_ratio_fit_inside_target_witness :
  exists new_width new_height,
    calculate_aspect_ratio_fit (4000, 3000)%Z (1080, 1920)%Z
    = Ok (new_width, new_height) /\
    (0 <= new_width <= 1080)%Z /\ (0 <= new_height <= 1920)%Z.
Proof.
  destruct (aspect_ratio_fit_inside_target 4000 3000 1080 1920)
    as (new_width & new_height & Hrun & Hw & Hh & _); try reflexivity.
  exists new_width, new_height. split; [exact Hrun|]. split; assumption.
Defined.

(** X3.  On sizes without a negative component [calculate_aspect_ratio_fit]
    raises, a [ZeroDivisionError], exactly when the source height or the
    target height is zero. *)
Theorem aspect_ratio_fit_raises (source_width source_height
                                 target_width target_height : Z) :
  (0 <= source_width)%Z -> (0 <= source_height)%Z ->
  (0 <= target_width)%Z -> (0 <= target_height)%Z ->
  (calculate_aspect_ratio_fit (source_width, source_height)
                              (target_width, target_height)
   = Raise ZeroDivisionError
   <-> source_height = 0%Z \/ target_height = 0%Z) /\
  ((0 < source_height)%Z -> (0 < target_height)%Z ->
   exists new_size,
     calculate_aspect_ratio_fit (source_width, source_height)
                                (target_width, target_height)
     = Ok new_size).
Proof.
  intros Hsw Hsh Htw Hth.
  assert ((0 < source_height)%Z -> (0 < target_height)%Z ->
          exists new_size,
            calculate_aspect_ratio_fit (source_width, source_height)
                                       (target_width, target_height)
            = Ok new_size) as Hreturns.
  { intros Hsh' Hth'. unfold calculate_aspect_ratio_fit.
    pose proof (inject_Z_pos _ Hsh') as Hq1. pose proof (inject_Z_pos _ Hth') as Hq2.
    assert (0 <= inject_Z target_width / inject_Z target_height) as Ht.
    { apply Qle_shift_div_l; [assumption|]. rewrite Qmult_0_l.
      rewrite Zle_Qle in Htw. exact Htw. }
    rewrite !truediv_nonzero by lra. cbn [bind].
    destruct (Qltb_spec (inject_Z target_width / inject_Z target_height)
                        (inject_Z source_width / inject_Z source_height)).
    - rewrite truediv_nonzero by lra. cbn [bind]. eauto.
    - eauto. }
  split; [|exact Hreturns]. split.
  - intros Hraise.
    destruct (Z.eq_dec source_height 0) as [|Hs]; [now left|].
    destruct (Z.eq_dec target_height 0) as [|Ht]; [now right|].
    destruct Hreturns as [new_size Hok]; try lia. congruence.
  - intros [-> | ->]; unfold calculate_aspect_ratio_fit.
    + now rewrite truediv_zero.
    + destruct (Z.eq_dec source_height 0) as [->|Hs].
      * now rewrite truediv_zero.
      * rewrite truediv_nonzero.
        -- cbn [bind]. now rewrite truediv_zero.
        -- intros Hzero. apply Hs.
           apply (proj1 (inject_Z_injective source_height 0)). exact Hzero.
Qed.

Lemma aspect_ratio_fit_raises_witness :
  calculate_aspect_ratio_fit (4, 0)%Z (1080, 1920)%Z = Raise ZeroDivisionError.
Proof.
  destruct (aspect_ratio_fit_raises 4 0 1080 1920) as [[_ Hraise] _];
    try discriminate.
  apply Hraise. now left.
Defined.

(** ** modules/image_processor.py: the museum view *)

Lemma museum_size_unfold (video_width video_height : Z) (img_size : Z * Z) :
  _calculate_museum_image_size video_width video_height img_size
  = calculate_aspect_ratio_fit img_size (video_width - 200, video_height - 550)%Z.
Proof.
  destruct img_size as [img_width img_height].
  unfold _calculate_museum_image_size, calculate_aspect_ratio_fit.
  destruct (truediv (inject_Z img_width) (inject_Z img_height)); reflexivity.
Qed.

(** X4.  The size of the image in the museum view is the aspect-ratio fit of
    [modules/utils.py] into the canvas less the padding and the text height:
    the two functions agree on every input, the raised error included. *)
Theorem museum_size_is_aspect_ratio_fit (video_width video_height : Z)
        (img_size : Z * Z) :
  _calculate_museum_image_size video_width video_height img_size
  = calculate_aspect_ratio_fit
      img_size
      (video_width - DEFAULT_MUSEUM_PADDING,
       video_height - DEFAULT_MUSEUM_TEXT_HEIGHT)%Z.
Proof.
  apply museum_size_unfold.
Qed.

(** X5.  On a canvas wider than the padding and higher than the text height
    the museum view places an image of positive dimensions at least 100
    pixels from the left and right edges, centred to within a pixel, not
    above the top of the canvas and entirely above the 550 pixels kept for
    the text. *)
Theorem museum_image_on_canvas (video_width video_height img_width img_height : Z) :
  (DEFAULT_MUSEUM_PADDING < video_width)%Z ->
  (DEFAULT_MUSEUM_TEXT_HEIGHT < video_height)%Z ->
  (0 < img_width)%Z -> (0 < img_height)%Z ->
  exists new_width new_height x y,
    _calculate_museum_image_size video_width video_height (img_width, img_height)
    = Ok (new_width, new_height) /\
    _calculate_museum_image_position video_width video_height
                                     (new_width, new_height)
    = (x, y) /\
    (0 <= new_width)%Z /\ (0 <= new_height)%Z /\
    (100 <= x)%Z /\ (x + new_width <= video_width - 100)%Z /\
    (0 <= video_width - new_width - 2 * x <= 1)%Z /\
    (0 <= y)%Z /\
    (y + new_height <= video_height - DEFAULT_MUSEUM_TEXT_HEIGHT)%Z.
Proof.
  unfold DEFAULT_MUSEUM_PADDING, DEFAULT_MUSEUM_TEXT_HEIGHT.
  intros Hvw Hvh Hiw Hih.
  rewrite museum_size_unfold.
  destruct (aspect_ratio_fit_inside_target_bounds
              img_width img_height (video_width - 200) (video_height - 550))
    as (new_width & new_height & Hrun & Hw & Hh); try lia.
  exists new_width, new_height,
    ((video_width - new_width) / 2)%Z,
    ((video_height - new_height - 550) / 2)%Z.
  split; [exact Hrun|]. split; [reflexivity|].
  pose proof (Z.div_mod (video_width - new_width) 2 ltac:(lia)) as Dx.
  pose proof (Z.mod_pos_bound (video_width - new_width) 2 ltac:(lia)) as Mx.
  pose proof (Z.div_mod (video_height - new_height - 550) 2 ltac:(lia)) as Dy.
  pose proof (Z.mod_pos_bound (video_height - new_height - 550) 2 ltac:(lia)) as My.
  repeat split; lia.
Qed.

Lemma museum_image_on_canvas_witness :
  exists new_width new_height x y,
    _calculate_museum_image_size 1080 1920 (4000, 3000)%Z
    = Ok (new_width, new_height) /\
    _calculate_museum_image_position 1080 1920 (new_width, new_height) = (x, y) /\
    (100 <= x)%Z /\ (0 <= y)%Z /\ (y + new_height <= 1920 - 550)%Z.
Proof.
  destruct (museum_image_on_canvas 1080 1920 4000 3000)
    as (new_width & new_height & x & y & Hsize & Hpos & _ & _ & Hx & _ & _ & Hy & Hbottom);
    try reflexivity.
  exists new_width, new_height, x, y.
  split; [exact Hsize|]. split; [exact Hpos|].
  split; [exact Hx|]. split; [exact Hy | exact Hbottom].
Defined.

(** ** modules/audio_analyzer.py: further properties of the distribution *)

Lemma nth_error_map_seq {A : Type} (f : nat -> A) (n i : nat) (a : A) :
  nth_error (map f (seq 0 n)) i = Some a -> (i < n)%nat /\ a = f i.
Proof.
  rewrite nth_error_map, nth_error_seq.
  destruct (Nat.ltb_spec i n); [|discriminate].
  cbn. intros [= <-]. now split.
Qed.

(** X6.  For every strategy and at least one scene the allocations are
    contiguous to within 1e-3 seconds: each scene ends where the next one
    starts, and the last scene ends at the total duration. *)
Theorem allocations_contiguous (num_scenes : nat)
        (audio_analysis : AudioAnalysis) (strategy : string) :
  (1 <= num_scenes)%nat ->
  exists diagnostics result,
    distribute_scenes_to_timings num_scenes audio_analysis strategy
    = Ok (diagnostics, result) /\
    (forall i a b,
        nth_error result i = Some a -> nth_error result (S i) = Some b ->
        start_time b - (1 # 1000) <= start_time a + scene_duration a /\
        start_time a + scene_duration a <= start_time b + (1 # 1000)) /\
    (forall a,
        nth_error result (num_scenes - 1) = Some a ->
        duration audio_analysis - (1 # 1000)
        <= start_time a + scene_duration a /\
        start_time a + scene_duration a
        <= duration audio_analysis + (1 # 1000)).
Proof.
  intros Hn.
  assert (forall v w : Q, v == w ->
                          w - (1 # 1000) <= v /\ v <= w + (1 # 1000)) as Hclose
      by (intros v w ->; split; lra).
  destruct (distribute_cases num_scenes audio_analysis strategy Hn)
    as [(diagnostics & Hrun & _) | (Hrun & _ & _)];
    do 2 eexists; (split; [exact Hrun|]); split.
  - intros i a b Ha Hb. apply Hclose.
    apply nth_error_map_seq in Ha. apply nth_error_map_seq in Hb.
    destruct Ha as [_ ->]. destruct Hb as [_ ->].
    unfold even_allocation, start_time, scene_duration. cbn [fst snd].
    rewrite Nat2Z.inj_succ. unfold Z.succ. rewrite inject_Z_plus.
    change (inject_Z 1) with 1. ring.
  - intros a Ha. apply Hclose.
    apply nth_error_map_seq in Ha. destruct Ha as [_ ->].
    unfold even_allocation, start_time, scene_duration. cbn [fst snd].
    replace (Z.of_nat (num_scenes - 1)) with (Z.of_nat num_scenes - 1)%Z by lia.
    assert (0 < inject_Z (Z.of_nat num_scenes)) by (apply inject_Z_pos; lia).
    unfold Z.sub. rewrite inject_Z_plus. change (inject_Z (- (1))) with (- (1)).
    field. lra.
  - intros i a b Ha Hb. apply Hclose.
    apply nth_error_map_seq in Ha. apply nth_error_map_seq in Hb.
    destruct Ha as [_ ->]. destruct Hb as [Hi ->].
    unfold sampled_allocation, start_time, scene_duration. cbn [fst snd].
    replace (S i <? num_scenes)%nat with true
      by (symmetry; now apply Nat.ltb_lt).
    ring.
  - intros a Ha. apply Hclose.
    apply nth_error_map_seq in Ha. destruct Ha as [_ ->].
    unfold sampled_allocation, start_time, scene_duration. cbn [fst snd].
    replace (S (num_scenes - 1) <? num_scenes)%nat with false
      by (symmetry; apply Nat.ltb_ge; lia).
    ring.
Qed.

Lemma allocations_contiguous_witness :
  exists diagnostics result,
    distribute_scenes_to_timings 2 two_beats "beats" = Ok (diagnostics, result) /\
    (forall a, nth_error result (2 - 1) = Some a ->
               duration two_beats - (1 # 1000)
               <= start_time a + scene_duration a /\
               start_time a + scene_duration a
               <= duration two_beats + (1 # 1000)).
Proof.
  destruct (allocations_contiguous 2 two_beats "beats")
    as (diagnostics & result & Hrun & _ & Hlast).
  - repeat constructor.
  - exists diagnostics, result. split; [exact Hrun | exact Hlast].
Defined.

(** X7.  With no scene to place the "evenly" strategy raises a
    [ZeroDivisionError], while every other strategy returns an empty list
    without a warning. *)
Theorem no_scenes (audio_analysis : AudioAnalysis) (strategy : string) :
  distribute_scenes_to_timings 0 audio_analysis "evenly"
  = Raise ZeroDivisionError /\
  (String.eqb strategy "evenly" = false ->
   distribute_scenes_to_timings 0 audio_analysis strategy = Ok ([], [])).
Proof.
  split.
  - reflexivity.
  - intros Hs. unfold distribute_scenes_to_timings. rewrite Hs.
    cbv zeta.
    replace (List.length (chosen_timings audio_analysis strategy) <? 0)%nat
      with false by (symmetry; apply Nat.ltb_ge; lia).
    rewrite linspace_int_closed. reflexivity.
Qed.

Lemma no_scenes_witness :
  distribute_scenes_to_timings 0 two_beats "beats" = Ok ([], []).
Proof.
  destruct (no_scenes two_beats "beats") as [_ Hother].
  apply Hother. reflexivity.
Defined.

(** ** modules/audio_analyzer.py: further properties of the timeline *)

Lemma sorted_set_In (x : Q) (l : list Q) : In x (sorted_set l) -> In x l.
Proof.
  induction l as [|t l IH]; simpl; [tauto|].
  intros Hin. destruct (insert_uniq_In _ _ _ Hin) as [->|Hin']; auto.
Qed.

Lemma insert_uniq_keeps (t x : Q) (l : list Q) :
  In x l -> In x (insert_uniq t l).
Proof.
  induction l as [|u l IH]; simpl; [tauto|].
  destruct (t ?= u); simpl; tauto.
Qed.

Lemma insert_uniq_has (t : Q) (l : list Q) :
  exists u, In u (insert_uniq t l) /\ u == t.
Proof.
  induction l as [|v l IH]; simpl.
  - exists t. split; [now left | reflexivity].
  - destruct (Qcompare_spec t v) as [Heq|Hlt|Hgt].
    + exists v. split; [now left | now symmetry].
    + exists t. split; [now left | reflexivity].
    + destruct IH as (u & Hu & Heq). exists u. split; [now right | exact Heq].
Qed.

(** Every value of the list is in [sorted(set(l))], up to the equality of
    numbers. *)
Lemma sorted_set_has (x : Q) (l : list Q) :
  In x l -> exists u, In u (sorted_set l) /\ u == x.
Proof.
  induction l as [|t l IH]; simpl; [tauto|].
  intros [->|Hin].
  - apply insert_uniq_has.
  - destruct (IH Hin) as (u & Hu & Heq).
    exists u. split; [now apply insert_uniq_keeps | exact Heq].
Qed.

(** From [last_time = - min_interval] the loop skips the negative values and
    keeps the first value that is not negative. *)
Lemma kept_from_start (min_interval : Q) (times : list Q) :
  StronglySorted Qlt times ->
  match kept min_interval (- min_interval) times with
  | [] => forall u, In u times -> u < 0
  | first :: _ => 0 <= first /\ forall u, In u times -> 0 <= u -> first <= u
  end.
Proof.
  induction 1 as [|time rest Hsorted IH Hall]; simpl.
  - tauto.
  - destruct (Qle_bool min_interval (time - - min_interval)) eqn:E.
    + apply Qle_bool_iff in E. split; [lra|].
      rewrite Forall_forall in Hall.
      intros u [<-|Hu] _; [lra|]. specialize (Hall u Hu). lra.
    + assert (time < 0) as Hneg.
      { apply Qnot_le_lt. intros Hle.
        assert (Qle_bool min_interval (time - - min_interval) = true)
          by (apply Qle_bool_iff; lra).
        congruence. }
      destruct (kept min_interval (- min_interval) rest) as [|first tail].
      * intros u [<-|Hu]; auto.
      * destruct IH as [Hfirst Hmin]. split; [assumption|].
        intros u [<-|Hu] Hnn; [lra | auto].
Qed.

(** The timeline in terms of what the loop keeps. *)
Lemma scene_timings_unfold (min_scene_interval : option Q)
      (beats onsets : list Q) (duration : Q) :
  let min_interval := get_min_scene_interval min_scene_interval in
  let filtered_timings :=
    kept min_interval (- min_interval) (sorted_set (beats ++ onsets)) in
  _calculate_scene_timings min_scene_interval beats onsets duration
  = match filtered_timings with
    | [] => [0]
    | first :: _ =>
        if Qltb (1 # 10) first then 0 :: filtered_timings else filtered_timings
    end.
Proof.
  cbv zeta. unfold _calculate_scene_timings.
  set (min_interval := get_min_scene_interval min_scene_interval).
  pose proof (filter_loop_kept min_interval (sorted_set (beats ++ onsets))
                [] (- min_interval)) as Hloop.
  destruct (fold_left (filter_step min_interval) (sorted_set (beats ++ onsets))
                      ([], - min_interval)) as [filtered_timings last_time].
  simpl in Hloop. subst filtered_timings.
  now destruct (kept min_interval (- min_interval) (sorted_set (beats ++ onsets))).
Qed.

(** What the loop drops it drops for a cause: a value of the sorted list
    is kept, or less than [min_interval] after [last_time], or less than
    [min_interval] after a kept value before it. *)
Lemma kept_covers (min_interval : Q) (times : list Q) :
  StronglySorted Qlt times ->
  forall (last_time u : Q),
    In u times ->
    In u (kept min_interval last_time times) \/
    u - last_time < min_interval \/
    exists k, In k (kept min_interval last_time times) /\
              k < u /\ u - k < min_interval.
Proof.
  induction 1 as [|time rest Hsorted IH Hall]; intros last_time u Hu;
    [destruct Hu|].
  rewrite Forall_forall in Hall. simpl.
  destruct (Qle_bool min_interval (time - last_time)) eqn:E.
  - destruct Hu as [<-|Hu]; [left; now left|].
    destruct (IH time u Hu) as [Hkept|[Hclose|(k & Hk & Hlt & Hclose)]].
    + left. now right.
    + right. right. exists time. split; [now left|]. split; [now apply Hall|].
      exact Hclose.
    + right. right. exists k. split; [now right|]. split; assumption.
  - assert (time - last_time < min_interval) as Hdrop.
    { apply Qnot_le_lt. intros Hle. apply Qle_bool_iff in Hle. congruence. }
    destruct Hu as [<-|Hu]; [right; now left|].
    apply IH. exact Hu.
Qed.

(** X8.  The timeline invents no timestamp and drops none without a cause.
    Each of its elements is a beat, an onset or the 0.0 put in front; and
    every beat and every onset is in the timeline, or is negative, or comes
    less than [min_interval] after an element of the timeline. *)
Theorem scene_timings_members (min_scene_interval : option Q)
        (beats onsets : list Q) (duration : Q) :
  let timeline :=
    _calculate_scene_timings min_scene_interval beats onsets duration in
  let min_interval := get_min_scene_interval min_scene_interval in
  (forall t, In t timeline -> t = 0 \/ In t beats \/ In t onsets) /\
  (forall u, In u (beats ++ onsets) ->
             (exists k, In k timeline /\ k == u) \/
             u < 0 \/
             exists k, In k timeline /\ k < u /\ u - k < min_interval).
Proof.
  cbv zeta. rewrite scene_timings_unfold. cbv zeta.
  set (min_interval := get_min_scene_interval min_scene_interval).
  pose proof (sorted_set_sorted (beats ++ onsets)) as Hsorted.
  pose proof (kept_covers min_interval _ Hsorted (- min_interval)) as Hcovers.
  assert (forall u,
             In u (kept min_interval (- min_interval)
                        (sorted_set (beats ++ onsets))) ->
             In u beats \/ In u onsets) as Hfrom.
  { intros u Hu. apply in_app_or. eapply sorted_set_In, kept_In. exact Hu. }
  set (filtered_timings :=
         kept min_interval (- min_interval) (sorted_set (beats ++ onsets))) in *.
  assert (forall k, In k filtered_timings ->
                    In k match filtered_timings with
                         | [] => [0]
                         | first :: _ =>
                             if Qltb (1 # 10) first
                             then 0 :: filtered_timings
                             else filtered_timings
                         end) as Hin.
  { intros k Hk. destruct filtered_timings as [|first rest]; [destruct Hk|].
    destruct (Qltb (1 # 10) first); [now right | assumption]. }
  split.
  - intros t Ht. destruct filtered_timings as [|first rest].
    + destruct Ht as [<-|[]]. now left.
    + destruct (Qltb (1 # 10) first).
      * destruct Ht as [<-|Ht]; [now left | right; now apply Hfrom].
      * right. now apply Hfrom.
  - intros u Hu.
    destruct (sorted_set_has _ _ Hu) as (u' & Hu' & Heq).
    destruct (Hcovers u' Hu') as [Hkept|[Hclose|(k & Hk & Hlt & Hclose)]].
    + left. exists u'. split; [now apply Hin | exact Heq].
    + right. left. lra.
    + right. right. exists k. split; [now apply Hin|]. split; lra.
Qed.

Lemma scene_timings_members_witness :
  (1 # 4 = 0 \/ In (1 # 4) [1 # 4] \/ In (1 # 4) []) /\
  ((exists k, In k (_calculate_scene_timings None [1 # 4] [] 2) /\ k == 1 # 4) \/
   1 # 4 < 0 \/
   exists k, In k (_calculate_scene_timings None [1 # 4] [] 2) /\
             k < 1 # 4 /\ (1 # 4) - k < 1 # 2).
Proof.
  destruct (scene_timings_members None [1 # 4] [] 2) as [Hfrom Hcovers].
  split.
  - apply Hfrom. right. now left.
  - apply Hcovers. now left.
Defined.

(** X9.  When no beat and no onset is negative and one of them lies within
    the first 0.1 seconds, nothing is put in front: the timeline starts with
    the earliest beat or onset and holds beats and onsets only. *)
Theorem scene_timings_start_kept (min_scene_interval : option Q)
        (beats onsets : list Q) (duration : Q) (early : Q) :
  Forall (fun t => 0 <= t) (beats ++ onsets) ->
  In early (beats ++ onsets) -> early <= 1 # 10 ->
  exists first rest,
    _calculate_scene_timings min_scene_interval beats onsets duration
    = first :: rest /\
    (In first beats \/ In first onsets) /\
    first <= early /\
    (forall u, In u (beats ++ onsets) -> first <= u) /\
    (forall t, In t rest -> In t beats \/ In t onsets).
Proof.
  intros Hall Hin Hearly. rewrite Forall_forall in Hall.
  rewrite scene_timings_unfold. cbv zeta.
  set (min_interval := get_min_scene_interval min_scene_interval).
  pose proof (sorted_set_sorted (beats ++ onsets)) as Hsorted.
  pose proof (kept_from_start min_interval _ Hsorted) as Hstart.
  assert (forall u,
             In u (kept min_interval (- min_interval)
                        (sorted_set (beats ++ onsets))) ->
             In u beats \/ In u onsets) as Hfrom.
  { intros u Hu. apply in_app_or. eapply sorted_set_In, kept_In. exact Hu. }
  destruct (sorted_set_has _ _ Hin) as (early' & Hearly' & Heq).
  assert (forall u u', In u (beats ++ onsets) -> u' == u -> 0 <= u') as Hnn
      by (intros u u' Hu ->; now apply Hall).
  destruct (kept min_interval (- min_interval) (sorted_set (beats ++ onsets)))
    as [|first rest].
  - specialize (Hstart early' Hearly'). specialize (Hnn early early' Hin Heq).
    lra.
  - destruct Hstart as [Hfirst Hmin].
    assert (first <= early) as Hle
        by (rewrite <- Heq; apply Hmin; [assumption | now apply (Hnn early)]).
    destruct (Qltb_spec (1 # 10) first) as [Hlate|_]; [lra|].
    exists first, rest. split; [reflexivity|].
    split; [apply Hfrom; now left|]. split; [assumption|].
    split.
    + intros u Hu.
      destruct (sorted_set_has _ _ Hu) as (u' & Hu' & Hequ).
      rewrite <- Hequ. apply Hmin; [assumption | now apply (Hnn u)].
    + intros t Ht. apply Hfrom. now right.
Qed.

Lemma scene_timings_start_kept_witness :
  exists first rest,
    _calculate_scene_timings None [1 # 16; 1] [2] 3 = first :: rest /\
    first <= 1 # 16.
Proof.
  destruct (scene_timings_start_kept None [1 # 16; 1] [2] 3 (1 # 16))
    as (first & rest & Hrun & _ & Hle & _).
  - repeat constructor; discriminate.
  - now left.
  - discriminate.
  - exists first, rest. split; [exact Hrun | exact Hle].
Defined.

(** The timeline is strictly increasing and starts between 0 and 0.1. *)
Lemma scene_timings_increasing (min_scene_interval : option Q)
      (beats onsets : list Q) (duration : Q) :
  let timeline :=
    _calculate_scene_timings min_scene_interval beats onsets duration in
  StronglySorted Qlt timeline /\
  0 <= nth 0 timeline 0 /\ nth 0 timeline 0 <= 1 # 10.
Proof.
  cbv zeta. rewrite scene_timings_unfold. cbv zeta.
  set (min_interval := get_min_scene_interval min_scene_interval).
  pose proof (sorted_set_sorted (beats ++ onsets)) as Hsorted.
  pose proof (kept_from_start min_interval _ Hsorted) as Hstart.
  pose proof (kept_sorted min_interval _ (- min_interval) Hsorted) as Hinc.
  destruct (kept min_interval (- min_interval) (sorted_set (beats ++ onsets)))
    as [|first rest].
  - split; [repeat constructor|]. split; discriminate.
  - destruct Hstart as [Hfirst _].
    destruct (Qltb_spec (1 # 10) first) as [Hlate|Hearly].
    + split; [|split; discriminate].
      constructor; [assumption|]. constructor; [lra|].
      apply StronglySorted_inv in Hinc. destruct Hinc as [_ Hall].
      rewrite Forall_forall in *. intros u Hu. specialize (Hall u Hu). lra.
    + split; [assumption|]. simpl. split; [assumption | lra].
Qed.

(** X10.  On the analysis [analyze] returns, with a positive duration and at
    least one scene, the "auto" strategy (every strategy that is not
    "evenly", "beats" or "onsets") needs no assumption on the beats and
    onsets: the start times never decrease, every scene before the last has
    a positive duration, and the durations add up to the total duration less
    at most 0.1 seconds, to within 1e-3 seconds. *)
Theorem auto_on_analysis (min_scene_interval : option Q) (total_duration : Q)
        (beats onsets : list Q) (num_scenes : nat) (strategy : string) :
  String.eqb strategy "evenly" = false ->
  String.eqb strategy "beats" = false ->
  String.eqb strategy "onsets" = false ->
  (1 <= num_scenes)%nat ->
  0 < total_duration ->
  let audio_analysis :=
    analysis_result min_scene_interval total_duration beats onsets in
  exists diagnostics result,
    distribute_scenes_to_timings num_scenes audio_analysis strategy
    = Ok (diagnostics, result) /\
    StronglySorted Qle (map start_time result) /\
    (forall i a, (S i < num_scenes)%nat -> nth_error result i = Some a ->
                 0 < scene_duration a) /\
    total_duration - (1 # 10) - (1 # 1000) <= total_of result /\
    total_of result <= total_duration + (1 # 1000).
Proof.
  intros Hs Hb Ho Hn Hd. cbv zeta.
  set (audio_analysis :=
         analysis_result min_scene_interval total_duration beats onsets).
  assert (chosen_timings audio_analysis strategy
          = _calculate_scene_timings min_scene_interval beats onsets
                                     total_duration) as Hchosen
      by (unfold chosen_timings; now rewrite Hb, Ho).
  destruct (scene_timings_increasing min_scene_interval beats onsets
                                     total_duration) as (Hinc & Hlo & Hhi).
  rewrite <- Hchosen in Hinc, Hlo, Hhi.
  destruct (distribute_cases num_scenes audio_analysis strategy Hn)
    as [(diagnostics & Hrun & _) | (Hrun & _ & Henough)];
    do 2 eexists; (split; [exact Hrun|]).
  - assert (0 < inject_Z (Z.of_nat num_scenes)) by (apply inject_Z_pos; lia).
    assert (0 < total_duration / inject_Z (Z.of_nat num_scenes))
      by (apply Qlt_shift_div_l; lra).
    split; [|split].
    + rewrite map_map. apply StronglySorted_map_seq. intros i j _ Hij _.
      unfold even_allocation, start_time. cbn [fst snd].
      apply Qmult_le_compat_r; [|apply Qlt_le_weak; assumption].
      rewrite <- Zle_Qle. lia.
    + intros i a _ Ha. apply nth_error_map_seq in Ha. destruct Ha as [_ ->].
      assumption.
    + rewrite total_of_evenly by assumption.
      change (duration audio_analysis) with total_duration. lra.
  - split; [|split].
    + rewrite map_map. apply StronglySorted_map_seq. intros i j _ Hij Hj.
      unfold sampled_allocation, start_time. cbn [fst snd].
      apply Qlt_le_weak.
      now apply (selected_timing_order _ _ Henough Qlt).
    + intros i a Hi Ha. apply nth_error_map_seq in Ha. destruct Ha as [_ ->].
      unfold sampled_allocation, scene_duration. cbn [snd].
      replace (S i <? num_scenes)%nat with true
        by (symmetry; now apply Nat.ltb_lt).
      pose proof (selected_timing_order _ _ Henough Qlt i (S i) Hinc
                    ltac:(lia) Hi).
      lra.
    + rewrite total_of_sampled, selected_timing_first by assumption.
      change (duration audio_analysis) with total_duration. lra.
Qed.

Lemma auto_on_analysis_witness :
  exists diagnostics result,
    distribute_scenes_to_timings
      2 (analysis_result None 2 [3 # 2; 1 # 2] []) "auto"
    = Ok (diagnostics, result) /\
    2 - (1 # 10) - (1 # 1000) <= total_of result /\
    total_of result <= 2 + (1 # 1000).
Proof.
  destruct (auto_on_analysis None 2 [3 # 2; 1 # 2] [] 2 "auto")
    as (diagnostics & result & Hrun & _ & _ & Hlow & Hhigh);
    try reflexivity.
  - repeat constructor.
  - exists diagnostics, result. split; [exact Hrun|]. split; assumption.
Defined.

(** ** modules/video_maker.py *)

Lemma round_half_even_near (v : Q) :
  v - (1 # 2) <= inject_Z (round_half_even v) /\
  inject_Z (round_half_even v) <= v + (1 # 2).
Proof.
  unfold round_half_even.
  pose proof (Qfloor_le v) as F1. pose proof (Qlt_floor v) as F2.
  rewrite inject_Z_plus in F2. change (inject_Z 1) with 1 in F2.
  destruct (Qcompare_spec (v - inject_Z (Qfloor v)) (1 # 2)) as [He|Hl|Hg].
  - destruct (Z.even (Qfloor v));
      rewrite ?inject_Z_plus; change (inject_Z 1) with 1; lra.
  - lra.
  - rewrite inject_Z_plus. change (inject_Z 1) with 1. lra.
Qed.

Lemma round_half_even_eq (v w : Q) :
  v == w -> round_half_even v = round_half_even w.
Proof.
  intros Heq. unfold round_half_even.
  rewrite (Qfloor_comp v w Heq).
  assert (v - inject_Z (Qfloor w) == w - inject_Z (Qfloor w)) as Hrest by lra.
  now rewrite (Qcompare_comp _ _ Hrest _ _ (Qeq_refl (1 # 2))).
Qed.

Lemma round_half_even_monotone (v w : Q) :
  v <= w -> (round_half_even v <= round_half_even w)%Z.
Proof.
  intros Hle.
  destruct (Qle_lt_or_eq _ _ Hle) as [Hlt|Heq];
    [|rewrite (round_half_even_eq _ _ Heq); lia].
  destruct (round_half_even_near v) as [_ V2].
  destruct (round_half_even_near w) as [W1 _].
  destruct (Z_le_gt_dec (round_half_even v) (round_half_even w)) as [|Hgt];
    [assumption|].
  assert (round_half_even w + 1 <= round_half_even v)%Z as Hstep by lia.
  rewrite Zle_Qle, inject_Z_plus in Hstep. change (inject_Z 1) with 1 in Hstep.
  lra.
Qed.

(** X11.  The duration of a text is a whole number of tenths of a second, at
    most 0.05 seconds away from [base_duration + len(text) *
    duration_per_char]; when [duration_per_char] is not negative a longer
    text never gets a shorter duration. *)
Theorem calculate_duration_rounds (self : VideoMaker) (text : pystr) :
  let exact :=
    base_duration self
    + inject_Z (Z.of_nat (List.length text)) * duration_per_char self in
  (exists tenths : Z, calculate_duration self text == inject_Z tenths / 10) /\
  exact - (1 # 20) <= calculate_duration self text /\
  calculate_duration self text <= exact + (1 # 20) /\
  (0 <= duration_per_char self ->
   forall text' : pystr,
     (List.length text <= List.length text')%nat ->
     calculate_duration self text <= calculate_duration self text').
Proof.
  cbv zeta. unfold calculate_duration, round_1.
  set (exact := base_duration self
                + inject_Z (Z.of_nat (List.length text)) * duration_per_char self).
  destruct (round_half_even_near (exact * 10)) as [N1 N2].
  split; [eexists; reflexivity|].
  split; [apply Qle_shift_div_l; lra|].
  split; [apply Qle_shift_div_r; lra|].
  intros Hrate text' Hlen.
  apply Qmult_le_compat_r; [|discriminate].
  rewrite <- Zle_Qle. apply round_half_even_monotone.
  apply Qmult_le_compat_r; [|discriminate].
  unfold exact. apply Qplus_le_r, Qmult_le_compat_r; [|assumption].
  rewrite <- Zle_Qle. lia.
Qed.

Lemma calculate_duration_rounds_witness :
  calculate_duration (new_video_maker 30 None None) [72; 105]%N
  <= calculate_duration (new_video_maker 30 None None) [72; 105; 33]%N.
Proof.
  destruct (calculate_duration_rounds (new_video_maker 30 None None) [72; 105]%N)
    as (_ & _ & _ & Hmono).
  apply Hmono.
  - discriminate.
  - simpl. lia.
Defined.

Lemma clips_duration_app {path : Type} (l1 l2 : list (ImageClip path)) :
  clips_duration (l1 ++ l2) == clips_duration l1 + clips_duration l2.
Proof.
  induction l1 as [|c l1 IH]; simpl.
  - ring.
  - rewrite IH. ring.
Qed.

Lemma text_clips_fold {path : Type} (self : VideoMaker)
      (texts : list (option pystr)) (entries : list (nat * path))
      (clips : list (ImageClip path)) (total_duration : Q) :
  let clip_of (entry : nat * path) : ImageClip path :=
    (snd entry, scene_text_duration self texts (fst entry)) in
  let result :=
    fold_left (text_clip_step self texts) entries (clips, total_duration) in
  fst result = clips ++ map clip_of entries /\
  snd result == total_duration + clips_duration (map clip_of entries).
Proof.
  cbv zeta. revert clips total_duration.
  induction entries as [|[i img_path] entries IH]; intros clips total_duration.
  - simpl. rewrite app_nil_r. split; [reflexivity | ring].
  - cbn [fold_left text_clip_step].
    destruct (IH (clips ++ [(img_path, scene_text_duration self texts i)])
                 (total_duration + scene_text_duration self texts i))
      as [IH1 IH2].
    split.
    + rewrite IH1, <- app_assoc. reflexivity.
    + rewrite IH2. cbn [map fst snd].
      change (clips_duration
                ((img_path, scene_text_duration self texts i)
                 :: map (fun entry : nat * path =>
                           (snd entry,
                            scene_text_duration self texts (fst entry)))
                        entries))
        with (scene_text_duration self texts i
              + clips_duration
                  (map (fun entry : nat * path =>
                          (snd entry,
                           scene_text_duration self texts (fst entry)))
                       entries)).
      symmetry. apply Qplus_assoc.
Qed.

Lemma nth_error_enumerate {A : Type} (l : list A) (i : nat) :
  nth_error (enumerate l) i
  = match nth_error l i with Some a => Some (i, a) | None => None end.
Proof.
  unfold enumerate.
  assert (forall start,
             nth_error (combine (seq start (List.length l)) l) i
             = match nth_error l i with
               | Some a => Some ((start + i)%nat, a)
               | None => None
               end) as Hgen.
  { revert i. induction l as [|a l IH]; intros i start; simpl.
    - now destruct i.
    - destruct i as [|i]; simpl.
      + now rewrite Nat.add_0_r.
      + rewrite IH. destruct (nth_error l i); [|reflexivity].
        do 2 f_equal. lia. }
  apply (Hgen 0%nat).
Qed.

Lemma map_snd_combine_seq {A : Type} (l : list A) :
  map snd (combine (seq 0 (List.length l)) l) = l.
Proof.
  generalize 0%nat. induction l as [|a l IH]; intros start; simpl.
  - reflexivity.
  - now rewrite IH.
Qed.

(** X12.  Without timings [_create_image_clips] makes one clip per image,
    in the order of the images; the clip of image [i] lasts the duration of
    text [i], or the 5.0 seconds of the final scene when there is no such
    text; the total it returns is the sum of the clip durations. *)
Theorem text_clips_follow_images {path : Type} (self : VideoMaker)
        (image_files : list path) (texts : list (option pystr)) :
  let '(clips, total_duration) := _create_image_clips self image_files texts in
  map fst clips = image_files /\
  (forall i clip,
      nth_error clips i = Some clip ->
      clip_duration clip
      = match text_of_scene texts i with
        | Some text => calculate_duration self text
        | None => DEFAULT_FINAL_SCENE_DURATION
        end) /\
  total_duration == clips_duration clips.
Proof.
  unfold _create_image_clips.
  pose proof (text_clips_fold self texts (enumerate image_files) [] 0) as Hfold.
  cbv zeta in Hfold.
  destruct (fold_left (text_clip_step self texts) (enumerate image_files) ([], 0))
    as [clips total_duration].
  cbn [fst snd] in Hfold. destruct Hfold as [-> Htotal]. cbn [app].
  split; [|split].
  - rewrite map_map. cbn [fst]. apply map_snd_combine_seq.
  - intros i clip Hclip. rewrite nth_error_map, nth_error_enumerate in Hclip.
    destruct (nth_error image_files i); [|discriminate].
    cbn in Hclip. injection Hclip as <-. reflexivity.
  - rewrite Htotal. ring.
Qed.

Lemma text_clips_follow_images_witness :
  let '(clips, total_duration) :=
    _create_image_clips (new_video_maker 30 None None) [10; 11]%nat
                        [Some [72; 105]%N; None] in
  map fst clips = [10; 11]%nat /\
  (forall i clip,
      nth_error clips i = Some clip ->
      clip_duration clip
      = match text_of_scene [Some [72; 105]%N; None] i with
        | Some text => calculate_duration (new_video_maker 30 None None) text
        | None => DEFAULT_FINAL_SCENE_DURATION
        end) /\
  total_duration == clips_duration clips.
Proof.
  exact (text_clips_follow_images (new_video_maker 30 None None) [10; 11]%nat
                                  [Some [72; 105]%N; None]).
Defined.

Lemma getitem_nth_error {A : Type} (l : list A) (i : nat) (a : A) :
  nth_error l i = Some a -> getitem l (Z.of_nat i) = Ok a.
Proof.
  intros Ha. unfold getitem.
  replace (Z.of_nat i <? 0)%Z with false by (symmetry; apply Z.ltb_ge; lia).
  replace (Z.of_nat i <? 0)%Z with false by (symmetry; apply Z.ltb_ge; lia).
  now rewrite Nat2Z.id, Ha.
Qed.

(** The loop of [_create_image_clips_with_timings] from any state. *)
Lemma timed_clips_fold {path : Type} (image_files : list path)
      (scene_timings : list SceneAllocation)
      (clips : list (ImageClip path)) (total_duration : Q)
      (warnings : list clip_warning) :
  exists total_duration',
    foldM
      (fun (st : list (ImageClip path) * Q * list clip_warning)
           (timing : SceneAllocation) =>
         let '(clips, total_duration, warnings) := st in
         let '(scene_idx, start_time, duration) := timing in
         if (List.length image_files <=? scene_idx)%nat then
           Ok (clips, total_duration,
               warnings ++ [SceneExceedsImages scene_idx])
         else
           img_path <- getitem image_files (Z.of_nat scene_idx) ;;
           Ok (clips ++ [(img_path, duration)], total_duration + duration,
               warnings))
      scene_timings (clips, total_duration, warnings)
    = Ok (clips ++ clips_of_timings image_files scene_timings,
          total_duration',
          warnings ++ warnings_of_timings image_files scene_timings) /\
    total_duration'
    == total_duration
       + clips_duration (clips_of_timings image_files scene_timings).
Proof.
  revert clips total_duration warnings.
  induction scene_timings as [|[[scene_idx start] dur] scene_timings IH];
    intros clips total_duration warnings.
  - exists total_duration. simpl. rewrite !app_nil_r.
    split; [reflexivity | ring].
  - cbn [foldM clips_of_timings warnings_of_timings flat_map
               scene_index scene_duration fst snd].
    fold (clips_of_timings image_files scene_timings).
    fold (warnings_of_timings image_files scene_timings).
    destruct (Nat.leb_spec (List.length image_files) scene_idx) as [Hout|Hin].
    + assert (nth_error image_files scene_idx = None) as ->
          by now apply nth_error_None.
      cbn [bind app].
      destruct (IH clips total_duration
                   (warnings ++ [SceneExceedsImages scene_idx]))
        as (total' & Hrun & Htotal).
      exists total'. rewrite Hrun, <- app_assoc. split; [reflexivity|].
      exact Htotal.
    + destruct (nth_error image_files scene_idx) as [img_path|] eqn:E;
        [|apply nth_error_None in E; lia].
      rewrite (getitem_nth_error _ _ _ E). cbn [bind app].
      destruct (IH (clips ++ [(img_path, dur)]) (total_duration + dur) warnings)
        as (total' & Hrun & Htotal).
      exists total'. rewrite Hrun, <- app_assoc. split; [reflexivity|].
      rewrite Htotal.
      change (clips_duration
                ((img_path, dur) :: clips_of_timings image_files scene_timings))
        with (dur + clips_duration (clips_of_timings image_files scene_timings)).
      symmetry. apply Qplus_assoc.
Qed.

(** X13.  [_create_image_clips_with_timings] never raises.  It makes a clip,
    of the allocated duration, for every timing whose scene index has an
    image, in the order of the timings, and a warning for every other
    timing; the total it returns is the sum of the clip durations.  An image
    no timing refers to is in no clip, and no warning says so. *)
Theorem timed_clips_follow_timings {path : Type} (image_files : list path)
        (texts : list (option pystr)) (scene_timings : list SceneAllocation) :
  exists clips total_duration warnings,
    _create_image_clips_with_timings image_files texts scene_timings
    = Ok (clips, total_duration, warnings) /\
    clips = clips_of_timings image_files scene_timings /\
    warnings = warnings_of_timings image_files scene_timings /\
    total_duration == clips_duration clips /\
    (forall img_path duration,
        In (img_path, duration) clips <->
        exists timing,
          In timing scene_timings /\
          nth_error image_files (scene_index timing) = Some img_path /\
          scene_duration timing = duration) /\
    (forall scene_idx,
        In (SceneExceedsImages scene_idx) warnings <->
        (List.length image_files <= scene_idx)%nat /\
        In scene_idx (map scene_index scene_timings)).
Proof.
  destruct (timed_clips_fold image_files scene_timings [] 0 [])
    as (total_duration & Hrun & Htotal).
  exists (clips_of_timings image_files scene_timings), total_duration,
    (warnings_of_timings image_files scene_timings).
  split; [exact Hrun|]. split; [reflexivity|]. split; [reflexivity|].
  split; [rewrite Htotal; ring|]. split.
  - intros img_path dur. unfold clips_of_timings. rewrite in_flat_map.
    split.
    + intros (timing & Hin & Hclip). exists timing.
      destruct (nth_error image_files (scene_index timing)); [|destruct Hclip].
      destruct Hclip as [[= <- <-]|[]]. auto.
    + intros (timing & Hin & Himg & Hdur). exists timing.
      rewrite Himg, Hdur. split; [assumption | now left].
  - intros scene_idx. unfold warnings_of_timings. rewrite in_flat_map, in_map_iff.
    split.
    + intros (timing & Hin & Hwarn).
      destruct (Nat.leb_spec (List.length image_files) (scene_index timing));
        [|destruct Hwarn].
      destruct Hwarn as [[= <-]|[]]. split; [assumption|]. now exists timing.
    + intros (Hout & timing & <- & Hin). exists timing. split; [assumption|].
      destruct (Nat.leb_spec (List.length image_files) (scene_index timing));
        [now left | lia].
Qed.

Lemma timed_clips_follow_timings_witness :
  exists clips total_duration warnings,
    _create_image_clips_with_timings
      [10]%nat [] [(0%nat, 0, 1 # 2); (1%nat, 1 # 2, 3 # 2)]
    = Ok (clips, total_duration, warnings) /\
    (In (SceneExceedsImages 1) warnings <->
     (List.length [10]%nat <= 1)%nat /\
     In 1%nat (map scene_index [(0%nat, 0, 1 # 2); (1%nat, 1 # 2, 3 # 2)])).
Proof.
  destruct (timed_clips_follow_timings
              [10]%nat [] [(0%nat, 0, 1 # 2); (1%nat, 1 # 2, 3 # 2)])
    as (clips & total_duration & warnings & Hrun & _ & _ & _ & _ & Hwarn).
  exists clips, total_duration, warnings. split; [exact Hrun | apply Hwarn].
Defined.

Lemma flat_map_of_map {A B C : Type} (f : A -> B) (g : B -> list C) (l : list A) :
  flat_map g (map f l) = flat_map (fun a => g (f a)) l.
Proof.
  induction l as [|a l IH]; simpl; [reflexivity | now rewrite IH].
Qed.

(** One clip per image when scene [i] is the [i]-th of as many timings as
    there are images. *)
Lemma clips_of_scenes_in_order {path : Type} (image_files : list path)
      (allocation : nat -> SceneAllocation) :
  (forall i, scene_index (allocation i) = i) ->
  let scene_timings := map allocation (seq 0 (List.length image_files)) in
  map fst (clips_of_timings image_files scene_timings) = image_files /\
  map clip_duration (clips_of_timings image_files scene_timings)
  = map scene_duration scene_timings /\
  warnings_of_timings image_files scene_timings = [].
Proof.
  intros Hidx. cbv zeta. unfold clips_of_timings, warnings_of_timings.
  rewrite !flat_map_of_map, map_map.
  assert (forall (pre : list path),
             map fst
                 (flat_map
                    (fun i =>
                       match nth_error (pre ++ image_files)
                                       (scene_index (allocation i)) with
                       | Some img_path =>
                           [(img_path, scene_duration (allocation i))]
                       | None => []
                       end)
                    (seq (List.length pre) (List.length image_files)))
             = image_files /\
             map clip_duration
                 (flat_map
                    (fun i =>
                       match nth_error (pre ++ image_files)
                                       (scene_index (allocation i)) with
                       | Some img_path =>
                           [(img_path, scene_duration (allocation i))]
                       | None => []
                       end)
                    (seq (List.length pre) (List.length image_files)))
             = map (fun i => scene_duration (allocation i))
                   (seq (List.length pre) (List.length image_files)) /\
             flat_map
               (fun i =>
                  if (List.length (pre ++ image_files)
                      <=? scene_index (allocation i))%nat
                  then [SceneExceedsImages (scene_index (allocation i))]
                  else [])
               (seq (List.length pre) (List.length image_files))
             = []) as Hgen.
  { induction image_files as [|img_path image_files IH]; intros pre.
    - simpl. auto.
    - cbn [List.length seq flat_map].
      rewrite !Hidx, nth_error_app2, Nat.sub_diag by lia. cbn [nth_error app map].
      specialize (IH (pre ++ [img_path])).
      rewrite <- app_assoc, length_app in IH. cbn [app List.length] in IH.
      rewrite Nat.add_1_r in IH. destruct IH as (IH1 & IH2 & IH3).
      rewrite IH1, IH2, IH3.
      destruct (Nat.leb_spec (List.length (pre ++ img_path :: image_files))
                             (List.length pre)) as [Hbad|_];
        [rewrite length_app in Hbad; simpl in Hbad; lia|].
      auto. }
  apply (Hgen []).
Qed.

(** X14.  When there are as many images as scenes (at least one), the clips
    of [create_video] follow the allocation of
    [distribute_scenes_to_timings]: one clip per image in the order of the
    images, clip [i] lasting the duration allocated to scene [i], without a
    warning, and the total is the sum of the allocated durations. *)
Theorem video_follows_allocation {path : Type} (self : VideoMaker)
        (image_files : list path) (texts : list (option pystr))
        (audio_analysis : AudioAnalysis) (strategy : string) :
  (1 <= List.length image_files)%nat ->
  exists diagnostics scene_timings clips total_duration,
    distribute_scenes_to_timings (List.length image_files) audio_analysis strategy
    = Ok (diagnostics, scene_timings) /\
    create_video_clips self image_files texts (Some scene_timings)
    = Ok (clips, total_duration, []) /\
    map fst clips = image_files /\
    map clip_duration clips = map scene_duration scene_timings /\
    total_duration == total_of scene_timings.
Proof.
  intros Hn.
  assert (forall allocation : nat -> SceneAllocation,
             (forall i, scene_index (allocation i) = i) ->
             exists clips total_duration,
               create_video_clips
                 self image_files texts
                 (Some (map allocation (seq 0 (List.length image_files))))
               = Ok (clips, total_duration, []) /\
               map fst clips = image_files /\
               map clip_duration clips
               = map scene_duration
                     (map allocation (seq 0 (List.length image_files))) /\
               total_duration
               == total_of (map allocation (seq 0 (List.length image_files))))
    as Hclips.
  { intros allocation Hidx.
    destruct (clips_of_scenes_in_order image_files allocation Hidx)
      as (Himages & Hdurations & Hwarnings).
    destruct (timed_clips_fold
                image_files (map allocation (seq 0 (List.length image_files)))
                [] 0 []) as (total_duration & Hrun & Htotal).
    rewrite Hwarnings in Hrun. cbn [app] in Hrun.
    assert (create_video_clips
              self image_files texts
              (Some (map allocation (seq 0 (List.length image_files))))
            = _create_image_clips_with_timings
                image_files texts
                (map allocation (seq 0 (List.length image_files)))) as Hmode.
    { unfold create_video_clips.
      destruct (List.length image_files) as [|k]; [lia|].
      cbn [seq map]. reflexivity. }
    do 2 eexists. split; [|split; [exact Himages|split; [exact Hdurations|]]].
    - rewrite Hmode. exact Hrun.
    - rewrite Htotal, Qplus_0_l.
      assert (forall clips : list (ImageClip path),
                 clips_duration clips
                 == fold_right Qplus 0 (map clip_duration clips)) as Hsum.
      { induction clips as [|c clips IHc]; simpl; [reflexivity|].
        now rewrite IHc. }
      assert (forall result : list SceneAllocation,
                 total_of result
                 == fold_right Qplus 0 (map scene_duration result)) as Hsum'.
      { induction result as [|a result IHr]; simpl; [reflexivity|].
        now rewrite IHr. }
      now rewrite Hsum, Hsum', Hdurations. }
  destruct (distribute_cases (List.length image_files) audio_analysis strategy Hn)
    as [(diagnostics & Hrun & _) | (Hrun & _ & _)].
  - destruct (Hclips (even_allocation (List.length image_files)
                                      (duration audio_analysis)))
      as (clips & total_duration & Hvideo); [reflexivity|].
    exists diagnostics. do 3 eexists. split; [exact Hrun | exact Hvideo].
  - destruct (Hclips (sampled_allocation
                        (chosen_timings audio_analysis strategy)
                        (List.length image_files) (duration audio_analysis)))
      as (clips & total_duration & Hvideo); [reflexivity|].
    exists []. do 3 eexists. split; [exact Hrun | exact Hvideo].
Qed.

Lemma video_follows_allocation_witness :
  exists diagnostics scene_timings clips total_duration,
    distribute_scenes_to_timings 2 two_beats "beats"
    = Ok (diagnostics, scene_timings) /\
    create_video_clips (new_video_maker 30 None None) [10; 11]%nat []
                       (Some scene_timings)
    = Ok (clips, total_duration, []) /\
    map fst clips = [10; 11]%nat.
Proof.
  destruct (video_follows_allocation (new_video_maker 30 None None)
                                     [10; 11]%nat [] two_beats "beats")
    as (diagnostics & scene_timings & clips & total_duration
        & Hrun & Hvideo & Himages & _).
  - simpl. lia.
  - exists diagnostics, scene_timings, clips, total_duration.
    split; [exact Hrun|]. split; [exact Hvideo | exact Himages].
Defined.

(** ** C9: fitting to the aspect ratio *)

#[export] Instance size_only_laws : ImagingLaws (Z * Z * bool).
Proof. split; reflexivity. Qed.

(** For positive sizes the trimming returns a box, given by two integer
    divisions. *)
Lemma trim_box_closed (video_width video_height cropped_width cropped_height : Z) :
  (0 < video_width)%Z -> (0 < video_height)%Z ->
  (0 < cropped_width)%Z -> (0 < cropped_height)%Z ->
  trim_box video_width video_height cropped_width cropped_height
  = Ok (if (video_width * cropped_height <? cropped_width * video_height)%Z
        then
          let new_width := (cropped_height * video_width / video_height)%Z in
          let crop_left := ((cropped_width - new_width) / 2)%Z in
          (crop_left, 0, crop_left + new_width, cropped_height)%Z
        else
          let new_height := (cropped_width * video_height / video_width)%Z in
          let crop_top := ((cropped_height - new_height) / 2)%Z in
          (0, crop_top, cropped_width, crop_top + new_height)%Z).
Proof.
  intros Hvw Hvh Hcw Hch. unfold trim_box.
  pose proof (inject_Z_pos _ Hvw) as Hvw'. pose proof (inject_Z_pos _ Hvh) as Hvh'.
  pose proof (inject_Z_pos _ Hcw) as Hcw'. pose proof (inject_Z_pos _ Hch) as Hch'.
  pose proof (ratio_pos _ _ Hvw Hvh) as Ht.
  rewrite !truediv_nonzero by lra. cbn [bind].
  destruct (Qltb_spec (inject_Z video_width / inject_Z video_height)
                      (inject_Z cropped_width / inject_Z cropped_height))
    as [Hwide|Htall].
  - apply (ratio_lt_cross video_width video_height
                          cropped_width cropped_height Hvh Hch) in Hwide.
    destruct (Z.ltb_spec (video_width * cropped_height)
                         (cropped_width * video_height)); [|lia].
    rewrite int_of_float_nonneg by (apply Qmult_le_0_compat; lra).
    rewrite (Qfloor_sample cropped_height video_width video_height)
      by (try assumption; field; lra).
    reflexivity.
  - rewrite (ratio_lt_cross video_width video_height
                            cropped_width cropped_height Hvh Hch) in Htall.
    destruct (Z.ltb_spec (video_width * cropped_height)
                         (cropped_width * video_height)); [lia|].
    rewrite truediv_nonzero by lra. cbn [bind].
    rewrite int_of_float_nonneg
      by (apply Qle_shift_div_l; [assumption | lra]).
    rewrite (Qfloor_sample cropped_width video_height video_width)
      by (try assumption; field; lra).
    reflexivity.
Qed.

(** The trimmed box lies in the image and keeps one dimension; the other
    is at most what the target ratio asks for and less than a pixel below
    it, and the margin is shared between the two sides to within a pixel. *)
Lemma trim_box_shape (video_width video_height cropped_width cropped_height : Z) :
  (0 < video_width)%Z -> (0 < video_height)%Z ->
  (0 < cropped_width)%Z -> (0 < cropped_height)%Z ->
  exists b,
    trim_box video_width video_height cropped_width cropped_height = Ok b /\
    (0 <= box_left b <= box_right b)%Z /\ (box_right b <= cropped_width)%Z /\
    (0 <= box_top b <= box_bottom b)%Z /\ (box_bottom b <= cropped_height)%Z /\
    if (video_width * cropped_height <? cropped_width * video_height)%Z
    then
      (box_top b = 0 /\ box_bottom b = cropped_height /\
       cropped_height * video_width - video_height
       < (box_right b - box_left b) * video_height
       <= cropped_height * video_width /\
       box_right b - box_left b < cropped_width /\
       0 <= cropped_width - (box_right b - box_left b) - 2 * box_left b <= 1)%Z
    else
      (box_left b = 0 /\ box_right b = cropped_width /\
       cropped_width * video_height - video_width
       < (box_bottom b - box_top b) * video_width
       <= cropped_width * video_height /\
       box_bottom b - box_top b <= cropped_height /\
       0 <= cropped_height - (box_bottom b - box_top b) - 2 * box_top b <= 1)%Z.
Proof.
  intros Hvw Hvh Hcw Hch.
  rewrite trim_box_closed by assumption.
  eexists. split; [reflexivity|].
  destruct (Z.ltb_spec (video_width * cropped_height)
                       (cropped_width * video_height)) as [Hwide|Htall];
    cbv zeta; unfold box_left, box_right, box_top, box_bottom.
  - pose proof (Z.mul_div_le (cropped_height * video_width) video_height Hvh).
    pose proof (Z.mul_succ_div_gt (cropped_height * video_width) video_height
                                  Hvh).
    set (new_width := (cropped_height * video_width / video_height)%Z) in *.
    assert (0 <= new_width)%Z by (apply Z.div_pos; nia).
    assert (new_width < cropped_width)%Z
      by (apply Z.div_lt_upper_bound; nia).
    pose proof (Z.div_mod (cropped_width - new_width) 2 ltac:(lia)).
    pose proof (Z.mod_pos_bound (cropped_width - new_width) 2 ltac:(lia)).
    assert (0 <= (cropped_width - new_width) / 2)%Z by (apply Z.div_pos; lia).
    repeat split; try lia; nia.
  - pose proof (Z.mul_div_le (cropped_width * video_height) video_width Hvw).
    pose proof (Z.mul_succ_div_gt (cropped_width * video_height) video_width
                                  Hvw).
    set (new_height := (cropped_width * video_height / video_width)%Z) in *.
    assert (0 <= new_height)%Z by (apply Z.div_pos; nia).
    assert (new_height <= cropped_height)%Z
      by (apply Z.div_le_upper_bound; nia).
    pose proof (Z.div_mod (cropped_height - new_height) 2 ltac:(lia)).
    pose proof (Z.mod_pos_bound (cropped_height - new_height) 2 ltac:(lia)).
    assert (0 <= (cropped_height - new_height) / 2)%Z by (apply Z.div_pos; lia).
    repeat split; try lia; nia.
Qed.

Section Fit.
Context {image : Type} `{ImagingLaws image}.

(** The fit is the crop of the trimmed box followed by the resize. *)
Lemma fit_returns (video_width video_height cropped_width cropped_height : Z)
      (img : image) (b : CropBox) :
  (0 < video_width)%Z -> (0 < video_height)%Z ->
  size img = (cropped_width, cropped_height) ->
  trim_box video_width video_height cropped_width cropped_height = Ok b ->
  (box_left b <= box_right b)%Z -> (box_top b <= box_bottom b)%Z ->
  _fit_to_aspect_ratio video_width video_height img
  = Ok (resize (crop img b) (video_width, video_height)).
Proof.
  intros Hvw Hvh Hsize Hb Hx Hy.
  unfold _fit_to_aspect_ratio. rewrite Hsize, Hb. cbn [bind].
  unfold pil_crop.
  destruct (Z.ltb_spec (box_right b) (box_left b)); [lia|].
  destruct (Z.ltb_spec (box_bottom b) (box_top b)); [lia|].
  cbn [orb bind]. unfold pil_resize. cbn [fst snd].
  destruct (Z.ltb_spec video_width 1); [lia|].
  destruct (Z.ltb_spec video_height 1); [lia|].
  reflexivity.
Qed.
End Fit.

(** C9, as the code has it.  For a video and an image of positive
    dimensions, the image large enough for the trimmed box to keep a pixel,
    the operation returns the crop of the trimmed box resized to the video:
    its result has exactly the size of the video.  The trimmed box lies in
    the image and has pixels.  When the image is proportionally wider than
    the video the box keeps the height and its width is what the target
    ratio asks for to within one pixel, never above it, and smaller than the
    width of the image; otherwise it keeps the width and its height is what
    the target ratio asks for to within one pixel, never above it and never
    above the height of the image.  The box is centred to within a pixel.
    The operation is not idempotent, see [trim_not_idempotent]. *)
Theorem fit_trims_to_ratio
  {image : Type} `{ImagingLaws image}
  (video_width video_height cropped_width cropped_height : Z) (img : image) :
  (0 < video_width)%Z -> (0 < video_height)%Z ->
  (0 < cropped_width)%Z -> (0 < cropped_height)%Z ->
  (2 * video_height <= cropped_height * video_width)%Z ->
  (2 * video_width <= cropped_width * video_height)%Z ->
  size img = (cropped_width, cropped_height) ->
  exists (b : CropBox) (fitted : image),
    trim_box video_width video_height cropped_width cropped_height = Ok b /\
    _fit_to_aspect_ratio video_width video_height img = Ok fitted /\
    fitted = resize (crop img b) (video_width, video_height) /\
    size fitted = (video_width, video_height) /\
    (0 <= box_left b < box_right b)%Z /\ (box_right b <= cropped_width)%Z /\
    (0 <= box_top b < box_bottom b)%Z /\ (box_bottom b <= cropped_height)%Z /\
    if (video_width * cropped_height <? cropped_width * video_height)%Z
    then
      (box_top b = 0 /\ box_bottom b = cropped_height /\
       cropped_height * video_width - video_height
       <= (box_right b - box_left b) * video_height
       <= cropped_height * video_width /\
       box_right b - box_left b < cropped_width /\
       0 <= cropped_width - (box_right b - box_left b) - 2 * box_left b <= 1)%Z
    else
      (box_left b = 0 /\ box_right b = cropped_width /\
       cropped_width * video_height - video_width
       <= (box_bottom b - box_top b) * video_width
       <= cropped_width * video_height /\
       box_bottom b - box_top b <= cropped_height /\
       0 <= cropped_height - (box_bottom b - box_top b) - 2 * box_top b <= 1)%Z.
Proof.
  intros Hvw Hvh Hcw Hch Hrows Hcolumns Hsize.
  destruct (trim_box_shape video_width video_height cropped_width cropped_height
              Hvw Hvh Hcw Hch) as (b & Hb & Hx & Hxw & Hy & Hyh & Hshape).
  exists b, (resize (crop img b) (video_width, video_height)).
  split; [exact Hb|].
  split; [apply (fit_returns _ _ _ _ _ _ Hvw Hvh Hsize Hb); lia|].
  split; [reflexivity|]. split; [apply size_resize|].
  destruct (Z.ltb_spec (video_width * cropped_height)
                       (cropped_width * video_height)) as [Hwide|Htall].
  - destruct Hshape as (Htop & Hbottom & Hnew & Hless & Hcentre).
    repeat split; try lia; nia.
  - destruct Hshape as (Hleft & Hright & Hnew & Hless & Hcentre).
    repeat split; try lia; nia.
Qed.

Lemma fit_trims_to_ratio_witness :
  exists (b : CropBox) (fitted : Z * Z * bool),
    trim_box 1080 1920 10 10 = Ok b /\
    _fit_to_aspect_ratio 1080 1920 (10, 10, true)%Z = Ok fitted /\
    size fitted = (1080, 1920)%Z /\
    (0 <= box_left b < box_right b)%Z /\ (box_right b <= 10)%Z.
Proof.
  destruct (fit_trims_to_ratio (H0 := size_only_laws)
              1080 1920 10 10 (10, 10, true)%Z)
    as (b & fitted & Hb & Hfit & _ & Hsize & Hx & Hxw & _);
    try reflexivity; try lia.
  exists b, fitted. repeat split; solve [assumption | apply Hx].
Defined.

(** C9 as stated fails: the operation is not idempotent.  For a 1080 x 1920
    video a 10 x 10 image is trimmed to the box [(2, 0, 7, 10)], 5 x 10, and
    an image of that size is trimmed again, to [(0, 1, 5, 9)], 5 x 8:
    trimming the result of the trimming does not return it.  And on the
    float ratios the result of the operation, an image of the video size, is
    not always left whole by a second application: for a 540 x 1000 video
    540 / (540 / 1000) is 999.9999999999999, so the second application
    crops the image to 999 rows and resamples it. *)
Lemma trim_not_idempotent :
  ~ (forall (video_width video_height cropped_width cropped_height : Z)
            (b : CropBox),
        (0 < video_width)%Z -> (0 < video_height)%Z ->
        (0 < cropped_width)%Z -> (0 < cropped_height)%Z ->
        trim_box video_width video_height cropped_width cropped_height = Ok b ->
        trim_box video_width video_height (fst (box_size b)) (snd (box_size b))
        = Ok (0, 0, fst (box_size b), snd (box_size b))%Z) /\
  ~ (forall (video_width video_height : Z),
        (0 < video_width)%Z -> (0 < video_height)%Z ->
        Binary64.trim_box video_width video_height video_width video_height
        = Ok (0, 0, video_width, video_height)%Z).
Proof.
  split; intros C.
  - specialize (C 1080 1920 10 10 (2, 0, 7, 10))%Z.
    vm_compute in C.
    specialize (C eq_refl eq_refl eq_refl eq_refl eq_refl). discriminate.
  - specialize (C 540 1000 eq_refl eq_refl)%Z.
    vm_compute in C. discriminate.
Qed.

(** ** modules/image_processor.py: the zoomed images *)

Lemma trim_box_no_height (video_width video_height cropped_width : Z) :
  trim_box video_width video_height cropped_width 0 = Raise ZeroDivisionError.
Proof.
  unfold trim_box.
  destruct (truediv (inject_Z video_width) (inject_Z video_height)) as [r|e] eqn:E.
  - cbn [bind]. now rewrite truediv_zero.
  - unfold truediv in E. destruct (Qeq_bool (inject_Z video_height) 0);
      [|discriminate].
    injection E as <-. reflexivity.
Qed.

(** A box that leaves two pixels of the target ratio keeps pixels when it
    is trimmed. *)
Lemma trim_box_pixels (video_width video_height cropped_width cropped_height : Z) :
  (0 < video_width)%Z -> (0 < video_height)%Z ->
  (0 < cropped_width)%Z -> (0 < cropped_height)%Z ->
  (2 * video_height <= cropped_height * video_width)%Z ->
  (2 * video_width <= cropped_width * video_height)%Z ->
  exists b,
    trim_box video_width video_height cropped_width cropped_height = Ok b /\
    (0 <= box_left b < box_right b)%Z /\ (box_right b <= cropped_width)%Z /\
    (0 <= box_top b < box_bottom b)%Z /\ (box_bottom b <= cropped_height)%Z.
Proof.
  intros Hvw Hvh Hcw Hch Hrows Hcolumns.
  destruct (trim_box_shape video_width video_height cropped_width cropped_height
              Hvw Hvh Hcw Hch) as (b & Hb & Hx & Hxw & Hy & Hyh & Hshape).
  exists b. split; [exact Hb|].
  destruct (Z.ltb_spec (video_width * cropped_height)
                       (cropped_width * video_height)) as [Hwide|Htall].
  - destruct Hshape as (Htop & Hbottom & Hnew & _).
    repeat split; try lia; nia.
  - destruct Hshape as (Hleft & Hright & Hnew & _).
    repeat split; try lia; nia.
Qed.

(** The conditions of X15 on one coordinate: a zoom of at least 1, a focus
    point in the image, and a zoomed region that leaves two pixels of the
    ratio of the video on each axis after the truncation of its bounds. *)
Lemma zoomed_region_large (video_width video_height img_size : Z)
      (zoom : Q) (extent : Z) :
  (0 < video_width)%Z -> (0 < video_height)%Z ->
  2 * inject_Z video_width
  <= inject_Z video_height * (inject_Z img_size / zoom - 2) ->
  inject_Z img_size / zoom - 1 < inject_Z extent ->
  (0 < extent)%Z /\ (2 * video_width <= extent * video_height)%Z.
Proof.
  intros Hvw Hvh Hlarge Hextent.
  pose proof (inject_Z_pos _ Hvw) as Hvw'. pose proof (inject_Z_pos _ Hvh) as Hvh'.
  set (e := inject_Z img_size / zoom) in *.
  assert (0 < e - 2) as Hpos.
  { destruct (Qlt_le_dec 0 (e - 2)) as [|Hle]; [assumption|].
    assert (inject_Z video_height * (e - 2) <= inject_Z video_height * 0)
      by (rewrite !(Qmult_comm (inject_Z video_height));
          apply Qmult_le_compat_r; lra).
    lra. }
  assert (inject_Z video_height * (e - 2)
          <= inject_Z video_height * inject_Z extent) as Hmul
      by (rewrite !(Qmult_comm (inject_Z video_height));
          apply Qmult_le_compat_r; lra).
  split.
  - assert (inject_Z 0 < inject_Z extent) as Hext
        by (change (inject_Z 0) with 0; lra).
    now rewrite <- Zlt_Qlt in Hext.
  - rewrite Zle_Qle, !inject_Z_mult. change (inject_Z 2) with 2. lra.
Qed.

Section Zoomed.
Context {image : Type} `{ImagingLaws image}.
Variables (video_width video_height : Z) (img : image).
Variables (width height : Z).
Hypothesis img_size : size img = (width, height).

(** The image saved for a coordinate: the zoomed region, trimmed to the
    ratio of the video and resized to its size. *)
Lemma zoomed_image_ok (coord : Coordinate) :
  jpeg_mode img = true ->
  (0 < video_width)%Z -> (0 < video_height)%Z ->
  (0 < width)%Z -> (0 < height)%Z ->
  1 <= coord_zoom coord ->
  2 * inject_Z video_width
  <= inject_Z video_height * (inject_Z width / coord_zoom coord - 2) ->
  2 * inject_Z video_height
  <= inject_Z video_width * (inject_Z height / coord_zoom coord - 2) ->
  exists crop_box b,
    _calculate_crop_box width height (coord_x coord) (coord_y coord)
                        (coord_zoom coord) = Ok crop_box /\
    trim_box video_width video_height
             (fst (box_size crop_box)) (snd (box_size crop_box)) = Ok b /\
    (0 <= box_left crop_box < box_right crop_box)%Z /\
    (box_right crop_box <= width)%Z /\
    (0 <= box_top crop_box < box_bottom crop_box)%Z /\
    (box_bottom crop_box <= height)%Z /\
    (0 <= box_left b < box_right b)%Z /\
    (box_right b <= fst (box_size crop_box))%Z /\
    (0 <= box_top b < box_bottom b)%Z /\
    (box_bottom b <= snd (box_size crop_box))%Z /\
    zoomed_image video_width video_height img coord
    = Ok (resize (crop (crop img crop_box) b) (video_width, video_height)).
Proof.
  intros Hmode Hvw Hvh Hw Hh Hz Hcolumns Hrows.
  unfold zoomed_image. rewrite img_size.
  rewrite crop_box_axes by lra. cbv zeta. cbn [bind].
  destruct (axis_bounds_int width (inject_Z width * coord_x coord)
                            (coord_zoom coord) Hw Hz) as (X1 & X2 & X3 & _).
  destruct (axis_bounds_int height (inject_Z height * coord_y coord)
                            (coord_zoom coord) Hh Hz) as (Y1 & Y2 & Y3 & _).
  destruct (zoomed_region_large video_width video_height width _ _
                                Hvw Hvh Hcolumns X3) as [Xpos Xlarge].
  destruct (zoomed_region_large video_height video_width height _ _
                                Hvh Hvw Hrows Y3) as [Ypos Ylarge].
  match goal with
  | |- context [pil_crop img ?box] => set (crop_box := box) in *
  end.
  assert (box_size crop_box
          = (box_right crop_box - box_left crop_box,
             box_bottom crop_box - box_top crop_box)%Z) as Hbox by reflexivity.
  assert (box_right crop_box - box_left crop_box
          = int_of_float
              (snd (axis_bounds width (inject_Z width * coord_x coord)
                                (inject_Z width / coord_zoom coord)))
            - int_of_float
                (fst (axis_bounds width (inject_Z width * coord_x coord)
                                  (inject_Z width / coord_zoom coord))))%Z
    as Hcw by reflexivity.
  assert (box_bottom crop_box - box_top crop_box
          = int_of_float
              (snd (axis_bounds height (inject_Z height * coord_y coord)
                                (inject_Z height / coord_zoom coord)))
            - int_of_float
                (fst (axis_bounds height (inject_Z height * coord_y coord)
                                  (inject_Z height / coord_zoom coord))))%Z
    as Hch by reflexivity.
  destruct (trim_box_pixels video_width video_height
                            (fst (box_size crop_box)) (snd (box_size crop_box)))
    as (b & Hb & Hbx & Hbxw & Hby & Hbyh);
    try assumption; rewrite ?Hbox; cbn [fst snd]; rewrite ?Hcw, ?Hch;
    try lia.
  exists crop_box, b. split; [reflexivity|]. split; [exact Hb|].
  assert (box_left crop_box
          = int_of_float
              (fst (axis_bounds width (inject_Z width * coord_x coord)
                                (inject_Z width / coord_zoom coord))))
    as Hl by reflexivity.
  assert (box_top crop_box
          = int_of_float
              (fst (axis_bounds height (inject_Z height * coord_y coord)
                                (inject_Z height / coord_zoom coord))))
    as Ht by reflexivity.
  assert (box_right crop_box
          = int_of_float
              (snd (axis_bounds width (inject_Z width * coord_x coord)
                                (inject_Z width / coord_zoom coord))))
    as Hr by reflexivity.
  assert (box_bottom crop_box
          = int_of_float
              (snd (axis_bounds height (inject_Z height * coord_y coord)
                                (inject_Z height / coord_zoom coord))))
    as Hbm by reflexivity.
  split; [lia|]. split; [lia|]. split; [lia|]. split; [lia|].
  split; [exact Hbx|]. split; [exact Hbxw|]. split; [exact Hby|].
  split; [exact Hbyh|].
  unfold pil_crop.
  destruct (Z.ltb_spec (box_right crop_box) (box_left crop_box)); [lia|].
  destruct (Z.ltb_spec (box_bottom crop_box) (box_top crop_box)); [lia|].
  cbn [orb bind].
  rewrite (fit_returns video_width video_height
                       (fst (box_size crop_box)) (snd (box_size crop_box))
                       (crop img crop_box) b Hvw Hvh);
    [ | rewrite size_crop; now destruct (box_size crop_box)
      | exact Hb | lia | lia ].
  cbn [bind]. unfold pil_save_jpeg.
  now rewrite mode_resize, !mode_crop, Hmode.
Qed.

(** A crop box without height stops the fit. *)
Lemma zoomed_image_no_height (coord : Coordinate) (crop_box : CropBox) :
  _calculate_crop_box width height (coord_x coord) (coord_y coord)
                      (coord_zoom coord) = Ok crop_box ->
  (box_left crop_box <= box_right crop_box)%Z ->
  box_top crop_box = box_bottom crop_box ->
  zoomed_image video_width video_height img coord = Raise ZeroDivisionError.
Proof.
  intros Hbox Hwidth Hflat. unfold zoomed_image.
  rewrite img_size, Hbox. cbn [bind]. unfold pil_crop.
  destruct (Z.ltb_spec (box_right crop_box) (box_left crop_box)); [lia|].
  destruct (Z.ltb_spec (box_bottom crop_box) (box_top crop_box)); [lia|].
  cbn [orb bind].
  unfold _fit_to_aspect_ratio. rewrite size_crop. unfold box_size.
  rewrite Hflat, Z.sub_diag. now rewrite trim_box_no_height.
Qed.
End Zoomed.

Lemma zoomed_images_fold {image : Type} `{Imaging image}
      (video_width video_height : Z) (img : image)
      (coordinates : list Coordinate) (finals : list image)
      (generated_files : list (Z * image)) :
  Forall2 (fun coord final =>
             zoomed_image video_width video_height img coord = Ok final)
          coordinates finals ->
  foldM (fun generated_files coord =>
           final <- zoomed_image video_width video_height img coord ;;
           Ok (generated_files ++ [(coord_scene coord, final)]))
        coordinates generated_files
  = Ok (generated_files ++ combine (map coord_scene coordinates) finals).
Proof.
  intros Hall. revert generated_files.
  induction Hall as [|coord final coordinates finals Hone Hall IH];
    intros generated_files; simpl.
  - now rewrite app_nil_r.
  - rewrite Hone. cbn [bind]. rewrite IH, <- app_assoc. reflexivity.
Qed.

Lemma foldM_app {A S : Type} (body : S -> A -> outcome S) (l1 l2 : list A)
      (s : S) :
  foldM body (l1 ++ l2) s = (s' <- foldM body l1 s ;; foldM body l2 s').
Proof.
  revert s. induction l1 as [|a l1 IH]; intros s; simpl; [reflexivity|].
  destruct (body s a); cbn [bind]; [apply IH | reflexivity].
Qed.

(** X15.  On an image of positive dimensions in a mode the JPEG encoder
    writes, for a video of positive dimensions and coordinates with a focus
    point in the image and a zoom of at least 1 whose zoomed region leaves
    two pixels of the ratio of the video on each axis,
    [generate_zoomed_images] raises nothing and saves one file per
    coordinate, in the order of the coordinates, under the scene number of
    the coordinate.  The image of a coordinate is the region
    of its crop box, trimmed to the ratio of the video and resized: both
    boxes lie in the image they are cut from and have pixels, and the image
    has exactly the size of the video. *)
Theorem zoomed_images_have_video_size {image : Type} `{ImagingLaws image}
        (video_width video_height : Z) (img : image) (width height : Z)
        (coordinates : list Coordinate) :
  size img = (width, height) ->
  jpeg_mode img = true ->
  (0 < video_width)%Z -> (0 < video_height)%Z ->
  (0 < width)%Z -> (0 < height)%Z ->
  Forall (fun coord =>
            1 <= coord_zoom coord /\
            0 <= coord_x coord <= 1 /\ 0 <= coord_y coord <= 1 /\
            2 * inject_Z video_width
            <= inject_Z video_height
               * (inject_Z width / coord_zoom coord - 2) /\
            2 * inject_Z video_height
            <= inject_Z video_width
               * (inject_Z height / coord_zoom coord - 2))
         coordinates ->
  exists generated_files,
    generate_zoomed_images video_width video_height img coordinates
    = Ok generated_files /\
    map fst generated_files = map coord_scene coordinates /\
    Forall2 (fun coord file =>
               exists crop_box b,
                 _calculate_crop_box width height (coord_x coord)
                                     (coord_y coord) (coord_zoom coord)
                 = Ok crop_box /\
                 trim_box video_width video_height
                          (fst (box_size crop_box)) (snd (box_size crop_box))
                 = Ok b /\
                 (0 <= box_left crop_box < box_right crop_box)%Z /\
                 (box_right crop_box <= width)%Z /\
                 (0 <= box_top crop_box < box_bottom crop_box)%Z /\
                 (box_bottom crop_box <= height)%Z /\
                 (0 <= box_left b < box_right b)%Z /\
                 (box_right b <= fst (box_size crop_box))%Z /\
                 (0 <= box_top b < box_bottom b)%Z /\
                 (box_bottom b <= snd (box_size crop_box))%Z /\
                 snd file
                 = resize (crop (crop img crop_box) b)
                          (video_width, video_height))
            coordinates generated_files /\
    Forall (fun file => size (snd file) = (video_width, video_height))
           generated_files.
Proof.
  intros Hsize Hmode Hvw Hvh Hw Hh Hzoom.
  set (final_of := fun (coord : Coordinate) (final : image) =>
         exists crop_box b,
           _calculate_crop_box width height (coord_x coord)
                               (coord_y coord) (coord_zoom coord)
           = Ok crop_box /\
           trim_box video_width video_height
                    (fst (box_size crop_box)) (snd (box_size crop_box))
           = Ok b /\
           (0 <= box_left crop_box < box_right crop_box)%Z /\
           (box_right crop_box <= width)%Z /\
           (0 <= box_top crop_box < box_bottom crop_box)%Z /\
           (box_bottom crop_box <= height)%Z /\
           (0 <= box_left b < box_right b)%Z /\
           (box_right b <= fst (box_size crop_box))%Z /\
           (0 <= box_top b < box_bottom b)%Z /\
           (box_bottom b <= snd (box_size crop_box))%Z /\
           final = resize (crop (crop img crop_box) b)
                          (video_width, video_height)).
  assert (exists finals,
             Forall2 (fun coord final =>
                        zoomed_image video_width video_height img coord
                        = Ok final)
                     coordinates finals /\
             Forall2 final_of coordinates finals)
    as (finals & Hfinals & Hshape).
  { induction Hzoom as [|coord coordinates (Hz & _ & _ & Hcolumns & Hrows) _ IH].
    - exists []. split; constructor.
    - destruct IH as (finals & Hfinals & Hshape).
      destruct (zoomed_image_ok video_width video_height img width height
                                Hsize coord Hmode Hvw Hvh Hw Hh Hz
                                Hcolumns Hrows)
        as (crop_box & b & Hbox & Hb & H1 & H2 & H3 & H4 & H5 & H6 & H7 & H8
            & Hfinal).
      exists (resize (crop (crop img crop_box) b) (video_width, video_height)
                :: finals).
      split; constructor; try assumption.
      exists crop_box, b. repeat split; solve [assumption | lia]. }
  clear Hzoom.
  exists (combine (map coord_scene coordinates) finals).
  split; [|split; [|split]].
  - unfold generate_zoomed_images.
    now rewrite (zoomed_images_fold _ _ _ _ finals).
  - clear Hshape.
    induction Hfinals as [|coord final coordinates finals _ _ IH];
      [reflexivity|].
    cbn [map combine fst]. f_equal. exact IH.
  - clear Hfinals.
    induction Hshape as [|coord final coordinates finals Hone _ IH];
      [constructor|].
    cbn [map combine]. constructor; [exact Hone | exact IH].
  - clear Hfinals.
    induction Hshape as [|coord final coordinates finals Hone _ IH];
      [constructor|].
    cbn [map combine]. constructor; [|exact IH].
    destruct Hone as (crop_box & b & Hone). cbn [snd].
    destruct Hone as (_ & _ & _ & _ & _ & _ & _ & _ & _ & _ & ->).
    apply size_resize.
Qed.

Lemma zoomed_images_have_video_size_witness :
  exists generated_files,
    generate_zoomed_images
      1080 1920 (4000, 3000, true)%Z
      [{| coord_scene := 1; coord_x := 1 # 2; coord_y := 1 # 2;
          coord_zoom := 2; coord_text := [] |}]
    = Ok generated_files /\
    map fst generated_files = [1%Z].
Proof.
  destruct (zoomed_images_have_video_size (H0 := size_only_laws)
              1080 1920 (4000, 3000, true)%Z 4000 3000
              [{| coord_scene := 1; coord_x := 1 # 2; coord_y := 1 # 2;
                  coord_zoom := 2; coord_text := [] |}])
    as (generated_files & Hrun & Hscenes & _); try reflexivity.
  - repeat constructor; discriminate.
  - exists generated_files. split; [exact Hrun | exact Hscenes].
Defined.

(** X16.  A coordinate whose crop box has no height, as an extreme zoom
    gives, makes [generate_zoomed_images] raise a [ZeroDivisionError] when
    the fit divides by the height of the crop, wherever the coordinate
    stands in the list: the coordinates before it are processed, none after
    it is. *)
Theorem flat_crop_raises {image : Type} `{ImagingLaws image}
        (video_width video_height : Z) (img : image) (width height : Z)
        (before : list Coordinate) (coord : Coordinate)
        (later : list Coordinate) (crop_box : CropBox) :
  size img = (width, height) ->
  Forall (fun earlier =>
            exists final,
              zoomed_image video_width video_height img earlier = Ok final)
         before ->
  _calculate_crop_box width height (coord_x coord) (coord_y coord)
                      (coord_zoom coord) = Ok crop_box ->
  (box_left crop_box <= box_right crop_box)%Z ->
  box_top crop_box = box_bottom crop_box ->
  generate_zoomed_images video_width video_height img
                         (before ++ coord :: later)
  = Raise ZeroDivisionError.
Proof.
  intros Hsize Hbefore Hbox Hwidth Hflat. unfold generate_zoomed_images.
  assert (exists finals,
             Forall2 (fun earlier final =>
                        zoomed_image video_width video_height img earlier
                        = Ok final)
                     before finals) as [finals Hfinals].
  { induction Hbefore as [|earlier before [final Hfinal] _ [finals IH]].
    - exists []. constructor.
    - exists (final :: finals). now constructor. }
  rewrite foldM_app, (zoomed_images_fold _ _ _ _ finals) by exact Hfinals.
  cbn [bind foldM].
  now rewrite (zoomed_image_no_height video_width video_height img width height
                                      Hsize coord crop_box Hbox Hwidth Hflat).
Qed.

Lemma flat_crop_raises_witness :
  generate_zoomed_images
    1080 1920 (3, 3, true)%Z
    ([{| coord_scene := 1; coord_x := 1 # 2; coord_y := 1 # 2;
         coord_zoom := 1; coord_text := [] |}]
     ++ {| coord_scene := 2; coord_x := 1 # 2; coord_y := 1 # 2;
           coord_zoom := 4; coord_text := [] |}
     :: [{| coord_scene := 3; coord_x := 1 # 2; coord_y := 1 # 2;
            coord_zoom := 1; coord_text := [] |}])
  = Raise ZeroDivisionError.
Proof.
  apply (flat_crop_raises (H0 := size_only_laws) 1080 1920 (3, 3, true)%Z 3 3
                          _ _ _ (1, 1, 1, 1)%Z).
  - reflexivity.
  - constructor; [|constructor]. eexists. reflexivity.
  - reflexivity.
  - simpl. lia.
  - reflexivity.
Defined.

(** ** modules/utils.py: [wrap_text] *)

Lemma breaks_justified_snoc (text_width : pystr -> Z) (max_width : Z)
      (lines : list (list pystr)) (next : pystr) (more : list pystr) :
  breaks_justified text_width max_width lines ->
  (forall earlier line, lines = earlier ++ [line] ->
                        break_justified text_width max_width line next) ->
  breaks_justified text_width max_width (lines ++ [next :: more]).
Proof.
  induction lines as [|line rest IH]; intros Hchain Hlast.
  - simpl. auto.
  - destruct Hchain as [Hhead Hrest].
    destruct rest as [|second rest].
    + simpl. split; [|auto]. apply (Hlast []). reflexivity.
    + change ((line :: second :: rest) ++ [next :: more])
        with (line :: (second :: rest) ++ [next :: more]).
      split.
      * exact Hhead.
      * apply IH; [exact Hrest|].
        intros earlier last Heq. apply (Hlast (line :: earlier)).
        now rewrite Heq.
Qed.

Section Wrap.
Variables (text_width : pystr -> Z) (max_width : Z).

Lemma wrap_step_invariant (lines : list (list pystr))
      (current_line : list pystr) (word : pystr) :
  wrap_invariant text_width max_width lines current_line ->
  exists lines' current_line',
    wrap_step text_width max_width
              (map (join [32%N]) lines, current_line) word
    = (map (join [32%N]) lines', current_line') /\
    List.concat lines' ++ current_line' = List.concat lines ++ current_line ++ [word] /\
    wrap_invariant text_width max_width lines' current_line'.
Proof.
  intros (Hne & Hfit & Hcur & Hchain & Hlast). unfold wrap_step.
  destruct (Z.ltb_spec max_width
                       (text_width (join [32%N] (current_line ++ [word]))))
    as [Hover|Hok].
  - destruct (Nat.ltb_spec 1 (List.length (current_line ++ [word])))
      as [Hmany|Hone].
    + (* the line is closed before the word *)
      rewrite removelast_last.
      assert (current_line <> []) as Hnonempty
          by (intros ->; simpl in Hmany; lia).
      destruct current_line as [|first others]; [congruence|].
      exists (lines ++ [first :: others]), [word].
      split; [now rewrite map_app|]. split.
      * rewrite List.concat_app. simpl. now rewrite app_nil_r, <- app_assoc.
      * unfold wrap_invariant. repeat split.
        -- apply Forall_app. split; [assumption|]. now constructor.
        -- apply Forall_app. split; [assumption|]. now constructor.
        -- simpl. lia.
        -- now apply breaks_justified_snoc.
        -- intros earlier line Heq.
           apply app_inj_tail in Heq. destruct Heq as [_ <-].
           now left.
    + (* a single word wider than the line *)
      assert (current_line = []) as ->.
      { destruct current_line; [reflexivity|].
        rewrite length_app in Hone. simpl in Hone. lia. }
      simpl in Hover.
      exists (lines ++ [[word]]), [].
      split; [now rewrite map_app|]. split.
      * rewrite List.concat_app. simpl. now rewrite !app_nil_r.
      * unfold wrap_invariant. repeat split.
        -- apply Forall_app. split; [assumption|]. now constructor.
        -- apply Forall_app. split; [assumption|].
           constructor; [simpl; lia | constructor].
        -- simpl. lia.
        -- apply breaks_justified_snoc; [assumption|].
           intros earlier line Heq. destruct (Hlast earlier line Heq)
             as (w & -> & Hw).
           right. now exists w.
        -- intros earlier line Heq.
           apply app_inj_tail in Heq. destruct Heq as [_ <-].
           now exists word.
  - (* the word fits *)
    exists lines, (current_line ++ [word]).
    split; [reflexivity|]. split; [reflexivity|].
    unfold wrap_invariant. repeat split; try assumption.
    + intros _. exact Hok.
    + intros earlier line Heq. specialize (Hlast earlier line Heq).
      destruct current_line as [|first others]; simpl.
      * destruct Hlast as (w & -> & Hw). right. now exists w.
      * exact Hlast.
Qed.

Lemma wrap_loop_invariant (words : list pystr) (lines : list (list pystr))
      (current_line : list pystr) :
  wrap_invariant text_width max_width lines current_line ->
  exists lines' current_line',
    fold_left (wrap_step text_width max_width) words
              (map (join [32%N]) lines, current_line)
    = (map (join [32%N]) lines', current_line') /\
    List.concat lines' ++ current_line' = List.concat lines ++ current_line ++ words /\
    wrap_invariant text_width max_width lines' current_line'.
Proof.
  revert lines current_line.
  induction words as [|word words IH]; intros lines current_line Hinv.
  - exists lines, current_line. simpl. now rewrite app_nil_r.
  - destruct (wrap_step_invariant lines current_line word Hinv)
      as (lines1 & current1 & Hstep & Hwords1 & Hinv1).
    destruct (IH lines1 current1 Hinv1)
      as (lines2 & current2 & Hloop & Hwords2 & Hinv2).
    exists lines2, current2. cbn [fold_left]. rewrite Hstep.
    split; [exact Hloop|]. split; [|exact Hinv2].
    rewrite Hwords2, app_assoc, Hwords1, <- !app_assoc. reflexivity.
Qed.
End Wrap.

(** The lines of [wrap_text] as groups of words. *)
Lemma wrap_text_groups (text : pystr) (text_width : pystr -> Z) (max_width : Z) :
  exists lines : list (list pystr),
    wrap_text text text_width max_width = map (join [32%N]) lines /\
    List.concat lines = py_split (replace_char 95 32 text) /\
    Forall (fun line => line <> []) lines /\
    Forall (fun line => (2 <= List.length line)%nat ->
                        (text_width (join [32%N] line) <= max_width)%Z) lines /\
    breaks_justified text_width max_width lines.
Proof.
  unfold wrap_text.
  destruct (wrap_loop_invariant text_width max_width
              (py_split (replace_char 95 32 text)) [] [])
    as (lines & current_line & Hloop & Hwords & Hinv).
  { unfold wrap_invariant. repeat split; try constructor; simpl; try lia.
    intros earlier line Heq. now destruct earlier. }
  cbn [map] in Hloop. rewrite Hloop. cbn [List.concat app] in Hwords.
  destruct Hinv as (Hne & Hfit & Hcur & Hchain & Hlast).
  destruct current_line as [|first others].
  - exists lines. rewrite app_nil_r in Hwords. auto.
  - exists (lines ++ [first :: others]).
    split; [now rewrite map_app|].
    split; [rewrite List.concat_app; simpl; now rewrite app_nil_r|].
    split; [apply Forall_app; split; [assumption|]; now constructor|].
    split; [apply Forall_app; split; [assumption|]; now constructor|].
    now apply breaks_justified_snoc.
Qed.

(** X17.  [wrap_text] loses no word and reorders none: its lines are the
    words of the text, underscores read as spaces, cut into consecutive
    groups and joined by one space.  No line is empty; every line of two or
    more words is at most [max_width] wide; and a line ends only where the
    next word would make it too wide, or after a single word that is too
    wide by itself, which is kept whole on a line of its own. *)
Theorem wrap_text_lines (text : pystr) (text_width : pystr -> Z) (max_width : Z) :
  exists lines : list (list pystr),
    wrap_text text text_width max_width = map (join [32%N]) lines /\
    List.concat lines = py_split (replace_char 95 32 text) /\
    Forall (fun line => line <> []) lines /\
    Forall (fun line => (2 <= List.length line)%nat ->
                        (text_width (join [32%N] line) <= max_width)%Z) lines /\
    breaks_justified text_width max_width lines.
Proof.
  apply wrap_text_groups.
Qed.

Lemma wrap_text_lines_witness :
  exists lines : list (list pystr),
    wrap_text [97; 95; 98; 32; 99; 99; 99; 99]%N
              (fun line => Z.of_nat (List.length line)) 3
    = map (join [32%N]) lines /\
    List.concat lines
    = py_split (replace_char 95 32 [97; 95; 98; 32; 99; 99; 99; 99]%N) /\
    Forall (fun line => line <> []) lines /\
    Forall (fun line =>
              (2 <= List.length line)%nat ->
              (Z.of_nat (List.length (join [32%N] line)) <= 3)%Z) lines /\
    breaks_justified (fun line => Z.of_nat (List.length line)) 3 lines.
Proof.
  exact (wrap_text_lines [97; 95; 98; 32; 99; 99; 99; 99]%N
                         (fun line => Z.of_nat (List.length line)) 3).
Defined.

(** A word of [split()]: not empty, without white space. *)
Lemma split_from_words (word s : pystr) :
  Forall (fun c => py_isspace c = false) word ->
  Forall (fun w => w <> [] /\ Forall (fun c => py_isspace c = false) w)
         (split_from word s).
Proof.
  revert word. induction s as [|c s IH]; intros word Hword; simpl.
  - destruct word; constructor; [|constructor]. split; [discriminate | assumption].
  - destruct (py_isspace c) eqn:E.
    + destruct word as [|c0 word].
      * apply IH. constructor.
      * constructor; [split; [discriminate | assumption]|].
        apply IH. constructor.
    + apply IH. apply Forall_app. split; [assumption|]. now repeat constructor.
Qed.

Lemma split_from_word (word w s : pystr) :
  Forall (fun c => py_isspace c = false) w ->
  split_from word (w ++ s) = split_from (word ++ w) s.
Proof.
  revert word. induction w as [|c w IH]; intros word Hw; simpl.
  - now rewrite app_nil_r.
  - apply Forall_inv in Hw as Hc. apply Forall_inv_tail in Hw.
    rewrite Hc, IH by assumption. now rewrite <- app_assoc.
Qed.

(** Splitting words joined by one space gives the words back. *)
Lemma split_join (words : list pystr) :
  Forall (fun w => w <> [] /\ Forall (fun c => py_isspace c = false) w) words ->
  py_split (join [32%N] words) = words.
Proof.
  unfold py_split. induction 1 as [|w words [Hne Hclean] Hwords IH].
  - reflexivity.
  - destruct words as [|w2 words].
    + simpl. rewrite <- (app_nil_r w) at 1.
      rewrite split_from_word by assumption. simpl.
      now destruct w.
    + change (join [32%N] (w :: w2 :: words))
        with (w ++ [32%N] ++ join [32%N] (w2 :: words)).
      rewrite split_from_word by assumption.
      cbn [app split_from]. change (py_isspace 32) with true. cbv iota.
      rewrite IH. now destruct w.
Qed.

Lemma join_groups (sep : pystr) (lines : list (list pystr)) :
  Forall (fun line => line <> []) lines ->
  Forall (fun line => Forall (fun w : pystr => w <> []) line) lines ->
  join sep (map (join sep) lines) = join sep (List.concat lines).
Proof.
  assert (forall line more : list pystr,
             line <> [] -> more <> [] ->
             join sep (line ++ more) = join sep line ++ sep ++ join sep more)
    as Hjoin.
  { induction line as [|w line IHl]; intros more Hline Hmore; [congruence|].
    destruct line as [|w2 line].
    - simpl. destruct more; [congruence | reflexivity].
    - change (join sep ((w :: w2 :: line) ++ more))
        with (w ++ sep ++ join sep ((w2 :: line) ++ more)).
      rewrite IHl by (assumption || discriminate).
      cbn [join]. now rewrite <- !app_assoc. }
  induction 1 as [|line lines Hline Hlines IH]; intros Hwords.
  - reflexivity.
  - apply Forall_inv in Hwords as Hw. apply Forall_inv_tail in Hwords.
    specialize (IH Hwords).
    destruct lines as [|line2 lines].
    + simpl. now rewrite app_nil_r.
    + change (map (join sep) (line :: line2 :: lines))
        with (join sep line :: map (join sep) (line2 :: lines)).
      change (List.concat (line :: line2 :: lines))
        with (line ++ List.concat (line2 :: lines)).
      rewrite Hjoin; [|assumption|].
      * cbn [join map] in *. cbn [map] in IH.
        destruct (map (join sep) lines) eqn:E.
        -- cbn [join] in *. now rewrite IH.
        -- now rewrite <- IH.
      * apply Forall_inv in Hlines. cbn [List.concat].
        destruct line2; [congruence | discriminate].
Qed.

(** X18.  The lines of [wrap_text], joined by spaces and split again, are
    the words of the text: wrapping changes the white space only. *)
Theorem wrap_text_keeps_words (text : pystr) (text_width : pystr -> Z)
        (max_width : Z) :
  py_split (join [32%N] (wrap_text text text_width max_width))
  = py_split (replace_char 95 32 text).
Proof.
  destruct (wrap_text_groups text text_width max_width)
    as (lines & -> & Hwords & Hne & _).
  pose proof (split_from_words [] (replace_char 95 32 text) (Forall_nil _))
    as Hclean.
  fold (py_split (replace_char 95 32 text)) in Hclean. rewrite <- Hwords in *.
  rewrite join_groups.
  - now apply split_join.
  - assumption.
  - rewrite Forall_forall in *. intros line Hline.
    rewrite Forall_forall. intros w Hw.
    apply (Hclean w). apply in_concat. eauto.
Qed.

(** ** modules/subtitle_maker.py: where the subtitle is drawn *)

Lemma enumerate_length {A : Type} (l : list A) :
  List.length (enumerate l) = List.length l.
Proof.
  unfold enumerate. rewrite length_combine, length_seq. apply Nat.min_id.
Qed.

Lemma centred_offset (outer inner : Z) :
  let offset := ((outer - inner) / 2)%Z in
  (0 <= outer - inner - 2 * offset <= 1)%Z /\
  ((inner <= outer - 100)%Z ->
   (50 <= offset)%Z /\ (offset + inner <= outer - 50)%Z).
Proof.
  cbv zeta.
  pose proof (Z.div_mod (outer - inner) 2 ltac:(lia)) as D.
  pose proof (Z.mod_pos_bound (outer - inner) 2 ltac:(lia)) as M.
  split; [lia|]. intros Hfits. lia.
Qed.

(** X19.  [_draw_text] draws the lines of [wrap_text] for the width of the
    image less 100 pixels, one call per line in their order.  The lines are
    [font_size + 10] pixels apart and the block is centred vertically to
    within a pixel; each line is centred horizontally to within a pixel; a
    line that is not wider than the image less 100 pixels, as every line of
    two or more words is, stays 50 pixels away from the left and right
    edges. *)
Theorem subtitle_layout (font_size stroke_width : Z) (text_width : pystr -> Z)
        (img_width img_height : Z) (text : pystr) :
  let calls :=
    _draw_text font_size stroke_width text_width img_width img_height text in
  let line_height := (font_size + 10)%Z in
  let total_height := (Z.of_nat (List.length calls) * line_height)%Z in
  let start_y := ((img_height - total_height) / 2)%Z in
  map call_line calls = wrap_text text text_width (img_width - 100) /\
  (0 <= img_height - total_height - 2 * start_y <= 1)%Z /\
  (forall j call,
      nth_error calls j = Some call ->
      call_y call = (start_y + Z.of_nat j * line_height)%Z /\
      (0 <= img_width - text_width (call_line call) - 2 * call_x call <= 1)%Z /\
      ((text_width (call_line call) <= img_width - 100)%Z ->
       (50 <= call_x call)%Z /\
       (call_x call + text_width (call_line call) <= img_width - 50)%Z)) /\
  (exists lines : list (list pystr),
      map call_line calls = map (join [32%N]) lines /\
      forall j call line,
        nth_error calls j = Some call -> nth_error lines j = Some line ->
        (2 <= List.length line)%nat ->
        (50 <= call_x call)%Z /\
        (call_x call + text_width (call_line call) <= img_width - 50)%Z).
Proof.
  cbv zeta. unfold _draw_text.
  set (lines := wrap_text text text_width (img_width - 100)).
  rewrite length_map, enumerate_length.
  assert (map call_line
              (map (fun entry : nat * pystr =>
                      let '(j, line) := entry in
                      {| call_x := (img_width - text_width line) / 2;
                         call_y :=
                           (img_height
                            - Z.of_nat (List.length lines) * (font_size + 10)) / 2
                           + Z.of_nat j * (font_size + 10);
                         call_line := line;
                         call_stroke :=
                           if (0 <? stroke_width)%Z
                           then Some stroke_width else None |})
                   (enumerate lines))
          = lines) as Hlines.
  { rewrite map_map. unfold enumerate.
    rewrite <- (map_snd_combine_seq lines) at 3.
    apply map_ext. now intros [j line]. }
  assert (forall j call,
             nth_error
               (map (fun entry : nat * pystr =>
                       let '(j, line) := entry in
                       {| call_x := (img_width - text_width line) / 2;
                          call_y :=
                            (img_height
                             - Z.of_nat (List.length lines) * (font_size + 10)) / 2
                            + Z.of_nat j * (font_size + 10);
                          call_line := line;
                          call_stroke :=
                            if (0 <? stroke_width)%Z
                            then Some stroke_width else None |})
                    (enumerate lines)) j = Some call ->
             nth_error lines j = Some (call_line call) /\
             call_y call
             = ((img_height
                 - Z.of_nat (List.length lines) * (font_size + 10)) / 2
                + Z.of_nat j * (font_size + 10))%Z /\
             call_x call = ((img_width - text_width (call_line call)) / 2)%Z)
    as Hcall.
  { intros j call Hj. rewrite nth_error_map, nth_error_enumerate in Hj.
    destruct (nth_error lines j) as [line|]; [|discriminate].
    cbn in Hj. injection Hj as <-. cbn. auto. }
  split; [exact Hlines|]. split; [apply centred_offset|]. split.
  - intros j call Hj. destruct (Hcall j call Hj) as (_ & Hy & Hx).
    split; [exact Hy|]. rewrite Hx. apply centred_offset.
  - destruct (wrap_text_groups text text_width (img_width - 100))
      as (groups & Hgroups & _ & _ & Hfit & _).
    exists groups. rewrite Hlines. split; [exact Hgroups|].
    intros j call line Hj Hline Hlong.
    destruct (Hcall j call Hj) as (Hnth & _ & Hx).
    fold lines in Hgroups. rewrite Hgroups, nth_error_map, Hline in Hnth.
    cbn in Hnth. injection Hnth as Hjoined.
    rewrite Forall_forall in Hfit.
    specialize (Hfit line (nth_error_In _ _ Hline) Hlong).
    rewrite Hx, <- Hjoined. now apply centred_offset.
Qed.

Lemma subtitle_layout_witness :
  map call_line
      (_draw_text 60 4 (fun line => 30 * Z.of_nat (List.length line))%Z 1080 1920
                  [72; 105; 32; 116; 104; 101; 114; 101]%N)
  = wrap_text [72; 105; 32; 116; 104; 101; 114; 101]%N
              (fun line => 30 * Z.of_nat (List.length line))%Z (1080 - 100) /\
  (forall j call,
      nth_error
        (_draw_text 60 4 (fun line => 30 * Z.of_nat (List.length line))%Z
                    1080 1920 [72; 105; 32; 116; 104; 101; 114; 101]%N) j
      = Some call ->
      (30 * Z.of_nat (List.length (call_line call)) <= 1080 - 100)%Z ->
      (50 <= call_x call)%Z).
Proof.
  destruct (subtitle_layout 60 4 (fun line => 30 * Z.of_nat (List.length line))%Z
                            1080 1920 [72; 105; 32; 116; 104; 101; 114; 101]%N)
    as (Hlines & _ & Hcalls & _).
  split; [exact Hlines|]. intros j call Hj Hfits.
  destruct (Hcalls j call Hj) as (_ & _ & Hedge).
  now apply Hedge.
Defined.

(** ** modules/image_processor.py: the text of the museum view *)

Lemma StronglySorted_app {A : Type} (R : A -> A -> Prop) (l1 l2 : list A) :
  StronglySorted R l1 -> StronglySorted R l2 ->
  (forall a b, In a l1 -> In b l2 -> R a b) ->
  StronglySorted R (l1 ++ l2).
Proof.
  induction 1 as [|a l1 Hsorted IH Hall]; intros H2 Hcross; simpl.
  - assumption.
  - constructor.
    + apply IH; [assumption|]. intros x y Hx Hy. apply Hcross; [now right | assumption].
    + apply Forall_app. split; [assumption|].
      rewrite Forall_forall. intros y Hy. apply Hcross; [now left | assumption].
Qed.

Lemma draw_info_lines_below (video_width : Z) (text_width : pystr -> Z)
      (title : bool) (line_spacing : Z) (wrapped_lines : list pystr)
      (start_y : Z) :
  (0 < line_spacing)%Z ->
  let '(calls, end_y) :=
    draw_info_lines video_width text_width title line_spacing wrapped_lines
                    start_y in
  (start_y <= end_y)%Z /\
  StronglySorted Z.lt (map info_y calls) /\
  Forall (fun call => start_y <= info_y call < end_y)%Z calls.
Proof.
  intros Hspacing. revert start_y.
  induction wrapped_lines as [|line rest IH]; intros start_y; simpl.
  - split; [lia|]. split; constructor.
  - specialize (IH (start_y + line_spacing)%Z).
    destruct (draw_info_lines video_width text_width title line_spacing rest
                              (start_y + line_spacing)) as [calls end_y].
    destruct IH as (Hend & Hsorted & Hall).
    split; [lia|]. split.
    + cbn [map info_y]. constructor; [assumption|].
      rewrite Forall_map. eapply Forall_impl; [|exact Hall].
      cbn. intros call Hcall. lia.
    + constructor; [cbn; lia|].
      eapply Forall_impl; [|exact Hall]. cbn. intros call Hcall. lia.
Qed.

Lemma draw_info_entries_below (video_width : Z)
      (title_width info_width : pystr -> Z) (artwork_info : list pystr)
      (i : nat) (start_y : Z) :
  let calls :=
    draw_info_entries video_width title_width info_width i artwork_info start_y in
  StronglySorted Z.lt (map info_y calls) /\
  Forall (fun call => start_y <= info_y call)%Z calls.
Proof.
  cbv zeta. revert i start_y.
  induction artwork_info as [|info_line rest IH]; intros i start_y; simpl.
  - split; constructor.
  - set (title := (i =? 0)%nat).
    pose proof (draw_info_lines_below
                  video_width (if title then title_width else info_width)
                  title (if title then 70 else 55)%Z
                  (wrap_text info_line
                             (if title then title_width else info_width)
                             (video_width - DEFAULT_MUSEUM_PADDING))
                  start_y ltac:(destruct title; lia)) as Hlines.
    destruct (draw_info_lines video_width _ title _ _ start_y)
      as [calls end_y].
    destruct Hlines as (Hend & Hsorted & Hall).
    destruct (IH (S i) end_y) as [IHsorted IHall].
    rewrite Forall_forall in Hall, IHall.
    split.
    + rewrite map_app. apply StronglySorted_app; try assumption.
      intros a b Ha Hb. apply in_map_iff in Ha, Hb.
      destruct Ha as (ca & <- & Ha). destruct Hb as (cb & <- & Hb).
      specialize (Hall ca Ha). specialize (IHall cb Hb). lia.
    + apply Forall_app. split; rewrite Forall_forall; intros call Hcall.
      * specialize (Hall call Hcall). lia.
      * specialize (IHall call Hcall). lia.
Qed.

(** X20.  In the museum view the text never meets the image.  On a canvas
    wider than 200 and higher than 550 pixels and for an image of positive
    dimensions, every line of the artwork information is drawn at least 70
    pixels below the bottom of the image; no line is drawn higher than 480
    pixels above the bottom of the canvas, and each line is drawn lower than
    the one before. *)
Theorem museum_text_below_image
        (video_width video_height img_width img_height : Z)
        (title_width info_width : pystr -> Z) (artwork_info : list pystr) :
  (DEFAULT_MUSEUM_PADDING < video_width)%Z ->
  (DEFAULT_MUSEUM_TEXT_HEIGHT < video_height)%Z ->
  (0 < img_width)%Z -> (0 < img_height)%Z ->
  let calls :=
    _draw_artwork_info video_width video_height title_width info_width
                       artwork_info in
  exists new_width new_height x y,
    _calculate_museum_image_size video_width video_height (img_width, img_height)
    = Ok (new_width, new_height) /\
    _calculate_museum_image_position video_width video_height
                                     (new_width, new_height)
    = (x, y) /\
    Forall (fun call => y + new_height + 70 <= info_y call)%Z calls /\
    Forall (fun call => video_height - 480 <= info_y call)%Z calls /\
    StronglySorted Z.lt (map info_y calls).
Proof.
  unfold DEFAULT_MUSEUM_PADDING, DEFAULT_MUSEUM_TEXT_HEIGHT.
  intros Hvw Hvh Hiw Hih. cbv zeta.
  rewrite museum_size_unfold.
  destruct (aspect_ratio_fit_inside_target_bounds
              img_width img_height (video_width - 200) (video_height - 550))
    as (new_width & new_height & Hrun & Hw & Hh); try lia.
  exists new_width, new_height,
    ((video_width - new_width) / 2)%Z,
    ((video_height - new_height - 550) / 2)%Z.
  split; [exact Hrun|]. split; [reflexivity|].
  destruct (draw_info_entries_below video_width title_width info_width
                                    artwork_info 0 (video_height - 480))
    as [Hsorted Hall].
  fold (_draw_artwork_info video_width video_height title_width info_width
                           artwork_info) in Hsorted, Hall.
  pose proof (Z.div_mod (video_height - new_height - 550) 2 ltac:(lia)) as Dy.
  pose proof (Z.mod_pos_bound (video_height - new_height - 550) 2 ltac:(lia)) as My.
  split; [|split; assumption].
  eapply Forall_impl; [|exact Hall]. cbn. intros call Hcall. lia.
Qed.

Lemma museum_text_below_image_witness :
  exists new_width new_height x y,
    _calculate_museum_image_size 1080 1920 (4000, 3000)%Z
    = Ok (new_width, new_height) /\
    _calculate_museum_image_position 1080 1920 (new_width, new_height) = (x, y) /\
    Forall (fun call => y + new_height + 70 <= info_y call)%Z
           (_draw_artwork_info 1080 1920
                               (fun line => 30 * Z.of_nat (List.length line))%Z
                               (fun line => 20 * Z.of_nat (List.length line))%Z
                               [[83; 117; 110]%N; [86; 97; 110]%N]).
Proof.
  destruct (museum_text_below_image
              1080 1920 4000 3000
              (fun line => 30 * Z.of_nat (List.length line))%Z
              (fun line => 20 * Z.of_nat (List.length line))%Z
              [[83; 117; 110]%N; [86; 97; 110]%N])
    as (new_width & new_height & x & y & Hsize & Hpos & Hbelow & _);
    try reflexivity.
  exists new_width, new_height, x, y.
  split; [exact Hsize|]. split; [exact Hpos | exact Hbelow].
Defined.

(** ** modules/utils.py: [format_file_size] *)

Lemma format_size_loop_unit (format_2f : Q -> string) (units : list string)
      (size_bytes : Q) :
  exists (k : nat) (v : Q),
    (k <= List.length units)%nat /\
    format_size_loop format_2f units size_bytes
    = (format_2f v ++ nth k (units ++ ["TB"%string]) ""%string)%string /\
    v * inject_Z (1024 ^ Z.of_nat k) == size_bytes /\
    ((k < List.length units)%nat -> v < 1024) /\
    ((0 < k)%nat -> 1 <= v).
Proof.
  revert size_bytes. induction units as [|unit rest IH]; intros size_bytes.
  - exists 0%nat, size_bytes. simpl. repeat split; try lia.
    change (inject_Z 1) with 1. ring.
  - simpl. destruct (Qltb_spec size_bytes 1024) as [Hsmall|Hlarge].
    + exists 0%nat, size_bytes. simpl. repeat split; try lia.
      * change (inject_Z 1) with 1. ring.
      * intros _. assumption.
    + destruct (IH (size_bytes / 1024)) as (k & v & Hk & Hrun & Hv & Hlt & Hge).
      exists (S k), v. split; [lia|]. split; [exact Hrun|]. split; [|split].
      * rewrite Nat2Z.inj_succ, Z.pow_succ_r, inject_Z_mult by lia.
        assert (size_bytes / 1024 * 1024 == size_bytes) as Hdiv by field.
        rewrite <- Hdiv, <- Hv. ring.
      * intros HSk. apply Hlt. lia.
      * intros _. destruct k as [|k].
        -- change (inject_Z (1024 ^ Z.of_nat 0)) with 1 in Hv.
           assert (1 <= size_bytes / 1024)
             by (apply Qle_shift_div_l; [reflexivity | lra]).
           lra.
        -- apply Hge. lia.
Qed.

(** X21.  [format_file_size] shows the size divided by 1024 as often as the
    unit says: the number it formats is the size in bytes, kilobytes,
    megabytes, gigabytes or terabytes; below terabytes the number is less
    than 1024, and above bytes it is at least 1. *)
Theorem format_file_size_unit (format_2f : Q -> string) (size_bytes : Z) :
  exists (k : nat) (v : Q),
    (k <= 4)%nat /\
    format_file_size format_2f size_bytes
    = (format_2f v ++ nth k ["B"; "KB"; "MB"; "GB"; "TB"] "")%string /\
    v * inject_Z (1024 ^ Z.of_nat k) == inject_Z size_bytes /\
    ((k < 4)%nat -> v < 1024) /\
    ((0 < k)%nat -> 1 <= v).
Proof.
  apply (format_size_loop_unit format_2f ["B"; "KB"; "MB"; "GB"]%string).
Qed.

Lemma format_file_size_unit_witness :
  exists (k : nat) (v : Q),
    format_file_size (fun _ => "1.46"%string) 1536000
    = ("1.46" ++ nth k ["B"; "KB"; "MB"; "GB"; "TB"] "")%string /\
    ((k < 4)%nat -> v < 1024) /\ ((0 < k)%nat -> 1 <= v).
Proof.
  destruct (format_file_size_unit (fun _ => "1.46"%string) 1536000)
    as (k & v & _ & Hrun & _ & Hlt & Hge).
  exists k, v. split; [exact Hrun|]. split; assumption.
Defined.

(** ** main.py: [load_scenes] *)

Lemma py_lstrip_empty (s : pystr) :
  py_lstrip s = [] <-> Forall (fun c => py_isspace c = true) s.
Proof.
  induction s as [|c s IH]; simpl.
  - split; [constructor | reflexivity].
  - destruct (py_isspace c) eqn:E.
    + rewrite IH. split; [now constructor | apply Forall_inv_tail].
    + split; [discriminate|]. intros Hall. apply Forall_inv in Hall. congruence.
Qed.

Lemma py_lstrip_head (s : pystr) :
  match py_lstrip s with
  | [] => True
  | c :: _ => py_isspace c = false
  end.
Proof.
  induction s as [|c s IH]; simpl; [exact I|].
  destruct (py_isspace c) eqn:E; assumption.
Qed.

(** [lstrip] keeps the end of the string. *)
Lemma py_lstrip_suffix (s : pystr) : exists spaces, s = spaces ++ py_lstrip s.
Proof.
  induction s as [|c s [spaces IH]]; simpl.
  - now exists [].
  - destruct (py_isspace c).
    + exists (c :: spaces). simpl. now rewrite <- IH.
    + now exists [].
Qed.

Lemma py_strip_empty (s : pystr) :
  py_strip s = [] <-> Forall (fun c => py_isspace c = true) s.
Proof.
  unfold py_strip, py_rstrip. split.
  - intros Hempty.
    assert (py_lstrip (rev (py_lstrip s)) = []) as Hl
        by (rewrite <- (rev_involutive (py_lstrip _)), Hempty; reflexivity).
    apply py_lstrip_empty in Hl. apply Forall_rev in Hl.
    rewrite rev_involutive in Hl.
    destruct (py_lstrip s) as [|c rest] eqn:E; [now apply py_lstrip_empty|].
    pose proof (py_lstrip_head s) as Hhead. rewrite E in Hhead.
    apply Forall_inv in Hl. congruence.
  - intros Hall. apply py_lstrip_empty in Hall. now rewrite Hall.
Qed.

(** A stripped string has no white space at either end. *)
Lemma py_strip_ends (s : pystr) :
  match py_strip s with
  | [] => True
  | c :: _ => py_isspace c = false
  end /\
  match rev (py_strip s) with
  | [] => True
  | c :: _ => py_isspace c = false
  end.
Proof.
  unfold py_strip, py_rstrip. rewrite rev_involutive.
  split; [|apply py_lstrip_head].
  destruct (py_lstrip_suffix (rev (py_lstrip s))) as [spaces Hsuffix].
  apply (f_equal (@rev N)) in Hsuffix.
  rewrite rev_involutive, rev_app_distr in Hsuffix.
  pose proof (py_lstrip_head s) as Hhead.
  destruct (rev (py_lstrip (rev (py_lstrip s)))) as [|c rest]; [exact I|].
  rewrite Hsuffix in Hhead. exact Hhead.
Qed.

(** X22.  [load_scenes] raises its [ValueError] exactly when every line of
    the file is blank.  Otherwise it returns at least one scene and at most
    one per line, the stripped lines that are not blank in their order: no
    scene is empty and none starts or ends with white space. *)
Theorem load_scenes_stripped (file_lines : list pystr) :
  (load_scenes file_lines = RaiseValueError <->
   Forall (fun line => Forall (fun c => py_isspace c = true) line) file_lines) /\
  (forall scenes,
      load_scenes file_lines = Scenes scenes ->
      scenes <> [] /\
      (List.length scenes <= List.length file_lines)%nat /\
      scenes
      = map py_strip
            (filter (fun line =>
                       negb (forallb py_isspace line)) file_lines) /\
      Forall (fun scene =>
                scene <> [] /\
                (forall c rest, scene = c :: rest -> py_isspace c = false) /\
                (forall c rest, scene = rest ++ [c] -> py_isspace c = false))
             scenes).
Proof.
  assert (forall line,
             match py_strip line with [] => false | _ => true end
             = negb (forallb py_isspace line)) as Hblank.
  { intros line. destruct (forallb py_isspace line) eqn:E.
    - rewrite forallb_forall in E.
      assert (py_strip line = []) as ->
          by (apply py_strip_empty, Forall_forall; exact E).
      reflexivity.
    - destruct (py_strip line) eqn:Es; [|reflexivity].
      apply py_strip_empty in Es. rewrite Forall_forall in Es.
      rewrite <- forallb_forall in Es. congruence. }
  unfold load_scenes.
  rewrite (filter_ext _ _ Hblank).
  remember (filter (fun line : pystr => negb (forallb py_isspace line))
                   file_lines) as kept_lines eqn:Hkept.
  assert (forall line, In line kept_lines <->
                       In line file_lines /\
                       negb (forallb py_isspace line) = true) as Hin_kept
      by (intros line; rewrite Hkept; apply filter_In).
  split.
  - split.
    + intros Hraise.
      destruct kept_lines as [|first rest]; [|simpl in Hraise; discriminate].
      rewrite Forall_forall. intros line Hline.
      rewrite Forall_forall, <- forallb_forall.
      destruct (forallb py_isspace line) eqn:Eb; [reflexivity|].
      destruct (proj2 (Hin_kept line)); split; [assumption | now rewrite Eb].
    + intros Hall.
      destruct kept_lines as [|first rest]; [reflexivity|].
      destruct (proj1 (Hin_kept first)) as [Hin Hnot]; [now left|].
      rewrite Forall_forall in Hall. specialize (Hall first Hin).
      rewrite Forall_forall, <- forallb_forall in Hall.
      rewrite Hall in Hnot. discriminate.
  - intros scenes Hrun.
    assert (scenes = map py_strip kept_lines) as ->
        by (destruct (map py_strip kept_lines); [discriminate | congruence]).
    split; [destruct (map py_strip kept_lines); [discriminate | congruence]|].
    split; [rewrite length_map, Hkept; apply filter_length_le|].
    split; [rewrite Hkept; reflexivity|].
    rewrite Forall_map, Forall_forall. intros line Hline.
    apply Hin_kept in Hline. destruct Hline as [_ Hnot].
    assert (py_strip line <> []) as Hne.
    { intros Hempty. rewrite <- Hblank, Hempty in Hnot. discriminate. }
    destruct (py_strip_ends line) as [Hfirst Hlast].
    split; [exact Hne|]. split.
    + intros c rest Heq. now rewrite Heq in Hfirst.
    + intros c rest Heq. rewrite Heq, rev_app_distr in Hlast. exact Hlast.
Qed.

Lemma load_scenes_stripped_witness :
  load_scenes [[32; 10]%N; [10]%N] = RaiseValueError.
Proof.
  destruct (load_scenes_stripped [[32; 10]%N; [10]%N]) as [[_ Hraise] _].
  apply Hraise. repeat constructor.
Defined.

(** ** modules/claude_analyzer.py: [resize_image_under_limit] *)

(** A side scaled by a ratio of two integers and truncated is an integer
    division. *)
Lemma int_of_scaled (a m b : Z) :
  (0 <= a)%Z -> (0 <= m)%Z -> (0 < b)%Z ->
  int_of_float (inject_Z a * (inject_Z m / inject_Z b)) = (a * m / b)%Z.
Proof.
  intros Ha Hm Hb.
  assert (0 < inject_Z b) as Hb' by now apply inject_Z_pos.
  assert (0 <= inject_Z a) as Ha' by (change 0 with (inject_Z 0); rewrite <- Zle_Qle; exact Ha).
  assert (0 <= inject_Z m) as Hm' by (change 0 with (inject_Z 0); rewrite <- Zle_Qle; exact Hm).
  rewrite int_of_float_nonneg.
  - apply Qfloor_sample; [exact Hb|]. field. lra.
  - apply Qmult_le_0_compat; [exact Ha'|].
    apply Qle_shift_div_l; [exact Hb'|]. lra.
Qed.

Lemma initial_size_cases (max_dimension width height : Z) :
  (1 <= width)%Z -> (1 <= height)%Z -> (1 <= max_dimension)%Z ->
  initial_size max_dimension width height
  = Ok (if (max_dimension <? width)%Z || (max_dimension <? height)%Z
        then Some (if (height <? width)%Z
                   then (max_dimension, height * max_dimension / width)
                   else (width * max_dimension / height, max_dimension))%Z
        else None).
Proof.
  intros Hwidth Hheight Hmax. unfold initial_size.
  destruct ((max_dimension <? width)%Z || (max_dimension <? height)%Z);
    [|reflexivity].
  assert (forall n, (1 <= n)%Z -> ~ inject_Z n == 0) as Hnz.
  { intros n Hn Hzero. assert (0 < inject_Z n) by (apply inject_Z_pos; lia).
    lra. }
  destruct (height <? width)%Z.
  - rewrite truediv_nonzero by now apply Hnz. cbn [bind].
    now rewrite int_of_scaled by lia.
  - rewrite truediv_nonzero by now apply Hnz. cbn [bind].
    now rewrite int_of_scaled by lia.
Qed.

(** X23.  For an image with a side above [max_dimension], the first resize
    of [resize_image_under_limit] asks for a size whose longer side is
    [max_dimension] and whose other side is the side scaled by the same
    ratio to within one pixel, never above it: neither side is above
    [max_dimension] nor above the side it replaces.  An image within
    [max_dimension] is not resized. *)
Theorem initial_size_within_limit (max_dimension width height : Z) :
  (1 <= width)%Z -> (1 <= height)%Z -> (1 <= max_dimension)%Z ->
  exists new_size,
    initial_size max_dimension width height = Ok new_size /\
    match new_size with
    | None => (width <= max_dimension /\ height <= max_dimension)%Z
    | Some (new_width, new_height) =>
        (max_dimension < Z.max width height)%Z /\
        (0 <= new_width <= max_dimension)%Z /\
        (0 <= new_height <= max_dimension)%Z /\
        (new_width < width \/ new_height < height)%Z /\
        (new_width <= width /\ new_height <= height)%Z /\
        Z.max new_width new_height = max_dimension /\
        if (height <? width)%Z
        then (new_height * width <= height * max_dimension
              <= (new_height + 1) * width)%Z
        else (new_width * height <= width * max_dimension
              <= (new_width + 1) * height)%Z
    end.
Proof.
  intros Hwidth Hheight Hmax.
  rewrite initial_size_cases by assumption.
  eexists. split; [reflexivity|].
  destruct (Z.ltb_spec max_dimension width) as [Hw|Hw];
    destruct (Z.ltb_spec max_dimension height) as [Hh|Hh]; cbn [orb];
    try lia;
    destruct (Z.ltb_spec height width) as [Hwide|Htall].
  all: try (pose proof (Z.mul_div_le (height * max_dimension) width ltac:(lia));
            pose proof (Z.mul_succ_div_gt (height * max_dimension) width
                                          ltac:(lia));
            assert (0 <= height * max_dimension / width)%Z
              by (apply Z.div_pos; lia);
            assert (height * max_dimension / width < max_dimension)%Z
              by (apply Z.div_lt_upper_bound; nia);
            repeat split; try lia; try nia).
  all: try (pose proof (Z.mul_div_le (width * max_dimension) height ltac:(lia));
            pose proof (Z.mul_succ_div_gt (width * max_dimension) height
                                          ltac:(lia));
            assert (0 <= width * max_dimension / height)%Z
              by (apply Z.div_pos; lia);
            assert (width * max_dimension / height <= max_dimension)%Z
              by (apply Z.div_le_upper_bound; nia);
            repeat split; try lia; try nia).
Qed.

Lemma initial_size_within_limit_witness :
  exists new_size,
    initial_size 2000 3000 1999 = Ok new_size /\
    match new_size with
    | None => (3000 <= 2000 /\ 1999 <= 2000)%Z
    | Some (new_width, new_height) =>
        (2000 < Z.max 3000 1999)%Z /\
        (0 <= new_width <= 2000)%Z /\
        (0 <= new_height <= 2000)%Z /\
        (new_width < 3000 \/ new_height < 1999)%Z /\
        (new_width <= 3000 /\ new_height <= 1999)%Z /\
        Z.max new_width new_height = 2000%Z /\
        if (1999 <? 3000)%Z
        then (new_height * 3000 <= 1999 * 2000 <= (new_height + 1) * 3000)%Z
        else (new_width * 1999 <= 3000 * 2000 <= (new_width + 1) * 1999)%Z
    end.
Proof. apply (initial_size_within_limit 2000 3000 1999); lia. Defined.

Lemma shrink_side (side : Z) :
  (0 <= side)%Z ->
  int_of_float (inject_Z side * (85 # 100)) = (side * 85 / 100)%Z.
Proof.
  intros Hside.
  assert (0 <= inject_Z side)
    by (change 0 with (inject_Z 0); rewrite <- Zle_Qle; exact Hside).
  rewrite int_of_float_nonneg by (apply Qmult_le_0_compat; [assumption|lra]).
  apply Qfloor_sample; [lia|].
  unfold Qdiv. rewrite <- Qmult_assoc. apply Qmult_comp; reflexivity.
Qed.

Section ResizeUnderLimitProofs.

Context {image : Type} `{ImagingLaws image}.

Variable jpeg_len : image -> Z -> Z.

Variable min_dimension : Z.

Hypothesis min_dimension_2 : (2 <= min_dimension)%Z.

(** The loop ends within ten rounds for every pixel of width: nine lower
    the quality from 85 to 40 and the tenth makes the image narrower. *)
Lemma encode_loop_returns (fuel : nat) :
  forall (img : image) (width height quality : Z),
    size img = (width, height) ->
    jpeg_mode img = true ->
    (40 <= quality <= 85)%Z -> (quality mod 5 = 0)%Z ->
    (quality < 85 -> min_dimension <= width /\ min_dimension <= height)%Z ->
    (10 * Z.max 0 width + (quality - 35) / 5 <= Z.of_nat fuel)%Z ->
    exists result,
      encode_loop jpeg_len min_dimension fuel img width height quality
      = Some result /\
      match result with
      | Ok (img', quality') =>
          (b64encode_len (jpeg_len img' quality')
           <= CLAUDE_MAX_IMAGE_SIZE_MB * 1000000)%Z /\
          (40 <= quality' <= 85)%Z /\ (quality' mod 5 = 0)%Z /\
          exists width' height',
            size img' = (width', height') /\
            (width' <= width)%Z /\ (height' <= height)%Z /\
            ((img' = img /\ quality' = quality) \/
             (min_dimension <= width' /\ min_dimension <= height')%Z)
      | Raise e => e = Exception
      end.
Proof.
  induction fuel as [|fuel IH];
    intros img width height quality Hsize Hmode Hq Hfive Hmin Hfuel.
  - exfalso. Z.div_mod_to_equations. lia.
  - cbn [encode_loop]. unfold pil_save_jpeg. rewrite Hmode. cbv zeta.
    destruct (Z.leb_spec (b64encode_len (jpeg_len img quality))
                         (CLAUDE_MAX_IMAGE_SIZE_MB * 1000000)) as [Hfits|Hlarge].
    { eexists. split; [reflexivity|]. split; [exact Hfits|]. split; [exact Hq|].
      split; [exact Hfive|].
      exists width, height. repeat split; try lia; try assumption.
      left. split; reflexivity. }
    unfold shrink_step. destruct (Z.ltb_spec 40 quality) as [Hhigh|Hlow].
    + destruct ((width <? min_dimension)%Z || (height <? min_dimension)%Z)
        eqn:Hcheck; [eexists; split; reflexivity|].
      apply orb_false_elim in Hcheck. destruct Hcheck as [Hw Hh].
      apply Z.ltb_ge in Hw, Hh.
      destruct (IH img width height (quality - 5)%Z) as (result & Hrun & Hresult);
        try assumption; try (Z.div_mod_to_equations; lia).
      exists result. split; [exact Hrun|].
      destruct result as [[img' quality']|e]; [|exact Hresult].
      destruct Hresult as (Hfits & Hq' & Hfive' & width' & height' & Hsize'
                           & Hw' & Hh' & Hwhich).
      split; [exact Hfits|]. split; [exact Hq'|]. split; [exact Hfive'|].
      exists width', height'. repeat split; try assumption.
      right. destruct Hwhich as [[-> _]|Hchecked]; [|exact Hchecked].
      rewrite Hsize in Hsize'. injection Hsize' as <- <-. split; assumption.
    + assert (quality = 40)%Z as -> by lia.
      destruct Hmin as [Hw Hh]; [lia|].
      rewrite !shrink_side by lia.
      set (width1 := (width * 85 / 100)%Z).
      set (height1 := (height * 85 / 100)%Z).
      assert (1 <= width1 < width)%Z
        by (subst width1; Z.div_mod_to_equations; lia).
      assert (1 <= height1 < height)%Z
        by (subst height1; Z.div_mod_to_equations; lia).
      unfold pil_resize. cbn [fst snd].
      destruct (Z.ltb_spec width1 1); [lia|].
      destruct (Z.ltb_spec height1 1); [lia|]. cbn [orb bind].
      destruct ((width1 <? min_dimension)%Z || (height1 <? min_dimension)%Z)
        eqn:Hcheck; [eexists; split; reflexivity|].
      apply orb_false_elim in Hcheck. destruct Hcheck as [Hw1 Hh1].
      apply Z.ltb_ge in Hw1, Hh1.
      destruct (IH (resize img (width1, height1)) width1 height1 85%Z)
        as (result & Hrun & Hresult);
        try (apply size_resize); try (now rewrite mode_resize);
        try reflexivity; try lia.
      { Z.div_mod_to_equations. lia. }
      exists result. split; [exact Hrun|].
      destruct result as [[img' quality']|e]; [|exact Hresult].
      destruct Hresult as (Hfits & Hq' & Hfive' & width' & height' & Hsize'
                           & Hw' & Hh' & Hwhich).
      split; [exact Hfits|]. split; [exact Hq'|]. split; [exact Hfive'|].
      exists width', height'.
      split; [exact Hsize'|]. split; [lia|]. split; [lia|].
      right. destruct Hwhich as [[-> _]|Hchecked]; [|exact Hchecked].
      rewrite size_resize in Hsize'. injection Hsize' as <- <-. split; assumption.
Qed.

Variable to_rgb : image -> image.

Variable max_dimension : Z.

(** X24.  With [min_dimension] at least 2, on an image of positive
    dimensions whose mode, after the conversion of RGBA, is one the JPEG
    encoder writes, [resize_image_under_limit] comes to an end, within ten
    rounds of its loop for every pixel of width.  What it returns is the
    encoding of an image no side of which is above [max_dimension] or above
    the side of the original, saved at a quality of 40, 45, ..., 85, and the
    base64 text is at most 5,000,000 characters long.  Otherwise it raises
    its own exception, or the [ValueError] of the first resize, which an
    image at least [max_dimension] times longer than wide or wider than long
    alone can cause. *)
Theorem resize_under_limit_returns (fuel : nat) (img : image)
        (width height : Z) :
  size (to_rgb img) = (width, height) ->
  jpeg_mode (to_rgb img) = true ->
  (1 <= width)%Z -> (1 <= height)%Z -> (1 <= max_dimension)%Z ->
  (Z.to_nat (10 * width + 10) <= fuel)%nat ->
  exists result,
    resize_image_under_limit to_rgb jpeg_len max_dimension min_dimension
                             fuel img = Some result /\
    match result with
    | Ok (img', quality') =>
        (b64encode_len (jpeg_len img' quality') <= 5000000)%Z /\
        (40 <= quality' <= 85)%Z /\ (quality' mod 5 = 0)%Z /\
        exists width' height',
          size img' = (width', height') /\
          (1 <= width' <= Z.min width max_dimension)%Z /\
          (1 <= height' <= Z.min height max_dimension)%Z
    | Raise e =>
        e = Exception \/
        (e = ValueError /\
         (height * max_dimension <= width \/ width * max_dimension <= height)%Z)
    end.
Proof.
  intros Hsize Hmode Hwidth Hheight Hmax Hfuel.
  unfold resize_image_under_limit. rewrite Hsize.
  rewrite initial_size_cases by assumption.
  assert (forall img0 width0 height0,
             size img0 = (width0, height0) ->
             jpeg_mode img0 = true ->
             (1 <= width0 <= Z.min width max_dimension)%Z ->
             (1 <= height0 <= Z.min height max_dimension)%Z ->
             exists result,
               encode_loop jpeg_len min_dimension fuel img0 width0 height0 85
               = Some result /\
               match result with
               | Ok (img', quality') =>
                   (b64encode_len (jpeg_len img' quality') <= 5000000)%Z /\
                   (40 <= quality' <= 85)%Z /\ (quality' mod 5 = 0)%Z /\
                   exists width' height',
                     size img' = (width', height') /\
                     (1 <= width' <= Z.min width max_dimension)%Z /\
                     (1 <= height' <= Z.min height max_dimension)%Z
               | Raise e =>
                   e = Exception \/
                   (e = ValueError /\
                    (height * max_dimension <= width \/
                     width * max_dimension <= height)%Z)
               end) as Hloop.
  { intros img0 width0 height0 Hsize0 Hmode0 Hw0 Hh0.
    destruct (encode_loop_returns fuel img0 width0 height0 85 Hsize0 Hmode0)
      as (result & Hrun & Hresult); try lia;
      [reflexivity | change ((85 - 35) / 5)%Z with 10%Z; lia |].
    exists result. split; [exact Hrun|].
    destruct result as [[img' quality']|e]; [|now left].
    destruct Hresult as (Hfits & Hq' & Hfive' & width' & height' & Hsize'
                         & Hw' & Hh' & Hwhich).
    split; [exact Hfits|]. split; [exact Hq'|]. split; [exact Hfive'|].
    exists width', height'. split; [exact Hsize'|].
    destruct Hwhich as [[-> _]|Hchecked]; [|lia].
    rewrite Hsize0 in Hsize'. injection Hsize' as <- <-. lia. }
  destruct (Z.ltb_spec max_dimension width) as [Hw|Hw];
    destruct (Z.ltb_spec max_dimension height) as [Hh|Hh]; cbn [orb];
    try (apply Hloop; [exact Hsize|exact Hmode|lia|lia]);
    destruct (Z.ltb_spec height width) as [Hwide|Htall]; try lia.
  all: unfold pil_resize; cbn [fst snd].
  all: try (pose proof (Z.mul_div_le (height * max_dimension) width ltac:(lia));
            pose proof (Z.mul_succ_div_gt (height * max_dimension) width
                                          ltac:(lia));
            destruct (Z.ltb_spec max_dimension 1); [lia|];
            destruct (Z.ltb_spec (height * max_dimension / width) 1);
            cbn [orb];
            [eexists; split; [reflexivity|]; right; split; [reflexivity|];
             left; nia
            |apply Hloop;
             [apply size_resize|now rewrite mode_resize|lia|];
             assert (height * max_dimension / width < max_dimension)%Z
               by (apply Z.div_lt_upper_bound; nia);
             nia]).
  all: pose proof (Z.mul_div_le (width * max_dimension) height ltac:(lia));
    pose proof (Z.mul_succ_div_gt (width * max_dimension) height ltac:(lia));
    destruct (Z.ltb_spec (width * max_dimension / height) 1);
    cbn [orb];
    [eexists; split; [reflexivity|]; right; split; [reflexivity|];
     right; nia|];
    destruct (Z.ltb_spec max_dimension 1); [lia|];
    apply Hloop; [apply size_resize|now rewrite mode_resize| |lia];
    assert (width * max_dimension / height <= max_dimension)%Z
      by (apply Z.div_le_upper_bound; nia);
    nia.
Qed.

End ResizeUnderLimitProofs.

Lemma resize_under_limit_returns_witness :
  exists result,
    resize_image_under_limit (H := size_only) (fun img => img)
      (fun img quality => fst (fst img) * snd (fst img) * quality)%Z 20 4 310
      (30, 20, true)%Z = Some result /\
    match result with
    | Ok (img', quality') =>
        (b64encode_len (fst (fst img') * snd (fst img') * quality')
         <= 5000000)%Z /\
        (40 <= quality' <= 85)%Z /\ (quality' mod 5 = 0)%Z /\
        exists width' height',
          size img' = (width', height') /\
          (1 <= width' <= Z.min 30 20)%Z /\
          (1 <= height' <= Z.min 20 20)%Z
    | Raise e =>
        e = Exception \/
        (e = ValueError /\ (20 * 20 <= 30 \/ 30 * 20 <= 20)%Z)
    end.
Proof.
  apply (resize_under_limit_returns (H0 := size_only_laws)
           (fun img quality => fst (fst img) * snd (fst img) * quality)%Z
           4 ltac:(lia)
           (fun img => img) 20 310 (30, 20, true)%Z 30 20);
    try reflexivity; lia.
Defined.

(** ** modules/subtitle_maker.py: the shadow *)

(** X25.  With a blur radius, [_add_subtitle_to_image] draws a shadow for
    every line of the subtitle and nothing else: the shadow has the lines of
    the text in the same order, each exactly [shadow_offset[1]] below its
    line, and when the stroke makes a line [2 * d] pixels wider, the shadow
    starts [d + shadow_offset[0]] pixels to the right of where the line
    starts.  Without a blur radius there is no shadow. *)
Theorem shadow_follows_text (font_size stroke_width : Z) (shadow_offset : Z * Z)
        (shadow_blur_radius : Z) (text_width plain_width : pystr -> Z)
        (img_width img_height : Z) (text : pystr) :
  let '(shadow, calls) :=
    _add_subtitle_to_image font_size stroke_width shadow_offset
                           shadow_blur_radius text_width plain_width
                           img_width img_height text in
  calls = _draw_text font_size stroke_width text_width img_width img_height text /\
  ((shadow_blur_radius <= 0)%Z -> shadow = []) /\
  ((0 < shadow_blur_radius)%Z ->
   map call_line shadow = map call_line calls /\
   forall j shadow_call call,
     nth_error shadow j = Some shadow_call ->
     nth_error calls j = Some call ->
     call_line shadow_call = call_line call /\
     call_stroke shadow_call = None /\
     call_y shadow_call = (call_y call + snd shadow_offset)%Z /\
     forall d,
       text_width (call_line call) = (plain_width (call_line call) + 2 * d)%Z ->
       call_x shadow_call = (call_x call + d + fst shadow_offset)%Z).
Proof.
  unfold _add_subtitle_to_image. cbv zeta.
  split; [reflexivity|]. split.
  - intros Hradius. destruct (Z.ltb_spec 0 shadow_blur_radius); [lia|reflexivity].
  - intros Hradius. destruct (Z.ltb_spec 0 shadow_blur_radius); [|lia].
    unfold _add_blurred_shadow, _draw_text.
    set (lines := wrap_text text text_width (img_width - 100)).
    split.
    + rewrite !map_map. apply map_ext. intros [j line]. reflexivity.
    + intros j shadow_call call Hshadow Hcall.
      rewrite nth_error_map in Hshadow, Hcall.
      destruct (nth_error (enumerate lines) j) as [[k line]|]; [|discriminate].
      cbn [option_map] in Hshadow, Hcall.
      injection Hshadow as <-. injection Hcall as <-.
      cbn [call_x call_y call_line call_stroke].
      split; [reflexivity|]. split; [reflexivity|]. split; [lia|].
      intros d ->. Z.div_mod_to_equations. lia.
Qed.

Lemma shadow_follows_text_witness :
  map call_line
      (fst (_add_subtitle_to_image
              60 4 (3, 5)%Z 8
              (fun line => 30 * Z.of_nat (List.length line) + 8)%Z
              (fun line => 30 * Z.of_nat (List.length line))%Z
              1080 1920 [72; 105; 32; 116; 104; 101; 114; 101]%N))
  = map call_line
        (snd (_add_subtitle_to_image
                60 4 (3, 5)%Z 8
                (fun line => 30 * Z.of_nat (List.length line) + 8)%Z
                (fun line => 30 * Z.of_nat (List.length line))%Z
                1080 1920 [72; 105; 32; 116; 104; 101; 114; 101]%N)).
Proof.
  pose proof (shadow_follows_text
                60 4 (3, 5)%Z 8
                (fun line => 30 * Z.of_nat (List.length line) + 8)%Z
                (fun line => 30 * Z.of_nat (List.length line))%Z
                1080 1920 [72; 105; 32; 116; 104; 101; 114; 101]%N) as Hshadow.
  destruct (_add_subtitle_to_image _ _ _ _ _ _ _ _ _) as [shadow calls].
  destruct Hshadow as (_ & _ & Hlines). apply Hlines. lia.
Defined.
